(** * pysnmp.smi.instrum: MIB instrumentation controller

    A shallow embedding of [MibInstrumController] (pysnmp/smi/instrum.py):
    the three transition tables, the MIB tree indexer [__indexMib] and the
    dispatch engine [flipFlopFsm] with its per-round completion callback
    [_cbFun].  The Managed Objects tree and the MIB builder are external
    collaborators; they appear here as parameters. *)

From Stdlib Require Import String Ascii ZArith NArith Bool Arith Lia List.
From Stdlib Require Import Sorting.Sorted Permutation.
Import ListNotations.
Local Open Scope list_scope.

Set Implicit Arguments.

(* ------------------------------------------------------------------ *)
(** ** Python exceptions *)

(** An exception instance, as far as the controller looks at it: the
    outcome of each [isinstance] test (and of [except error.SmiError])
    that instrum.py applies to it.  The class hierarchy of
    pysnmp.smi.error is not part of this file, so every combination of
    answers is allowed. *)
Record exc : Type := mkExc {
  exc_repr : string;
  is_SmiError : bool;
  is_NoSuchObjectError : bool;
  is_NoSuchInstanceError : bool;
  is_EndOfMibViewError : bool;
  is_Exception : bool
}.

(** [error.SmiError(...)] as raised by the controller itself. *)
Definition SmiError (msg : string) : exc :=
  mkExc msg true false false false true.

(** Built-in exceptions raised by the interpreter. *)
Definition KeyError (key : string) : exc :=
  mkExc ("KeyError: " ++ key) false false false false true.
Definition TypeError (msg : string) : exc :=
  mkExc ("TypeError: " ++ msg) false false false false true.
Definition IndexError (msg : string) : exc :=
  mkExc ("IndexError: " ++ msg) false false false false true.
Definition AttributeError (msg : string) : exc :=
  mkExc ("AttributeError: " ++ msg) false false false false true.

(** The [ValueError] of [a, b, c = value] for a tuple of [len] items,
    [len] other than 3. *)
Definition unpack_error (len : nat) : exc :=
  mkExc (match len with
         | 0 => "ValueError: not enough values to unpack (expected 3, got 0)"
         | 1 => "ValueError: not enough values to unpack (expected 3, got 1)"
         | 2 => "ValueError: not enough values to unpack (expected 3, got 2)"
         | _ => "ValueError: too many values to unpack (expected 3)"
         end)
        false false false false true.

Inductive outcome : Type :=
| Returned
| Raised (e : exc)
| OutOfFuel.

(* ------------------------------------------------------------------ *)
(** ** Insertion-ordered dictionaries *)

Module PyDict.
Section Dict.
Variables K V : Type.
Variable eqb : K -> K -> bool.

Definition t := list (K * V).

Fixpoint get (d : t) (k : K) : option V :=
  match d with
  | [] => None
  | (k', v) :: d' => if eqb k k' then Some v else get d' k
  end.

(** [k in d] *)
Definition mem (d : t) (k : K) : bool :=
  match get d k with Some _ => true | None => false end.

(** [d[k] = v]: an existing key keeps its position. *)
Fixpoint set (d : t) (k : K) (v : V) : t :=
  match d with
  | [] => [(k, v)]
  | (k', v') :: d' =>
      if eqb k k' then (k', v) :: d' else (k', v') :: set d' k v
  end.

Definition values (d : t) : list V := map snd d.
Definition items (d : t) : list (K * V) := d.
End Dict.
End PyDict.

(* ------------------------------------------------------------------ *)
(** ** Object identifiers *)

Definition oid := list nat.

Definition oid_eqb (a b : oid) : bool :=
  if list_eq_dec Nat.eq_dec a b then true else false.

(** [name[:-1]] *)
Definition oid_parent (name : oid) : oid := removelast name.

(* ------------------------------------------------------------------ *)
(** ** MIB indexing *)

Module Indexer.

(** The classes imported from SNMPv2-SMI, in the order of the
    [isinstance] chain of [__indexMib]; [OtherSymbol] is anything that
    is not a Managed Object. *)
Inductive kind : Type :=
| MibTable | MibTableRow | MibTableColumn | MibScalarInstance | MibScalar
| OtherSymbol.

Record symObj : Type := mkSym {
  cls : kind;
  name : oid;
  typeName : oid
}.

(** What [__indexMib] reads of [self.mibBuilder]. *)
Record mibBuilder : Type := mkBuilder {
  builder_lastBuildId : Z;
  mibSymbols : list (string * list (string * symObj));
  iso_name : oid                       (* mibTree.name *)
}.

(** What [__indexMib] reads and writes of [self]. *)
Record controller : Type := mkController {
  lastBuildId : Z;
  lastBuildSyms : list (oid * oid)
}.

(** [__init__] *)
Definition init : controller := mkController (-1) [].

Record buckets : Type := mkBuckets {
  scalars : list (oid * symObj);
  instances : list (oid * symObj);
  tables : list (oid * symObj);
  rows : list (oid * symObj);
  cols : list (oid * symObj)
}.

Definition no_buckets : buckets := mkBuckets [] [] [] [] [].

(** [mibSymbols.sort(key=lambda x: x[0], reverse=True)] *)
Fixpoint insert_desc (V : Type) (x : string * V) (l : list (string * V))
  : list (string * V) :=
  match l with
  | [] => [x]
  | y :: l' =>
      if String.leb (fst y) (fst x) then x :: y :: l'
      else y :: insert_desc x l'
  end.

Definition sort_desc (V : Type) (l : list (string * V)) : list (string * V) :=
  fold_right (@insert_desc V) [] l.

(** One pass of the [isinstance] chain. *)
Definition classify (b : buckets) (symObj : symObj) : buckets :=
  let put d := PyDict.set oid_eqb d (name symObj) symObj in
  match cls symObj with
  | MibTable => mkBuckets (scalars b) (instances b) (put (tables b)) (rows b) (cols b)
  | MibTableRow => mkBuckets (scalars b) (instances b) (tables b) (put (rows b)) (cols b)
  | MibTableColumn => mkBuckets (scalars b) (instances b) (tables b) (rows b) (put (cols b))
  | MibScalarInstance => mkBuckets (scalars b) (put (instances b)) (tables b) (rows b) (cols b)
  | MibScalar => mkBuckets (put (scalars b)) (instances b) (tables b) (rows b) (cols b)
  | OtherSymbol => b
  end.

(** The symbols in the order the two nested [for] loops visit them. *)
Definition visit_order (bld : mibBuilder) : list symObj :=
  flat_map (fun m => PyDict.values (snd m)) (sort_desc (mibSymbols bld)).

Definition collect (bld : mibBuilder) : buckets :=
  fold_left classify (visit_order bld) no_buckets.

(** The node a subtree is registered at or unregistered from. *)
Inductive node : Type :=
| AtScalar (o : symObj)
| AtColumn (o : symObj)
| AtRow (o : symObj)
| AtRoot.                              (* mibTree *)

Inductive treeop : Type :=
| unregisterSubtrees (at_ : node) (symName : oid)
| registerSubtrees (at_ : node) (child : symObj).

(** "Detach items from each other" *)
Definition detach_one (b : buckets) (entry : oid * oid) : treeop :=
  let '(symName, parentName) := entry in
  match PyDict.get oid_eqb (scalars b) parentName with
  | Some o => unregisterSubtrees (AtScalar o) symName
  | None =>
    match PyDict.get oid_eqb (cols b) parentName with
    | Some o => unregisterSubtrees (AtColumn o) symName
    | None =>
      match PyDict.get oid_eqb (rows b) parentName with
      | Some o => unregisterSubtrees (AtRow o) symName
      | None => unregisterSubtrees AtRoot symName
      end
    end
  end.

Definition detach (b : buckets) (syms : list (oid * oid)) : list treeop :=
  map (detach_one b) (PyDict.items syms).

(** State of the reattach pass: the operations performed so far and the
    local [lastBuildSyms] dictionary. *)
Definition pass : Type := list treeop * list (oid * oid).

Definition orphan_instance (b : buckets) (inst : symObj) : bool :=
  negb (PyDict.mem oid_eqb (scalars b) (typeName inst))
  && negb (PyDict.mem oid_eqb (cols b) (typeName inst)).

Definition orphan_column (b : buckets) (col : symObj) : bool :=
  negb (PyDict.mem oid_eqb (rows b) (oid_parent (name col))).

(** "Attach Managed Objects Instances to Managed Objects"; [Some e] is
    the exception that stopped the loop. *)
Fixpoint attach_instances (b : buckets) (insts : list symObj) (p : pass)
  : option exc * pass :=
  match insts with
  | [] => (None, p)
  | inst :: rest =>
      match PyDict.get oid_eqb (scalars b) (typeName inst) with
      | Some s =>
          attach_instances b rest
            (fst p ++ [registerSubtrees (AtScalar s) inst],
             PyDict.set oid_eqb (snd p) (name inst) (typeName inst))
      | None =>
        match PyDict.get oid_eqb (cols b) (typeName inst) with
        | Some c =>
            attach_instances b rest
              (fst p ++ [registerSubtrees (AtColumn c) inst],
               PyDict.set oid_eqb (snd p) (name inst) (typeName inst))
        | None => (Some (SmiError "Orphan MIB scalar instance"), p)
        end
      end
  end.

(** "Attach Table Columns to Table Rows" *)
Fixpoint attach_columns (b : buckets) (columns : list symObj) (p : pass)
  : option exc * pass :=
  match columns with
  | [] => (None, p)
  | col :: rest =>
      let rowName := oid_parent (name col) in
      match PyDict.get oid_eqb (rows b) rowName with
      | Some r =>
          attach_columns b rest
            (fst p ++ [registerSubtrees (AtRow r) col],
             PyDict.set oid_eqb (snd p) (name col) rowName)
      | None => (Some (SmiError "Orphan MIB table column"), p)
      end
  end.

(** "Attach Table Rows / Tables / Scalars to MIB tree" *)
Fixpoint attach_root (root : oid) (objs : list symObj) (p : pass) : pass :=
  match objs with
  | [] => p
  | o :: rest =>
      attach_root root rest
        (fst p ++ [registerSubtrees AtRoot o],
         PyDict.set oid_eqb (snd p) (name o) root)
  end.

(** The whole reattach pass, starting from [lastBuildSyms = {}]. *)
Definition attach (bld : mibBuilder) (b : buckets) : option exc * pass :=
  match attach_instances b (PyDict.values (instances b)) ([], []) with
  | (Some e, p1) => (Some e, p1)
  | (None, p1) =>
    match attach_columns b (PyDict.values (cols b)) p1 with
    | (Some e, p2) => (Some e, p2)
    | (None, p2) =>
        let p3 := attach_root (iso_name bld) (PyDict.values (rows b)) p2 in
        let p4 := attach_root (iso_name bld) (PyDict.values (tables b)) p3 in
        (None, attach_root (iso_name bld) (PyDict.values (scalars b)) p4)
    end
  end.

(** [__indexMib]: the outcome, the tree operations it performed, and
    the controller afterwards. *)
Definition indexMib (bld : mibBuilder) (self : controller)
  : outcome * list treeop * controller :=
  if Z.eqb (lastBuildId self) (builder_lastBuildId bld) then
    (Returned, [], self)
  else
    let b := collect bld in
    let detached := detach b (lastBuildSyms self) in
    match attach bld b with
    | (Some e, (ops, _)) => (Raised e, detached ++ ops, self)
    | (None, (ops, syms)) =>
        (Returned, detached ++ ops,
         mkController (builder_lastBuildId bld) syms)
    end.

(** ** Vocabulary of the properties *)

(** The per-variant dictionary a Managed Object of class [k] goes to. *)
Definition bucket (k : kind) (b : buckets) : list (oid * symObj) :=
  match k with
  | MibTable => tables b
  | MibTableRow => rows b
  | MibTableColumn => cols b
  | MibScalarInstance => instances b
  | MibScalar => scalars b
  | OtherSymbol => []
  end.

(** Module [m] has a symbol [o] of class [k] named [n]. *)
Definition defines (m : string * list (string * symObj)) (k : kind) (n : oid)
    (o : symObj) : Prop :=
  In o (PyDict.values (snd m)) /\ cls o = k /\ name o = n.

(** Descending order of module names. *)
Definition desc (V : Type) (a b : string * V) : Prop :=
  String.leb (fst b) (fst a) = true.

Definition has_orphan (b : buckets) : Prop :=
  (exists inst, In inst (PyDict.values (instances b))
                /\ orphan_instance b inst = true)
  \/ (exists col, In col (PyDict.values (cols b))
                  /\ orphan_column b col = true).

Definition no_orphans (b : buckets) : bool :=
  forallb (fun inst => negb (orphan_instance b inst)) (PyDict.values (instances b))
  && forallb (fun col => negb (orphan_column b col)) (PyDict.values (cols b)).

(** The node an instance, or a column, is attached to. *)
Definition instance_parent (b : buckets) (inst : symObj) : node :=
  match PyDict.get oid_eqb (scalars b) (typeName inst) with
  | Some s => AtScalar s
  | None =>
    match PyDict.get oid_eqb (cols b) (typeName inst) with
    | Some c => AtColumn c
    | None => AtRoot
    end
  end.

Definition column_parent (b : buckets) (col : symObj) : node :=
  match PyDict.get oid_eqb (rows b) (oid_parent (name col)) with
  | Some r => AtRow r
  | None => AtRoot
  end.

(** A full reattach pass: every collected Managed Object is registered
    once, instances first, then columns, rows, tables and scalars. *)
Definition full_attach (b : buckets) : list treeop :=
  map (fun inst => registerSubtrees (instance_parent b inst) inst)
      (PyDict.values (instances b))
  ++ map (fun col => registerSubtrees (column_parent b col) col)
         (PyDict.values (cols b))
  ++ map (registerSubtrees AtRoot)
         (PyDict.values (rows b) ++ PyDict.values (tables b)
          ++ PyDict.values (scalars b)).

(** [lastBuildSyms[child] = parent] *)
Definition put (d : list (oid * oid)) (kv : oid * oid) : list (oid * oid) :=
  PyDict.set oid_eqb d (fst kv) (snd kv).

(** The child -> parent associations such a pass records. *)
Definition recorded (bld : mibBuilder) (b : buckets) : list (oid * oid) :=
  fold_left put
    (map (fun inst => (name inst, typeName inst)) (PyDict.values (instances b))
     ++ map (fun col => (name col, oid_parent (name col)))
            (PyDict.values (cols b))
     ++ map (fun o => (name o, iso_name bld))
            (PyDict.values (rows b) ++ PyDict.values (tables b)
             ++ PyDict.values (scalars b)))
    [].

(** The collected Managed Objects, in the order the reattach pass goes
    through them. *)
Definition managed_objects (b : buckets) : list symObj :=
  PyDict.values (instances b) ++ PyDict.values (cols b)
  ++ PyDict.values (rows b) ++ PyDict.values (tables b)
  ++ PyDict.values (scalars b).

Fixpoint distinct (names : list oid) : bool :=
  match names with
  | [] => true
  | n :: rest => negb (existsb (oid_eqb n) rest) && distinct rest
  end.

(** No two collected objects share a name, no column has a row whose
    name is also that of a scalar or of a column, and the name of the
    root is that of no scalar, column or row. *)
Definition unambiguous (bld : mibBuilder) (b : buckets) : bool :=
  distinct (map name (managed_objects b))
  && forallb (fun col =>
                negb (PyDict.mem oid_eqb (scalars b) (oid_parent (name col)))
                && negb (PyDict.mem oid_eqb (cols b) (oid_parent (name col))))
             (PyDict.values (cols b))
  && negb (PyDict.mem oid_eqb (scalars b) (iso_name bld))
  && negb (PyDict.mem oid_eqb (cols b) (iso_name bld))
  && negb (PyDict.mem oid_eqb (rows b) (iso_name bld)).

(** The operation that takes a registered subtree out again. *)
Definition undo (op : treeop) : treeop :=
  match op with
  | registerSubtrees at_ child => unregisterSubtrees at_ (name child)
  | unregisterSubtrees _ _ => op
  end.

End Indexer.

(* ------------------------------------------------------------------ *)
(** ** MIB instrumentation: the dispatch engine *)

Module Engine.
Import Indexer.

Inductive fsm_status : Type := STATUS_OK | STATUS_ERROR.

Inductive fsm_state : Type :=
| STATE_START | STATE_STOP | STATE_ANY
| STATE_READ_TEST | STATE_READ_GET
| STATE_READ_TEST_NEXT | STATE_READ_GET_NEXT
| STATE_WRITE_TEST | STATE_WRITE_COMMIT
| STATE_WRITE_CLEANUP | STATE_WRITE_UNDO.

Definition status_eqb (a b : fsm_status) : bool :=
  match a, b with
  | STATUS_OK, STATUS_OK | STATUS_ERROR, STATUS_ERROR => true
  | _, _ => false
  end.

Definition state_eqb (a b : fsm_state) : bool :=
  match a, b with
  | STATE_START, STATE_START | STATE_STOP, STATE_STOP
  | STATE_ANY, STATE_ANY
  | STATE_READ_TEST, STATE_READ_TEST | STATE_READ_GET, STATE_READ_GET
  | STATE_READ_TEST_NEXT, STATE_READ_TEST_NEXT
  | STATE_READ_GET_NEXT, STATE_READ_GET_NEXT
  | STATE_WRITE_TEST, STATE_WRITE_TEST
  | STATE_WRITE_COMMIT, STATE_WRITE_COMMIT
  | STATE_WRITE_CLEANUP, STATE_WRITE_CLEANUP
  | STATE_WRITE_UNDO, STATE_WRITE_UNDO => true
  | _, _ => false
  end.

Definition key_eqb (a b : fsm_state * fsm_status) : bool :=
  state_eqb (fst a) (fst b) && status_eqb (snd a) (snd b).

(** A transition table: [( state, status ) -> newState]. *)
Definition fsm : Type := list ((fsm_state * fsm_status) * fsm_state).

Definition fsmReadVar : fsm :=
  [ ((STATE_START, STATUS_OK), STATE_READ_TEST);
    ((STATE_READ_TEST, STATUS_OK), STATE_READ_GET);
    ((STATE_READ_GET, STATUS_OK), STATE_STOP);
    ((STATE_ANY, STATUS_ERROR), STATE_STOP) ].

Definition fsmReadNextVar : fsm :=
  [ ((STATE_START, STATUS_OK), STATE_READ_TEST_NEXT);
    ((STATE_READ_TEST_NEXT, STATUS_OK), STATE_READ_GET_NEXT);
    ((STATE_READ_GET_NEXT, STATUS_OK), STATE_STOP);
    ((STATE_ANY, STATUS_ERROR), STATE_STOP) ].

Definition fsmWriteVar : fsm :=
  [ ((STATE_START, STATUS_OK), STATE_WRITE_TEST);
    ((STATE_WRITE_TEST, STATUS_OK), STATE_WRITE_COMMIT);
    ((STATE_WRITE_COMMIT, STATUS_OK), STATE_WRITE_CLEANUP);
    ((STATE_WRITE_CLEANUP, STATUS_OK), STATE_READ_TEST);
    (* Do read after successful write *)
    ((STATE_READ_TEST, STATUS_OK), STATE_READ_GET);
    ((STATE_READ_GET, STATUS_OK), STATE_STOP);
    (* Error handling *)
    ((STATE_WRITE_TEST, STATUS_ERROR), STATE_WRITE_CLEANUP);
    ((STATE_WRITE_COMMIT, STATUS_ERROR), STATE_WRITE_UNDO);
    ((STATE_WRITE_UNDO, STATUS_OK), STATE_READ_TEST);
    (* Ignore read errors (removed columns) *)
    ((STATE_READ_TEST, STATUS_ERROR), STATE_STOP);
    ((STATE_READ_GET, STATUS_ERROR), STATE_STOP);
    ((STATE_ANY, STATUS_ERROR), STATE_STOP) ].

(** [fsmTable[(state, status)]], falling back on
    [fsmTable[(STATE_ANY, status)]]. *)
Definition newState (fsmTable : fsm) (state : fsm_state) (status : fsm_status)
  : exc + fsm_state :=
  match PyDict.get key_eqb fsmTable (state, status) with
  | Some s => inr s
  | None =>
    match PyDict.get key_eqb fsmTable (STATE_ANY, status) with
    | Some s => inr s
    | None => inl (SmiError "Unresolved FSM state")
    end
  end.

(** The value of a variable binding. *)
Inductive val : Type :=
| NoValue                              (* None *)
| Data (v : string)
| ExcInfo (exc_value : exc)            (* (exc_type, exc_value, traceback) *)
| Tuple (len : nat)                    (* any other tuple, of [len] items *)
| noSuchObject                         (* rfc1905.noSuchObject *)
| noSuchInstance                       (* rfc1905.noSuchInstance *)
| endOfMibView.                        (* rfc1905.endOfMibView *)

Definition var_bind : Type := oid * val.

(** The keys of [**context] that the engine reads.  ['cbFun'] is kept
    apart: every call of one run carries the same continuation. *)
Record ctx : Type := mkContext {
  ctx_state : option fsm_state;
  ctx_status : option fsm_status;
  ctx_varBinds : bool;                 (* 'varBinds' in context *)
  ctx_idx : option nat
}.

(** The keyword arguments of a call made by the application. *)
Definition no_context : ctx := mkContext None None false None.

(** What a phase method of the Managed Objects tree does when called:
    it returns and leaves the completion for later; or it calls the
    [cbFun] of its context once, with the context it was given, and
    returns (an exception raised by that callback leaves the phase
    method); or it raises without calling it. *)
Inductive action : Type :=
| Defer
| Reply (varBind : var_bind)            (* cbFun(varBind, **context) *)
| Raise (e : exc).

(** The root of the Managed Objects tree: which phase methods it has,
    and what the [n]-th call made to it does. *)
Record mibTree : Type := mkTree {
  has_method : fsm_state -> bool;
  method : nat -> fsm_state -> nat -> var_bind -> fsm_status -> action
}.

Inductive entry : Type :=
| Called (round : nat) (state : fsm_state) (idx : nat) (varBind : var_bind)
         (a : action)                  (* mgmtFun(varBind, idx=idx, ...) *)
| Stored (idx : nat) (varBind : var_bind)  (* _varBinds[idx] = name, value *)
| Delivered (batch : list var_bind)     (* cbFun(_varBinds, **context) *)
| Tree (op : treeop).

Record world : Type := mkWorld {
  self : controller;
  _varBinds : list var_bind;            (* the list shared by all rounds *)
  counts : list nat;                   (* [count] of each flipFlopFsm call *)
  log : list entry
}.

Definition set_nth (A : Type) (i : nat) (x : A) (l : list A) : list A :=
  firstn i l ++ match skipn i l with [] => [] | _ :: t => x :: t end.

Definition note (e : entry) (w : world) : world :=
  mkWorld (self w) (_varBinds w) (counts w) (log w ++ [e]).

Definition count (round : nat) (w : world) : nat := nth round (counts w) 0.

(** [count = [0]] *)
Definition new_count (w : world) : world :=
  mkWorld (self w) (_varBinds w) (counts w ++ [0]) (log w).

(** [count[0] += 1] *)
Definition bump (round : nat) (w : world) : world :=
  mkWorld (self w) (_varBinds w)
          (set_nth round (S (count round w)) (counts w)) (log w).

(** [_varBinds[idx] = name, value] *)
Definition store (idx : nat) (vb : var_bind) (w : world) : world :=
  note (Stored idx vb)
       (mkWorld (self w) (set_nth idx vb (_varBinds w)) (counts w) (log w)).

Definition calls (w : world) : nat :=
  length (filter (fun e => match e with Called _ _ _ _ _ => true | _ => false end)
                 (log w)).

(** The number of times the continuation was called so far. *)
Definition handed (w : world) : nat :=
  length (filter (fun e => match e with Delivered _ => true | _ => false end)
                 (log w)).

(** The continuation of the application, [context['cbFun']], as the
    controller uses it: an object that is falsy, or one that is truthy
    and called with the batch.  Its [n]-th call returns ([None]) or
    raises.  What it does with the list it is handed is its own business
    and is not followed here. *)
Inductive continuation : Type :=
| Falsy
| Callable (does : nat -> list var_bind -> option exc).

Definition truthy (cbFun : continuation) : bool :=
  match cbFun with
  | Falsy => false
  | Callable _ => true
  end.

(** A continuation that returns whenever it is called. *)
Definition returning : continuation := Callable (fun _ _ => None).

Section Run.
Variable tree : mibTree.
Variable mibBuilder : Indexer.mibBuilder.
(** What [raise value] raises when [value] is an exception triple
    (it depends on the interpreter). *)
Variable raise_tuple : exc -> exc.
Variable fsmTable : fsm.
Variable varBinds : list var_bind.
(** [context['cbFun']]: [None] when the key is missing. *)
Variable cbFun : option continuation.

(** "Watch for possible exception tuple" (lines 223-237).  A tuple is
    unpacked into three names, whatever its length.  The markers are
    attributes of pysnmp.proto.rfc1905, which has [noSuchObject],
    [noSuchInstance] and [endOfMibView]: the attribute read at line 231
    is spelt [noSuchOInstance], and reading it raises. *)
Definition watch (value : val) : exc + val :=
  match value with
  | ExcInfo exc_value =>
      if is_NoSuchObjectError exc_value then inr noSuchObject
      else if is_NoSuchInstanceError exc_value then
        inl (AttributeError
               "module 'pysnmp.proto.rfc1905' has no attribute 'noSuchOInstance'")
      else if is_EndOfMibViewError exc_value then inr endOfMibView
      else if is_Exception exc_value then inl (raise_tuple exc_value)
      else inr value
  | Tuple len =>
      if Nat.eqb len 3 then inr value else inl (unpack_error len)
  | _ => inr value
  end.

(** The context [_cbFun] hands to the next round:
    [dict(context, cbFun=cbFun)] after ['idx'] was popped. *)
Definition next_context (context : ctx) : ctx :=
  mkContext (ctx_state context) (ctx_status context)
            (ctx_varBinds context) None.

(** The closure [_cbFun] of the call number [round]; [flipFlopFsm] is
    the recursive call. *)
Definition _cbFun (flipFlopFsm : ctx -> world -> outcome * world)
    (round : nat) (varBind : option var_bind) (context : ctx)
    (w : world) : outcome * world :=
  let idx := ctx_idx context in
  if negb (ctx_varBinds context) then (Raised (KeyError "'varBinds'"), w)
  else
    match varBind with
    | None => (Raised (TypeError "cannot unpack non-iterable NoneType object"), w)
    | Some (name, value) =>
      match watch value with
      | inl e => (Raised e, w)
      | inr value =>
        match idx with
        | None =>
            (* the assignment fails before [if idx is None] is reached *)
            (Raised (TypeError "list indices must be integers or slices, not NoneType"), w)
        | Some idx =>
            if length (_varBinds w) <=? idx then
              (Raised (IndexError "list assignment index out of range"), w)
            else
              let w := store idx (name, value) w in
              let w := bump round w in
              if count round w <? length varBinds then (Returned, w)
              else flipFlopFsm (next_context context) w
        end
      end
    end.

(** The [for idx, varBind in enumerate(varBinds)] loop, from [idx] on. *)
Fixpoint dispatch (flipFlopFsm : ctx -> world -> outcome * world)
    (round : nat) (context : ctx) (state : fsm_state) (status : fsm_status)
    (idx : nat) (rest : list var_bind) (w : world) : outcome * world :=
  match rest with
  | [] => (Returned, w)
  | varBind :: rest =>
      let a := method tree (calls w) state idx varBind status in
      let w := note (Called round state idx varBind a) w in
      let called :=
        match a with
        | Defer => (Returned, w)
        | Reply vb =>
            _cbFun flipFlopFsm round (Some vb)
                   (mkContext (Some state) (Some status) true (Some idx)) w
        | Raise e => (Raised e, w)
        end in
      match called with
      | (Returned, w) =>
          dispatch flipFlopFsm round context state status (S idx) rest w
      | (Raised e, w) =>
          if is_SmiError e then
            (* except error.SmiError: ... _cbFun(...); return *)
            _cbFun flipFlopFsm round (Some (fst varBind, ExcInfo e))
                   (mkContext (ctx_state context) (Some STATUS_ERROR)
                              (ctx_varBinds context) (Some idx)) w
          else (Raised e, w)
      | (OutOfFuel, w) => (OutOfFuel, w)
      end
  end.

(** Lines 263-272: the state and status the round starts from; a call
    without them starts the batch and indexes the MIB. *)
Definition enter (context : ctx) (w : world)
  : outcome * world * fsm_state * fsm_status :=
  match ctx_state context, ctx_status context, ctx_varBinds context with
  | Some state, Some status, true => (Returned, w, state, status)
  | _, _, _ =>
      let '(o, ops, ctl) := indexMib mibBuilder (self w) in
      (o, mkWorld ctl varBinds (counts w) (log w ++ map Tree ops),
       STATE_START, STATUS_OK)
  end.

(** Lines 298-299: [if cbFun: cbFun(_varBinds, **context)]. *)
Definition deliver (cbFun : continuation) (w : world) : outcome * world :=
  match cbFun with
  | Falsy => (Returned, w)
  | Callable does =>
      match does (handed w) (_varBinds w) with
      | None => (Returned, note (Delivered (_varBinds w)) w)
      | Some e => (Raised e, note (Delivered (_varBinds w)) w)
      end
  end.

Definition flipFlopFsm_body
    (flipFlopFsm : ctx -> world -> outcome * world)
    (context : ctx) (w : world) : outcome * world :=
  let round := length (counts w) in
  let w := new_count w in
  match cbFun with
  | None => (Raised (KeyError "'cbFun'"), w)
  | Some cbFun =>
    match enter context w with
    | (Raised e, w, _, _) => (Raised e, w)
    | (OutOfFuel, w, _, _) => (OutOfFuel, w)
    | (Returned, w, state, status) =>
      match newState fsmTable state status with
      | inl e => (Raised e, w)
      | inr state =>
          if state_eqb state STATE_STOP then deliver cbFun w
          else if truthy cbFun
                  && match varBinds with [] => true | _ => false end then
            (* the case of no var-binds *)
            _cbFun flipFlopFsm round None context w
          else if negb (has_method tree state) then
            (Raised (SmiError "Unsupported state handler"), w)
          else
            dispatch flipFlopFsm round context state status 0 varBinds w
      end
    end
  end.

Fixpoint flipFlopFsm (fuel : nat) (context : ctx) (w : world)
  : outcome * world :=
  match fuel with
  | O => (OutOfFuel, w)
  | S fuel => flipFlopFsm_body (flipFlopFsm fuel) context w
  end.

(** A deferred completion: later on, the Managed Object calls the
    [cbFun] it was given in round [round] for the binding [idx], with
    the context of that round. *)
Inductive event : Type :=
| Completion (round : nat) (idx : nat) (varBind : var_bind)
             (state : fsm_state) (status : fsm_status).

Definition complete (fuel : nat) (ev : event) (w : world) : outcome * world :=
  match ev with
  | Completion round idx vb state status =>
      _cbFun (flipFlopFsm fuel) round (Some vb)
             (mkContext (Some state) (Some status) true (Some idx)) w
  end.

(** The application's call followed by the deferred completions, each
    of them run to its end (whatever it returns or raises). *)
Definition completions (fuel : nat) (evs : list event) (w : world) : world :=
  fold_left (fun w ev => snd (complete fuel ev w)) evs w.

End Run.

(** The state of a fresh controller before any call. *)
Definition start : world := mkWorld Indexer.init [] [] [].

Definition readVars tree bld raise_tuple (varBinds : list var_bind)
    (cbFun : option continuation) (fuel : nat) (w : world) : outcome * world :=
  flipFlopFsm tree bld raise_tuple fsmReadVar varBinds cbFun fuel no_context w.

Definition readNextVars tree bld raise_tuple (varBinds : list var_bind)
    (cbFun : option continuation) (fuel : nat) (w : world) : outcome * world :=
  flipFlopFsm tree bld raise_tuple fsmReadNextVar varBinds cbFun fuel no_context w.

Definition writeVars tree bld raise_tuple (varBinds : list var_bind)
    (cbFun : option continuation) (fuel : nat) (w : world) : outcome * world :=
  flipFlopFsm tree bld raise_tuple fsmWriteVar varBinds cbFun fuel no_context w.

(** ** Vocabulary of the properties *)

(** The round that [flipFlopFsm] runs for a batch of at least one
    binding whose context carries [state] and [status]: it calls the
    phase method [phase] for each binding, or delivers the batch when
    the table says [STATE_STOP]. *)
Definition round_of (state : fsm_state) (status : fsm_status)
    (phase : fsm_state) : Prop :=
  forall tree bld raise_tuple vb rest cbFun rec w,
    let context := mkContext (Some state) (Some status) true None in
    flipFlopFsm_body tree bld raise_tuple fsmWriteVar (vb :: rest) (Some cbFun)
                     rec context w
    = if state_eqb phase STATE_STOP then deliver cbFun (new_count w)
      else if negb (has_method tree phase) then
        (Raised (SmiError "Unsupported state handler"), new_count w)
      else
        dispatch tree raise_tuple (vb :: rest) rec (length (counts w))
                 context phase status 0 (vb :: rest) (new_count w).

(** The marker [_cbFun] stores in the place of a captured exception,
    when it stores one (lines 227-234). *)
Definition placeholder (e : exc) : option val :=
  if is_NoSuchObjectError e then Some noSuchObject
  else if is_NoSuchInstanceError e then None
  else if is_EndOfMibViewError e then Some endOfMibView
  else None.

(** The binding most recently stored at [idx] according to a log, [d]
    when there is none. *)
Fixpoint latest (idx : nat) (l : list entry) (d : option var_bind)
  : option var_bind :=
  match l with
  | [] => d
  | Stored j vb :: l' => latest idx l' (if Nat.eqb j idx then Some vb else d)
  | _ :: l' => latest idx l' d
  end.

(** Every batch a log delivers has the size of [varBinds] and holds, at
    each index, the binding most recently stored there before the
    delivery (the input binding when none was). *)
Definition delivered_in_order (varBinds : list var_bind) (l : list entry) : Prop :=
  forall before batch after,
    l = before ++ Delivered batch :: after ->
    length batch = length varBinds
    /\ forall i, i < length varBinds ->
                 nth_error batch i = latest i before (nth_error varBinds i).

(** The shared list agrees with the log. *)
Definition consistent (varBinds : list var_bind) (w : world) : Prop :=
  length (_varBinds w) = length varBinds
  /\ (forall i, i < length varBinds ->
        nth_error (_varBinds w) i = latest i (log w) (nth_error varBinds i))
  /\ delivered_in_order varBinds (log w).

(** A context made by the engine: with ['varBinds'] come ['state'] and
    ['status']. *)
Definition engine_context (context : ctx) : Prop :=
  ctx_varBinds context = true ->
  ctx_state context <> None /\ ctx_status context <> None.

(** A call that keeps the shared list in agreement with the log. *)
Definition keeps (varBinds : list var_bind)
    (rec : ctx -> world -> outcome * world) : Prop :=
  forall context w,
    engine_context context -> ctx_varBinds context = true ->
    consistent varBinds w -> consistent varBinds (snd (rec context w)).

Definition is_delivery (e : entry) : bool :=
  match e with Delivered _ => true | _ => false end.

(** A call of a phase method that raised something other than an
    [SmiError]. *)
Definition uncaught (e : entry) : bool :=
  match e with
  | Called _ _ _ _ (Raise x) => negb (is_SmiError x)
  | _ => false
  end.

(** Log entries among which there is neither a delivery nor such a call. *)
Definition quiet (l : list entry) : Prop :=
  forallb (fun e => negb (is_delivery e) && negb (uncaught e)) l = true.

(** Log entries among which there is no such call. *)
Definition tame (l : list entry) : Prop :=
  forallb (fun e => negb (uncaught e)) l = true.

(** What the entries [l] logged by a call tell about its outcome [o]:
    an exception other than [SmiError] raised by a phase method is the
    outcome of the call and the last thing that was logged. *)
Definition escapes (o : outcome) (l : list entry) : Prop :=
  forall r s i vb e,
    In (Called r s i vb (Raise e)) l -> is_SmiError e = false ->
    o = Raised e /\ exists l0, l = l0 ++ [Called r s i vb (Raise e)].

Definition direct (rec : ctx -> world -> outcome * world) : Prop :=
  forall context w,
    exists l, log (snd (rec context w)) = log w ++ l
              /\ escapes (fst (rec context w)) l.

(** An exception that the continuation raises, at one of its calls. *)
Definition raised_by (cbFun : option continuation) (e : exc) : Prop :=
  exists does n batch, cbFun = Some (Callable does) /\ does n batch = Some e.

(** A continuation that raises no [SmiError]. *)
Definition discreet (cbFun : option continuation) : Prop :=
  forall e, raised_by cbFun e -> is_SmiError e = false.

(** The same with the deliveries, for a continuation that raises no
    [SmiError]: when such an exception of a phase method is logged, no
    batch was delivered; a call that delivered a batch returned, or
    ended with an exception of the continuation ([mine] tells which
    exceptions these are). *)
Definition propagates (mine : exc -> Prop) (o : outcome)
    (l : list entry) : Prop :=
  (forall r s i vb e,
      In (Called r s i vb (Raise e)) l -> is_SmiError e = false ->
      o = Raised e
      /\ (exists l0, l = l0 ++ [Called r s i vb (Raise e)])
      /\ forallb (fun x => negb (is_delivery x)) l = true)
  /\ (existsb is_delivery l = true ->
      o = Returned \/ exists e, o = Raised e /\ mine e).

Definition sound (mine : exc -> Prop)
    (rec : ctx -> world -> outcome * world) : Prop :=
  forall context w,
    exists l, log (snd (rec context w)) = log w ++ l
              /\ propagates mine (fst (rec context w)) l.

(** The phase methods a log calls, in order, and its deliveries. *)
Definition phases (l : list entry) : list fsm_state :=
  flat_map (fun e => match e with Called _ s _ _ _ => [s] | _ => [] end) l.

Definition deliveries (l : list entry) : list (list var_bind) :=
  flat_map (fun e => match e with Delivered b => [b] | _ => [] end) l.

(** What a call accounts for when the continuation raises no
    [SmiError]: it delivers at most one batch. *)
Definition accounts (rec : ctx -> world -> outcome * world) : Prop :=
  forall context w,
    exists l,
      log (snd (rec context w)) = log w ++ l
      /\ length (deliveries l) <= 1.

(** A call of a phase method that was not answered at once with a
    binding that [_cbFun] stores: the completion is left for later, or
    the phase method raised, or it answered with a value on which
    [_cbFun] raises. *)
Definition unanswered (raise_tuple : exc -> exc) (e : entry) : bool :=
  match e with
  | Called _ _ _ _ (Reply vb) =>
      match watch raise_tuple (snd vb) with
      | inr _ => false
      | inl _ => true
      end
  | Called _ _ _ _ _ => true
  | _ => false
  end.

(** What the entries [l] logged by a call tell about its outcome [o]:
    a call that returned has delivered a batch, unless a call of a phase
    method was not answered; an [SmiError] it ended with comes with such
    a call, or is one for which [_cbFun] has no marker. *)
Definition completes (raise_tuple : exc -> exc) (o : outcome)
    (l : list entry) : Prop :=
  (o = Returned ->
   length (deliveries l) = 1 \/ existsb (unanswered raise_tuple) l = true)
  /\ (forall x, o = Raised x -> is_SmiError x = true ->
        existsb (unanswered raise_tuple) l = true
        \/ (is_Exception x = true /\ placeholder x = None)).

Definition thorough (raise_tuple : exc -> exc)
    (rec : ctx -> world -> outcome * world) : Prop :=
  forall context w,
    exists l,
      log (snd (rec context w)) = log w ++ l
      /\ completes raise_tuple (fst (rec context w)) l.

(** A call of a phase method made by the loop of [round]. *)
Definition called_in (round : nat) (e : entry) : bool :=
  match e with
  | Called r _ _ _ _ => Nat.eqb r round
  | _ => false
  end.

(** The calls of a log are made by rounds from [lo] up to [hi]. *)
Definition rounds_within (lo hi : nat) (l : list entry) : Prop :=
  forall r s i vb a, In (Called r s i vb a) l -> lo <= r < hi.

(** Once a phase method has raised in a round, that round calls no
    phase method any more. *)
Definition ended (l : list entry) : Prop :=
  forall l1 r s i vb e l2,
    l = l1 ++ Called r s i vb (Raise e) :: l2 ->
    forallb (fun x => negb (called_in r x)) l2 = true.

Definition orderly (rec : ctx -> world -> outcome * world) : Prop :=
  forall context w,
    exists l,
      log (snd (rec context w)) = log w ++ l
      /\ length (counts w) <= length (counts (snd (rec context w)))
      /\ rounds_within (length (counts w))
                       (length (counts (snd (rec context w)))) l
      /\ ended l.

(** The same for the loop of [round], whose own calls come on top. *)
Definition tidy (round : nat) (w : world) (r : outcome * world) : Prop :=
  exists l,
    log (snd r) = log w ++ l
    /\ length (counts w) <= length (counts (snd r))
    /\ (forall r' s i vb a,
          In (Called r' s i vb a) l ->
          r' = round \/ length (counts w) <= r' < length (counts (snd r)))
    /\ ended l.

(** The round whose callback a deferred completion invokes. *)
Definition event_round (ev : event) : nat :=
  match ev with Completion round _ _ _ _ => round end.

(** The calls of a log are made by rounds that exist, and a round in
    which a phase method raised calls no phase method afterwards. *)
Definition history (w : world) : Prop :=
  rounds_within 0 (length (counts w)) (log w) /\ ended (log w).

(** The calls an application makes. *)
Definition entry_points
  : list (mibTree -> Indexer.mibBuilder -> (exc -> exc) -> list var_bind ->
          option continuation -> nat -> world -> outcome * world) :=
  [readVars; readNextVars; writeVars].

(** The state and status a call with [context] starts from (lines
    263-270). *)
Definition entered (context : ctx) : fsm_state * fsm_status :=
  match ctx_state context, ctx_status context, ctx_varBinds context with
  | Some state, Some status, true => (state, status)
  | _, _, _ => (STATE_START, STATUS_OK)
  end.

(** [k] nested calls of [flipFlopFsm] are enough for a call with
    [context], whatever the phase methods do: the call ends at once, or
    the calls its round can make (after the last completion, under the
    status of the round; after a caught [SmiError], under status ERROR
    and with the state of [context]) need [k - 1] nested calls at most. *)
Fixpoint bounded (fsmTable : fsm) (k : nat) (context : ctx) : bool :=
  match k with
  | O => false
  | S k =>
      let '(state, status) := entered context in
      match newState fsmTable state status with
      | inl _ => true
      | inr s =>
          state_eqb s STATE_STOP
          || (bounded fsmTable k (mkContext (Some s) (Some status) true None)
              && (negb (ctx_varBinds context)
                  || bounded fsmTable k
                       (mkContext (ctx_state context) (Some STATUS_ERROR)
                                  true None)))
      end
  end.

(** Two recursive calls that agree, and end, on a context. *)
Definition same_on (rec1 rec2 : ctx -> world -> outcome * world) (c : ctx) : Prop :=
  forall w, rec1 c w = rec2 c w /\ fst (rec2 c w) <> OutOfFuel.

(** A table that leaves no round without a next state: it has an entry
    for [(STATE_ANY, STATUS_ERROR)], it resolves [(STATE_START,
    STATUS_OK)], and every state it leads to, other than [STATE_STOP],
    is resolved under [STATUS_OK]. *)
Definition total_table (fsmTable : fsm) : bool :=
  PyDict.mem key_eqb fsmTable (STATE_ANY, STATUS_ERROR)
  && match newState fsmTable STATE_START STATUS_OK with
     | inr _ => true
     | inl _ => false
     end
  && forallb (fun kv =>
                state_eqb (snd kv) STATE_STOP
                || match newState fsmTable (snd kv) STATUS_OK with
                   | inr _ => true
                   | inl _ => false
                   end)
             fsmTable.

(** What a call of [flipFlopFsm] for the batch [varBinds] may log after
    the MIB was indexed: a phase method that the tree has and the table
    leads to, called for an input binding at its index; a binding
    stored within the batch; the batch handed to a continuation that is
    there. *)
Definition expected (tree : mibTree) (fsmTable : fsm) (varBinds : list var_bind)
    (cbFun : option continuation) (e : entry) : Prop :=
  match e with
  | Called _ state idx varBind _ =>
      nth_error varBinds idx = Some varBind
      /\ has_method tree state = true
      /\ state <> STATE_STOP
      /\ In state (map snd fsmTable)
  | Stored idx _ => idx < length varBinds
  | Delivered batch =>
      (exists does, cbFun = Some (Callable does))
      /\ length batch = length varBinds
  | Tree _ => False
  end.

(** The exceptions the controller raises by itself. *)
Definition engine_raised (raise_tuple : exc -> exc) (e : exc) : Prop :=
  e = KeyError "'cbFun'" \/ e = KeyError "'varBinds'"
  \/ e = SmiError "Orphan MIB scalar instance"
  \/ e = SmiError "Orphan MIB table column"
  \/ e = SmiError "Unsupported state handler"
  \/ e = AttributeError
           "module 'pysnmp.proto.rfc1905' has no attribute 'noSuchOInstance'"
  \/ (exists len, len <> 3 /\ e = unpack_error len)
  \/ exists x, is_Exception x = true /\ e = raise_tuple x.

(** An exception, no [SmiError], that a phase method raised according to
    the log. *)
Definition foreign (e : exc) (l : list entry) : Prop :=
  is_SmiError e = false
  /\ exists round state idx varBind, In (Called round state idx varBind (Raise e)) l.

(** What is known of a call, a loop or a callback that started from [w]
    and ended with [r]. *)
Definition regular_from (tree : mibTree) (raise_tuple : exc -> exc)
    (fsmTable : fsm) (varBinds : list var_bind) (cbFun : option continuation)
    (w : world) (r : outcome * world) : Prop :=
  self (snd r) = self w
  /\ length (_varBinds (snd r)) = length (_varBinds w)
  /\ exists l,
       log (snd r) = log w ++ l
       /\ Forall (expected tree fsmTable varBinds cbFun) l
       /\ forall e, fst r = Raised e ->
                    engine_raised raise_tuple e \/ foreign e l
                    \/ raised_by cbFun e.

(** The context carries a state and a status that the table resolves. *)
Definition resolved (fsmTable : fsm) (context : ctx) : Prop :=
  exists state status s,
    ctx_state context = Some state /\ ctx_status context = Some status
    /\ newState fsmTable state status = inr s.

Definition regular (tree : mibTree) (raise_tuple : exc -> exc)
    (fsmTable : fsm) (varBinds : list var_bind) (cbFun : option continuation)
    (rec : ctx -> world -> outcome * world) : Prop :=
  forall context w,
    ctx_varBinds context = true -> resolved fsmTable context ->
    varBinds <> [] -> length (_varBinds w) = length varBinds ->
    regular_from tree raise_tuple fsmTable varBinds cbFun w (rec context w).

(** A completion as a Managed Object reports it: for a binding of the
    batch, with the state of a round of the table. *)
Definition honest (fsmTable : fsm) (varBinds : list var_bind) (ev : event) : Prop :=
  match ev with
  | Completion _ idx _ state _ =>
      idx < length varBinds /\ In state (map snd fsmTable) /\ state <> STATE_STOP
  end.

(** The binding [_cbFun] stores for a completion with [varBind]. *)
Definition taken (raise_tuple : exc -> exc) (varBind : var_bind) : var_bind :=
  (fst varBind,
   match watch raise_tuple (snd varBind) with
   | inr v => v
   | inl _ => snd varBind
   end).

(** The bindings stored for a batch when the binding at each index is
    answered by [answer]. *)
Fixpoint replies (raise_tuple : exc -> exc) (answer : nat -> var_bind -> var_bind)
    (idx : nat) (l : list var_bind) : list var_bind :=
  match l with
  | [] => []
  | varBind :: l =>
      taken raise_tuple (answer idx varBind) :: replies raise_tuple answer (S idx) l
  end.

(** The phases from [state] to [STATE_STOP] when every round ends with
    [STATUS_OK], if [STATE_STOP] is reached within [k] transitions. *)
Fixpoint ok_path (fsmTable : fsm) (k : nat) (state : fsm_state)
  : option (list fsm_state) :=
  match k with
  | O => None
  | S k =>
      match newState fsmTable state STATUS_OK with
      | inl _ => None
      | inr s =>
          if state_eqb s STATE_STOP then Some []
          else match ok_path fsmTable k s with
               | Some path => Some (s :: path)
               | None => None
               end
      end
  end.

(** A completion for round [round] that [_cbFun] takes in: its index is
    within a batch of [n] bindings and its value is no exception that
    [_cbFun] raises. *)
Definition accepted (raise_tuple : exc -> exc) (n round : nat) (ev : event) : Prop :=
  match ev with
  | Completion r idx varBind _ _ =>
      r = round /\ idx < n /\ exists v, watch raise_tuple (snd varBind) = inr v
  end.

(** What [_cbFun] logs for it. *)
Definition stored (raise_tuple : exc -> exc) (ev : event) : entry :=
  match ev with
  | Completion _ idx varBind _ _ => Stored idx (taken raise_tuple varBind)
  end.

(** A call of a phase method that raised an exception for which
    [_cbFun] has no marker. *)
Definition fatal (e : entry) : bool :=
  match e with
  | Called _ _ _ _ (Raise x) =>
      is_Exception x
      && match placeholder x with
         | None => true
         | Some _ => false
         end
  | _ => false
  end.

(** Log entries among which there is no such call. *)
Definition calm (l : list entry) : Prop :=
  forallb (fun e => negb (fatal e)) l = true.

(** What the entries [l] logged by a call tell about its outcome [o]:
    such a call of a phase method is the last thing that was logged,
    and the call ended with an exception that is no [SmiError]. *)
Definition ends_call (o : outcome) (l : list entry) : Prop :=
  forall x, In x l -> fatal x = true ->
            (exists l0, l = l0 ++ [x])
            /\ exists e, o = Raised e /\ is_SmiError e = false.

Definition final (rec : ctx -> world -> outcome * world) : Prop :=
  forall context w,
    exists l, log (snd (rec context w)) = log w ++ l
              /\ ends_call (fst (rec context w)) l.

(** What the entries [l] logged by a call tell when the continuation
    raises no [SmiError]: a delivery is the last thing that was
    logged. *)
Definition closing (l : list entry) : Prop :=
  forall x, In x l -> is_delivery x = true -> exists l0, l = l0 ++ [x].

Definition concluding (rec : ctx -> world -> outcome * world) : Prop :=
  forall context w,
    exists l, log (snd (rec context w)) = log w ++ l /\ closing l.

End Engine.

(* ------------------------------------------------------------------ *)
(** ** Sample collaborators *)

Module Samples.
Import Indexer Engine.

(** Python 3: [raise value] with a tuple. *)
Definition py3_raise (_ : exc) : exc :=
  TypeError "exceptions must derive from BaseException".

(** Instances of the per-binding classes of pysnmp.smi.error, which
    derive from [SmiError]. *)
Definition NoSuchObjectError : exc :=
  mkExc "NoSuchObjectError" true true false false true.
Definition NoSuchInstanceError : exc :=
  mkExc "NoSuchInstanceError" true false true false true.

Definition EndOfMibViewError : exc :=
  mkExc "EndOfMibViewError" true false false true true.

(** Another [SmiError]: the value of a write was rejected. *)
Definition WrongValueError : exc :=
  mkExc "WrongValueError" true false false false true.

(** A built-in exception that is no [SmiError]. *)
Definition ValueError : exc :=
  mkExc "ValueError" false false false false true.

(** A module loader with no Managed Objects, at build version 0. *)
Definition empty_builder : mibBuilder := mkBuilder 0 [] [1].

Definition sysDescr : var_bind := ([1; 3; 6; 1; 2; 1; 1; 1; 0], NoValue).
Definition sysName : var_bind := ([1; 3; 6; 1; 2; 1; 1; 5; 0], NoValue).

(** Every phase method answers at once through its callback. *)
Definition answering : mibTree :=
  mkTree (fun _ => true)
         (fun _ _ _ varBind _ => Reply (fst varBind, Data "value")).

(** [readTest] raises [NoSuchObjectError]. *)
Definition test_raising : mibTree :=
  mkTree (fun _ => true)
         (fun _ state _ varBind _ =>
            match state with
            | STATE_READ_TEST => Raise NoSuchObjectError
            | _ => Reply (fst varBind, Data "value")
            end).

(** [readGet] raises [NoSuchObjectError]. *)
Definition get_raising : mibTree :=
  mkTree (fun _ => true)
         (fun _ state _ varBind _ =>
            match state with
            | STATE_READ_GET => Raise NoSuchObjectError
            | _ => Reply (fst varBind, Data "value")
            end).

(** [writeTest] raises [WrongValueError]. *)
Definition write_test_raising : mibTree :=
  mkTree (fun _ => true)
         (fun _ state _ varBind _ =>
            match state with
            | STATE_WRITE_TEST => Raise WrongValueError
            | _ => Reply (fst varBind, Data "value")
            end).

(** [writeCommit] raises [NoSuchObjectError]. *)
Definition commit_raising : mibTree :=
  mkTree (fun _ => true)
         (fun _ state _ varBind _ =>
            match state with
            | STATE_WRITE_COMMIT => Raise NoSuchObjectError
            | _ => Reply (fst varBind, Data "value")
            end).

(** [writeCleanup] raises [NoSuchObjectError]. *)
Definition cleanup_raising : mibTree :=
  mkTree (fun _ => true)
         (fun _ state _ varBind _ =>
            match state with
            | STATE_WRITE_CLEANUP => Raise NoSuchObjectError
            | _ => Reply (fst varBind, Data "value")
            end).

(** [readGet] raises a [ValueError]. *)
Definition get_crashing : mibTree :=
  mkTree (fun _ => true)
         (fun _ state _ varBind _ =>
            match state with
            | STATE_READ_GET => Raise ValueError
            | _ => Reply (fst varBind, Data "value")
            end).

(** [readTest] completes later, [readGet] at once. *)
Definition test_deferring : mibTree :=
  mkTree (fun _ => true)
         (fun _ state _ varBind _ =>
            match state with
            | STATE_READ_TEST => Defer
            | _ => Reply (fst varBind, Data "value")
            end).

(** The deferred completions of the two [readTest] calls, the second
    binding first. *)
Definition late_completions : list event :=
  [ Completion 0 1 (fst sysName, Data "tested") STATE_READ_TEST STATUS_OK;
    Completion 0 0 (fst sysDescr, Data "tested") STATE_READ_TEST STATUS_OK ].

Definition late_run : world :=
  completions test_deferring empty_builder py3_raise fsmReadVar
              [sysDescr; sysName] (Some returning) 5 late_completions
              (snd (readVars test_deferring empty_builder py3_raise
                             [sysDescr; sysName] (Some returning) 5
                             (mkWorld Indexer.init [] [] []))).

(** What [late_run] logged before it delivered, and what it delivered. *)
Definition late_before : list entry := firstn 8 (log late_run).
Definition late_batch : list var_bind :=
  [ (fst sysDescr, Data "value"); (fst sysName, Data "value") ].

(** The completion of the only [readTest] call, reported twice. *)
Definition repeated_completions : list event :=
  [ Completion 0 0 (fst sysDescr, Data "tested") STATE_READ_TEST STATUS_OK;
    Completion 0 0 (fst sysDescr, Data "tested") STATE_READ_TEST STATUS_OK ].

Definition repeated_run : world :=
  completions test_deferring empty_builder py3_raise fsmReadVar
              [sysDescr] (Some returning) 5 repeated_completions
              (snd (readVars test_deferring empty_builder py3_raise
                             [sysDescr] (Some returning) 5
                             (mkWorld Indexer.init [] [] []))).

(** Two modules define a scalar under one name. *)
Definition X : oid := [1; 3; 6; 1; 4; 1; 1].
Definition X_of_AAA : symObj := mkSym MibScalar X [].
Definition X_of_ZZZ : symObj := mkSym MibScalar X [9].
Definition X_instance : symObj := mkSym MibScalarInstance (X ++ [0]) X.

Definition two_modules : mibBuilder :=
  mkBuilder 1
    [ ("AAA"%string, [("x"%string, X_of_AAA)]);
      ("ZZZ"%string, [("x"%string, X_of_ZZZ); ("x0"%string, X_instance)]) ]
    [1].

(** A module with an instance whose type is defined nowhere. *)
Definition orphaned : mibBuilder :=
  mkBuilder 2
    [ ("AAA"%string, [("x"%string, X_of_AAA)]);
      ("BBB"%string, [("y0"%string, mkSym MibScalarInstance [1; 3; 7; 0] [1; 3; 7])]) ]
    [1].

(** ZZZ defines a scalar and its instance, AAA an instance whose type
    is defined nowhere. *)
Definition half_orphaned : mibBuilder :=
  mkBuilder 3
    [ ("ZZZ"%string, [("x"%string, X_of_ZZZ); ("x0"%string, X_instance)]);
      ("AAA"%string, [("y0"%string, mkSym MibScalarInstance [1; 3; 7; 0] [1; 3; 7])]) ]
    [1].

(** What every phase method of [answering] replies. *)
Definition answered (_ : fsm_state) (_ : nat) (varBind : var_bind) : var_bind :=
  (fst varBind, Data "value").

(** The world a call of [readVars] on [test_deferring] leaves. *)
Definition deferred_call : world :=
  snd (readVars test_deferring empty_builder py3_raise [sysDescr; sysName]
                (Some returning) 5 start).

(** [writeCommit] and [writeCleanup] raise [NoSuchObjectError]. *)
Definition commit_and_cleanup_raising : mibTree :=
  mkTree (fun _ => true)
         (fun _ state _ varBind _ =>
            match state with
            | STATE_WRITE_COMMIT | STATE_WRITE_CLEANUP => Raise NoSuchObjectError
            | _ => Reply (fst varBind, Data "value")
            end).

(** [writeCommit] raises [WrongValueError]. *)
Definition commit_rejecting : mibTree :=
  mkTree (fun _ => true)
         (fun _ state _ varBind _ =>
            match state with
            | STATE_WRITE_COMMIT => Raise WrongValueError
            | _ => Reply (fst varBind, Data "value")
            end).

(** [readGet] answers with the captured exception [e] in the place of
    the value. *)
Definition get_reporting (e : exc) : mibTree :=
  mkTree (fun _ => true)
         (fun _ state _ varBind _ =>
            match state with
            | STATE_READ_GET => Reply (fst varBind, ExcInfo e)
            | _ => Reply (fst varBind, Data "value")
            end).

(** A continuation whose first call raises [NoSuchObjectError]. *)
Definition complaining : continuation :=
  Callable (fun n _ => match n with 0 => Some NoSuchObjectError | _ => None end).

End Samples.

(* ------------------------------------------------------------------ *)
(** * Properties *)

(** ** The write transition table *)

Module WriteFsm.
Import Engine.

(** The write table itself has the error branches of the write
    protocol: an ERROR status at WRITE_TEST leads to WRITE_CLEANUP, an
    ERROR status at WRITE_COMMIT leads to WRITE_UNDO, an OK status at
    WRITE_UNDO leads to READ_TEST, and an ERROR status at the trailing
    READ_TEST or READ_GET leads to STOP, where the batch is delivered.
    A round started from a context that carries such a pair follows
    the entry. *)
Lemma write_table_error_entries :
  newState fsmWriteVar STATE_WRITE_TEST STATUS_ERROR = inr STATE_WRITE_CLEANUP
  /\ newState fsmWriteVar STATE_WRITE_COMMIT STATUS_ERROR = inr STATE_WRITE_UNDO
  /\ newState fsmWriteVar STATE_WRITE_UNDO STATUS_OK = inr STATE_READ_TEST
  /\ newState fsmWriteVar STATE_READ_TEST STATUS_ERROR = inr STATE_STOP
  /\ newState fsmWriteVar STATE_READ_GET STATUS_ERROR = inr STATE_STOP
  /\ round_of STATE_WRITE_TEST STATUS_ERROR STATE_WRITE_CLEANUP
  /\ round_of STATE_WRITE_COMMIT STATUS_ERROR STATE_WRITE_UNDO
  /\ round_of STATE_WRITE_UNDO STATUS_OK STATE_READ_TEST
  /\ round_of STATE_READ_TEST STATUS_ERROR STATE_STOP
  /\ round_of STATE_READ_GET STATUS_ERROR STATE_STOP.
Proof.
  repeat split; try reflexivity;
    intros tree bld raise_tuple vb rest cbFun rec w; cbn; destruct cbFun;
    reflexivity.
Qed.

End WriteFsm.

(* ------------------------------------------------------------------ *)
(** ** Dictionaries and module names *)

Lemma oid_eqb_true (a b : oid) : oid_eqb a b = true <-> a = b.
Proof.
  unfold oid_eqb. destruct (list_eq_dec Nat.eq_dec a b); split; congruence.
Qed.

Lemma oid_eqb_refl (a : oid) : oid_eqb a a = true.
Proof. now apply oid_eqb_true. Qed.

Section DictFacts.
Variable V : Type.
Implicit Types (d : list (oid * V)) (k : oid) (v : V).

Lemma get_set d k v k' :
  PyDict.get oid_eqb (PyDict.set oid_eqb d k v) k'
  = if oid_eqb k' k then Some v else PyDict.get oid_eqb d k'.
Proof.
  induction d as [|[k0 v0] d IH]; simpl.
  - reflexivity.
  - destruct (oid_eqb k k0) eqn:E; simpl.
    + apply oid_eqb_true in E. subst k0.
      destruct (oid_eqb k' k); reflexivity.
    + rewrite IH. destruct (oid_eqb k' k0) eqn:E0; [ | reflexivity].
      apply oid_eqb_true in E0. subst k0.
      destruct (oid_eqb k' k) eqn:E1; [ | reflexivity].
      apply oid_eqb_true in E1. subst k'.
      rewrite oid_eqb_refl in E. discriminate.
Qed.

Lemma get_in_values d k v :
  PyDict.get oid_eqb d k = Some v -> In v (PyDict.values d).
Proof.
  induction d as [|[k0 v0] d IH]; simpl; [discriminate | ].
  destruct (oid_eqb k k0); [ | now right; apply IH].
  intros [= ->]. now left.
Qed.
End DictFacts.

Module ModuleNames.

Lemma leb_refl (s : string) : String.leb s s = true.
Proof.
  unfold String.leb.
  destruct (String.compare s s) eqn:E; try reflexivity.
  pose proof (String.compare_antisym s s) as H. rewrite E in H. discriminate.
Qed.

Lemma compare_trans (a : string) :
  forall b c, String.compare a b <> Gt -> String.compare b c <> Gt ->
              String.compare a c <> Gt.
Proof.
  induction a as [|x a IH]; intros [|y b] [|z c]; simpl; try congruence.
  unfold Ascii.compare.
  destruct (N.compare_spec (N_of_ascii x) (N_of_ascii y)) as [Hxy | Hxy | Hxy];
    destruct (N.compare_spec (N_of_ascii y) (N_of_ascii z)) as [Hyz | Hyz | Hyz];
    destruct (N.compare_spec (N_of_ascii x) (N_of_ascii z)) as [Hxz | Hxz | Hxz];
    try congruence; try lia.
  apply IH.
Qed.

Lemma leb_trans (a b c : string) :
  String.leb a b = true -> String.leb b c = true -> String.leb a c = true.
Proof.
  unfold String.leb. intros H1 H2.
  pose proof (@compare_trans a b c) as H.
  destruct (String.compare a b), (String.compare b c), (String.compare a c);
    try reflexivity; try discriminate; exfalso; apply H; congruence.
Qed.

End ModuleNames.

(* ------------------------------------------------------------------ *)
(** ** The tree indexer *)

Module IndexerFacts.
Import Indexer.

Section Sorting.
Variable V : Type.
Implicit Types (x y : string * V) (l : list (string * V)).

Lemma insert_desc_perm x l : Permutation (x :: l) (insert_desc x l).
Proof.
  induction l as [|y l IH]; simpl.
  - apply Permutation_refl.
  - destruct (String.leb (fst y) (fst x)).
    + apply Permutation_refl.
    + eapply Permutation_trans; [apply perm_swap | ].
      now apply perm_skip.
Qed.

Lemma sort_desc_perm l : Permutation l (sort_desc l).
Proof.
  induction l as [|x l IH]; simpl.
  - apply perm_nil.
  - eapply Permutation_trans; [ | apply insert_desc_perm].
    now apply perm_skip.
Qed.

Lemma insert_desc_sorted x l :
  StronglySorted (@desc V) l -> StronglySorted (@desc V) (insert_desc x l).
Proof.
  induction l as [|y l IH]; simpl; intros Hs.
  - constructor; [constructor | constructor].
  - apply StronglySorted_inv in Hs. destruct Hs as [Hl Hy].
    destruct (String.leb (fst y) (fst x)) eqn:E.
    + constructor; [now constructor | ].
      constructor; [exact E | ].
      rewrite Forall_forall in Hy |- *. intros z Hz.
      unfold desc in *. eapply ModuleNames.leb_trans; [now apply Hy | exact E].
    + constructor; [now apply IH | ].
      rewrite Forall_forall in Hy |- *. intros z Hz.
      apply (Permutation_in _ (Permutation_sym (insert_desc_perm x l))) in Hz.
      destruct Hz as [<- | Hz]; [ | now apply Hy].
      unfold desc. destruct (String.leb_total (fst x) (fst y)); congruence.
Qed.

Lemma sort_desc_sorted l : StronglySorted (@desc V) (sort_desc l).
Proof.
  induction l as [|x l IH]; simpl.
  - constructor.
  - now apply insert_desc_sorted.
Qed.

Lemma sorted_before (l1 l2 : list (string * V)) x y :
  StronglySorted (@desc V) (l1 ++ x :: l2) -> In y l1 -> desc y x.
Proof.
  induction l1 as [|z l1 IH]; simpl; intros Hs Hy; [contradiction | ].
  apply StronglySorted_inv in Hs. destruct Hs as [Hl Hz].
  destruct Hy as [-> | Hy]; [ | now apply IH].
  rewrite Forall_forall in Hz. apply Hz. apply in_or_app. right. now left.
Qed.
End Sorting.

(** What one step of the [isinstance] chain does to each dictionary. *)
Lemma classify_get (b : buckets) (o : symObj) (k : kind) (n : oid) :
  PyDict.get oid_eqb (bucket k (classify b o)) n
  = if oid_eqb n (name o) then
      (if match cls o, k with
          | MibTable, MibTable | MibTableRow, MibTableRow
          | MibTableColumn, MibTableColumn
          | MibScalarInstance, MibScalarInstance
          | MibScalar, MibScalar => true
          | _, _ => false
          end
       then Some o else PyDict.get oid_eqb (bucket k b) n)
    else PyDict.get oid_eqb (bucket k b) n.
Proof.
  unfold classify.
  destruct (cls o), k; simpl; rewrite ?get_set;
    destruct (oid_eqb n (name o)); reflexivity.
Qed.

(** A dictionary holds, for each name, the last object of its class that
    was visited under that name. *)
Lemma collect_last (l : list symObj) (k : kind) (n : oid) (o : symObj) :
  PyDict.get oid_eqb (bucket k (fold_left classify l no_buckets)) n = Some o ->
  exists l1 l2,
    l = l1 ++ o :: l2 /\ cls o = k /\ name o = n
    /\ forall o', In o' l2 -> ~ (cls o' = k /\ name o' = n).
Proof.
  induction l as [|x l IH] using rev_ind.
  - destruct k; discriminate.
  - rewrite fold_left_app. simpl. rewrite classify_get.
    destruct (oid_eqb n (name x)) eqn:En.
    + apply oid_eqb_true in En.
      destruct (cls x) eqn:Ex, k; try (intros [= <-]; exists l, [];
        repeat split; auto; try (intros o' []));
        (intros H; destruct (IH H) as (l1 & l2 & -> & Hk & Hn & Hlast);
         exists l1, (l2 ++ [x]); rewrite <- app_assoc; repeat split; auto;
         intros o' Ho'; apply in_app_or in Ho';
         destruct Ho' as [Ho' | [<- | []]]; [now apply Hlast | ];
         intros [Hc _]; congruence).
    + intros H. destruct (IH H) as (l1 & l2 & -> & Hk & Hn & Hlast).
      exists l1, (l2 ++ [x]). rewrite <- app_assoc. repeat split; auto.
      intros o' Ho'. apply in_app_or in Ho'.
      destruct Ho' as [Ho' | [<- | []]]; [now apply Hlast | ].
      intros [_ Hn']. rewrite <- Hn', oid_eqb_refl in En. discriminate.
Qed.

Lemma collect_some (l : list symObj) (o : symObj) :
  In o l -> cls o <> OtherSymbol ->
  exists o', PyDict.get oid_eqb (bucket (cls o) (fold_left classify l no_buckets))
                        (name o) = Some o'.
Proof.
  induction l as [|x l IH] using rev_ind; [intros [] | ].
  intros Hin Hk. rewrite fold_left_app. simpl. rewrite classify_get.
  apply in_app_or in Hin. destruct Hin as [Hin | [-> | []]].
  - destruct (IH Hin Hk) as [o' Ho']. rewrite Ho'.
    destruct (oid_eqb (name o) (name x)); [ | now exists o'].
    destruct (cls x), (cls o); eauto.
  - rewrite oid_eqb_refl. destruct (cls o); try congruence; eauto.
Qed.

Lemma flat_map_split (A B : Type) (f : A -> list B) (ms : list A) :
  forall l1 o l2, flat_map f ms = l1 ++ o :: l2 ->
  exists ms1 m ms2,
    ms = ms1 ++ m :: ms2 /\ In o (f m)
    /\ forall m', In m' ms2 -> forall o', In o' (f m') -> In o' l2.
Proof.
  induction ms as [|m ms IH]; simpl; intros l1 o l2 H.
  - destruct l1; discriminate.
  - assert (Hcase : (exists a, f m = l1 ++ o :: a /\ l2 = a ++ flat_map f ms)
                    \/ (exists a, l1 = f m ++ a /\ flat_map f ms = a ++ o :: l2)).
    { clear IH. revert l1 H. induction (f m) as [|y fm IHf]; simpl; intros l1 H.
      - right. exists l1. auto.
      - destruct l1 as [|z l1]; simpl in H.
        + injection H as -> H. left. exists fm. auto.
        + injection H as -> H. destruct (IHf _ H) as [(a & -> & ->) | (a & -> & Ha)].
          * left. exists a. auto.
          * right. exists a. auto. }
    destruct Hcase as [(a & Hfm & ->) | (a & -> & Ha)].
    + exists [], m, ms. repeat split.
      * rewrite Hfm. apply in_or_app. right. now left.
      * intros m' Hm' o' Ho'. apply in_or_app. right.
        apply in_flat_map. eauto.
    + destruct (IH _ _ _ Ha) as (ms1 & m0 & ms2 & -> & Hin & Hafter).
      exists (m :: ms1), m0, ms2. repeat split; auto.
  Qed.


Section Attach.
Variable bld : mibBuilder.
Variable b : buckets.

Lemma attach_instances_orphan (insts : list symObj) :
  forall p,
  (exists inst, In inst insts /\ orphan_instance b inst = true) ->
  exists p', attach_instances b insts p
             = (Some (SmiError "Orphan MIB scalar instance"), p').
Proof.
  induction insts as [|i insts IH]; intros p (inst & Hin & Horph).
  - destruct Hin.
  - simpl. unfold orphan_instance, PyDict.mem in Horph.
    destruct Hin as [-> | Hin].
    + destruct (PyDict.get oid_eqb (scalars b) (typeName inst)); [discriminate | ].
      destruct (PyDict.get oid_eqb (cols b) (typeName inst)); [discriminate | ].
      now exists p.
    + destruct (PyDict.get oid_eqb (scalars b) (typeName i)).
      * apply IH. now exists inst.
      * destruct (PyDict.get oid_eqb (cols b) (typeName i)).
        -- apply IH. now exists inst.
        -- now exists p.
Qed.

Lemma attach_instances_error (insts : list symObj) :
  forall p e p', attach_instances b insts p = (Some e, p') ->
                 e = SmiError "Orphan MIB scalar instance".
Proof.
  induction insts as [|i insts IH]; simpl; intros p e p' H.
  - discriminate.
  - destruct (PyDict.get oid_eqb (scalars b) (typeName i)); [now apply IH in H | ].
    destruct (PyDict.get oid_eqb (cols b) (typeName i)); [now apply IH in H | ].
    congruence.
Qed.

Lemma attach_columns_orphan (columns : list symObj) :
  forall p,
  (exists col, In col columns /\ orphan_column b col = true) ->
  exists p', attach_columns b columns p
             = (Some (SmiError "Orphan MIB table column"), p').
Proof.
  induction columns as [|c columns IH]; intros p (col & Hin & Horph).
  - destruct Hin.
  - simpl. unfold orphan_column, PyDict.mem in Horph.
    destruct Hin as [-> | Hin].
    + destruct (PyDict.get oid_eqb (rows b) (oid_parent (name col)));
        [discriminate | now exists p].
    + destruct (PyDict.get oid_eqb (rows b) (oid_parent (name c))).
      * apply IH. now exists col.
      * now exists p.
Qed.

Lemma attach_orphan :
  has_orphan b ->
  exists e p, attach bld b = (Some e, p) /\ is_SmiError e = true.
Proof.
  unfold attach. intros [Hi | Hc].
  - destruct (attach_instances_orphan _ ([], []) Hi) as [p' ->].
    now exists (SmiError "Orphan MIB scalar instance"), p'.
  - destruct (attach_instances b (PyDict.values (instances b)) ([], []))
      as [[e | ] p1] eqn:E.
    + apply attach_instances_error in E. subst e. now eexists _, _.
    + destruct (attach_columns_orphan _ p1 Hc) as [p' ->].
      now eexists _, _.
Qed.

Lemma attach_instances_full (insts : list symObj) :
  forall p,
  forallb (fun inst => negb (orphan_instance b inst)) insts = true ->
  attach_instances b insts p
  = (None,
     (fst p ++ map (fun inst => registerSubtrees (instance_parent b inst) inst) insts,
      fold_left put (map (fun inst => (name inst, typeName inst)) insts) (snd p))).
Proof.
  induction insts as [|i insts IH]; simpl; intros p H.
  - rewrite app_nil_r. now destruct p.
  - apply andb_true_iff in H. destruct H as [Hi H].
    unfold orphan_instance, PyDict.mem, instance_parent in *.
    destruct (PyDict.get oid_eqb (scalars b) (typeName i)).
    + rewrite IH by assumption. simpl. now rewrite <- app_assoc.
    + destruct (PyDict.get oid_eqb (cols b) (typeName i)); [ | discriminate].
      rewrite IH by assumption. simpl. now rewrite <- app_assoc.
Qed.

Lemma attach_columns_full (columns : list symObj) :
  forall p,
  forallb (fun col => negb (orphan_column b col)) columns = true ->
  attach_columns b columns p
  = (None,
     (fst p ++ map (fun col => registerSubtrees (column_parent b col) col) columns,
      fold_left put (map (fun col => (name col, oid_parent (name col))) columns)
                (snd p))).
Proof.
  induction columns as [|c columns IH]; simpl; intros p H.
  - rewrite app_nil_r. now destruct p.
  - apply andb_true_iff in H. destruct H as [Hc H].
    unfold orphan_column, PyDict.mem, column_parent in *.
    destruct (PyDict.get oid_eqb (rows b) (oid_parent (name c))); [ | discriminate].
    rewrite IH by assumption. simpl. now rewrite <- app_assoc.
Qed.

Lemma attach_root_full (root : oid) (objs : list symObj) :
  forall p,
  attach_root root objs p
  = (fst p ++ map (registerSubtrees AtRoot) objs,
     fold_left put (map (fun o => (name o, root)) objs) (snd p)).
Proof.
  induction objs as [|o objs IH]; simpl; intros p.
  - rewrite app_nil_r. now destruct p.
  - rewrite IH. simpl. now rewrite <- app_assoc.
Qed.

Lemma attach_full :
  no_orphans b = true -> attach bld b = (None, (full_attach b, recorded bld b)).
Proof.
  unfold no_orphans, attach, full_attach, recorded. intros H.
  apply andb_true_iff in H. destruct H as [Hi Hc].
  rewrite attach_instances_full by assumption.
  rewrite attach_columns_full by assumption.
  rewrite !attach_root_full. simpl.
  rewrite !map_app, !fold_left_app, <- !app_assoc. reflexivity.
Qed.
End Attach.

Lemma not_no_orphans (b : buckets) : no_orphans b = false -> has_orphan b.
Proof.
  assert (Hfind : forall (f : symObj -> bool) (l : list symObj),
            forallb (fun x => negb (f x)) l = false ->
            exists x, In x l /\ f x = true).
  { intros f l. induction l as [|x l IH]; simpl; [discriminate | ].
    destruct (f x) eqn:Hx; simpl.
    - intros _. exists x. auto.
    - intros H. destruct (IH H) as (y & Hy & Hfy). exists y. auto. }
  unfold no_orphans, has_orphan. intros H.
  apply andb_false_iff in H. destruct H as [H | H]; apply Hfind in H; auto.
Qed.

(** C8.  With the build version of the module loader equal to the cached
    [lastBuildId], indexing returns at once: no subtree is registered
    or unregistered and the controller is left as it was.  With a
    different version it unregisters every association of
    [lastBuildSyms] and runs the reattach pass.  When no collected
    object is an orphan the pass registers every collected object once
    and the new associations and the new build version are stored, so
    that indexing again does nothing; when there is an orphan the pass
    stops with an [SmiError] and neither is stored. *)
Theorem index_by_build_version (bld : mibBuilder) (self : controller) :
  (lastBuildId self = builder_lastBuildId bld ->
   indexMib bld self = (Returned, [], self))
  /\ (lastBuildId self <> builder_lastBuildId bld ->
      let rebuilt := mkController (builder_lastBuildId bld)
                                  (recorded bld (collect bld)) in
      exists o ops ctl,
        indexMib bld self
        = (o, detach (collect bld) (lastBuildSyms self) ++ ops, ctl)
        /\ ((no_orphans (collect bld) = true
             /\ o = Returned /\ ops = full_attach (collect bld) /\ ctl = rebuilt
             /\ indexMib bld rebuilt = (Returned, [], rebuilt))
            \/ (no_orphans (collect bld) = false
                /\ (exists e, o = Raised e /\ is_SmiError e = true)
                /\ ctl = self))).
Proof.
  split.
  - intros H. unfold indexMib. apply Z.eqb_eq in H. now rewrite H.
  - intros H rebuilt. unfold indexMib. apply Z.eqb_neq in H. rewrite H.
    destruct (no_orphans (collect bld)) eqn:Hno.
    + rewrite attach_full by assumption.
      exists Returned, (full_attach (collect bld)), rebuilt.
      split; [reflexivity | left]. simpl. rewrite Z.eqb_refl. auto.
    + destruct (attach_orphan bld (not_no_orphans _ Hno))
        as (e & [ops syms] & -> & He).
      exists (Raised e), ops, self.
      split; [reflexivity | right]. eauto.
Qed.

(** C8, as first stated, fails where the module set has an orphan: the
    build versions differ, but the pass registers nothing and the new
    build version is not stored. *)
Lemma rebuild_with_orphan_stores_nothing :
  lastBuildId init <> builder_lastBuildId Samples.orphaned
  /\ indexMib Samples.orphaned init
     = (Raised (SmiError "Orphan MIB scalar instance"), [], init)
  /\ full_attach (collect Samples.orphaned) <> []
  /\ lastBuildId (snd (indexMib Samples.orphaned init))
     <> builder_lastBuildId Samples.orphaned.
Proof.
  repeat split; try reflexivity; simpl; try lia; discriminate.
Qed.

(** The exceptions [__indexMib] raises. *)
Lemma indexMib_raises bld self e ops ctl :
  indexMib bld self = (Raised e, ops, ctl) ->
  e = SmiError "Orphan MIB scalar instance" \/ e = SmiError "Orphan MIB table column".
Proof.
  unfold indexMib. destruct (Z.eqb _ _); [discriminate | ].
  unfold attach.
  destruct (attach_instances (collect bld) _ _) as [[e1 | ] p1] eqn:E1.
  - apply attach_instances_error in E1. subst e1.
    destruct p1. intros [= <- _ _]. now left.
  - destruct (attach_columns (collect bld) _ p1) as [[e2 | ] p2] eqn:E2.
    + destruct p2. intros [= <- _ _]. right.
      clear E1. revert p1 E2.
      induction (PyDict.values (cols (collect bld))) as [|c cs IH]; simpl;
        intros p1 E2; [discriminate | ].
      destruct (PyDict.get oid_eqb (rows (collect bld)) (oid_parent (name c)));
        [now apply IH in E2 | congruence].
    + destruct (attach_root _ _ _). discriminate.
Qed.

End IndexerFacts.

(* ------------------------------------------------------------------ *)
(** ** The dispatch engine: the shared list of bindings *)

Module BatchFacts.
Import Indexer Engine.

Lemma set_nth_length (A : Type) (i : nat) (x : A) (l : list A) :
  length (set_nth i x l) = length l.
Proof.
  unfold set_nth. revert l.
  induction i as [|i IH]; intros [|y l]; simpl; try rewrite IH; auto.
Qed.

Lemma nth_error_set_nth (A : Type) (i j : nat) (x : A) (l : list A) :
  i < length l ->
  nth_error (set_nth i x l) j = if Nat.eqb i j then Some x else nth_error l j.
Proof.
  unfold set_nth. revert l j.
  induction i as [|i IH]; intros [|y l] j H; simpl in *; try lia.
  - destruct j; reflexivity.
  - destruct j; simpl; [reflexivity | ]. apply IH. lia.
Qed.

Lemma latest_snoc (i : nat) (l : list entry) (e : entry) :
  forall d,
  latest i (l ++ [e]) d
  = match e with
    | Stored j vb => if Nat.eqb j i then Some vb else latest i l d
    | _ => latest i l d
    end.
Proof.
  induction l as [|x l IH]; intros d; simpl.
  - destruct e; reflexivity.
  - destruct x; apply IH.
Qed.

Lemma snoc_split (l : list entry) (e : entry) before batch after :
  l ++ [e] = before ++ Delivered batch :: after ->
  (after = [] /\ e = Delivered batch /\ l = before)
  \/ (exists after', after = after' ++ [e]
                     /\ l = before ++ Delivered batch :: after').
Proof.
  destruct after as [|a after] using rev_ind; intros H.
  - left. apply app_inj_tail in H. destruct H as [-> ->]. auto.
  - right. exists after. clear IHafter.
    change (before ++ Delivered batch :: after ++ [a])
      with (before ++ (Delivered batch :: after) ++ [a]) in H.
    rewrite app_assoc in H. apply app_inj_tail in H.
    destruct H as [-> ->]. auto.
Qed.

Section Invariant.
Variable tree : mibTree.
Variable mibBuilder : Indexer.mibBuilder.
Variable raise_tuple : exc -> exc.
Variable fsmTable : fsm.
Variable varBinds : list var_bind.
Variable cb : continuation.

Local Abbreviation consistent := (consistent varBinds).

Lemma consistent_note (e : entry) (w : world) :
  is_delivery e = false -> (forall i vb, e <> Stored i vb) ->
  consistent w -> consistent (note e w).
Proof.
  intros Hd Hs (Hlen & Hnth & Hdel). split; [ | split]; simpl; auto.
  - intros i Hi. rewrite latest_snoc, Hnth by assumption.
    destruct e; try reflexivity. now destruct (Hs idx varBind).
  - intros before batch after H.
    apply snoc_split in H. destruct H as [(_ & -> & _) | (after' & _ & H)].
    + discriminate.
    + exact (Hdel _ _ _ H).
Qed.

Lemma consistent_deliver (w : world) :
  consistent w -> consistent (note (Delivered (_varBinds w)) w).
Proof.
  intros (Hlen & Hnth & Hdel). split; [ | split]; simpl; auto.
  - intros i Hi. rewrite latest_snoc. now apply Hnth.
  - intros before batch after H. apply snoc_split in H.
    destruct H as [(_ & [= <-] & <-) | (after' & _ & H)]; [now split | ].
    exact (Hdel _ _ _ H).
Qed.

Lemma consistent_store (idx : nat) (vb : var_bind) (w : world) :
  idx < length (_varBinds w) ->
  consistent w -> consistent (store idx vb w).
Proof.
  intros Hidx (Hlen & Hnth & Hdel). split; [ | split]; simpl.
  - now rewrite set_nth_length.
  - intros i Hi. rewrite latest_snoc, nth_error_set_nth by assumption.
    destruct (Nat.eqb idx i); [reflexivity | now apply Hnth].
  - intros before batch after H. apply snoc_split in H.
    destruct H as [(_ & [=] & _) | (after' & _ & H)]. exact (Hdel _ _ _ H).
Qed.

Lemma consistent_counts (w : world) (c : list nat) :
  consistent w -> consistent (mkWorld (self w) (_varBinds w) c (log w)).
Proof. intros H. exact H. Qed.

Lemma consistent_fresh (ctl : controller) (c : list nat) (ops : list treeop) :
  consistent (mkWorld ctl varBinds c (map Tree ops)).
Proof.
  assert (Hlatest : forall i d, latest i (map Tree ops) d = d).
  { intros i. induction ops; simpl; auto. }
  split; [ | split]; simpl; auto.
  intros before batch after H. exfalso.
  assert (Hin : In (Delivered batch) (map Tree ops)).
  { rewrite H. apply in_or_app. right. now left. }
  apply in_map_iff in Hin. destruct Hin as (x & Hx & _). discriminate.
Qed.

Local Abbreviation keeps := (keeps varBinds).

Lemma cbFun_consistent rec round vb context w :
  keeps rec -> engine_context context -> consistent w ->
  consistent (snd (_cbFun raise_tuple varBinds rec round vb context w)).
Proof.
  intros Hrec Hctx Hw. unfold _cbFun.
  destruct (ctx_varBinds context) eqn:Hvb; simpl; [ | assumption].
  destruct vb as [[name value] | ]; [ | assumption].
  destruct (watch raise_tuple value) as [e | value']; [assumption | ].
  destruct (ctx_idx context) as [idx | ]; [ | assumption].
  destruct (length (_varBinds w) <=? idx) eqn:Hidx; [assumption | ].
  apply Nat.leb_gt in Hidx.
  assert (Hw' : consistent (bump round (store idx (name, value') w))).
  { apply (consistent_counts (w:=store idx (name, value') w)).
    now apply consistent_store. }
  destruct (count round _ <? length varBinds); [assumption | ].
  apply Hrec; [intros _; simpl; now apply Hctx | exact Hvb | exact Hw'].
Qed.

Lemma dispatch_consistent rec round context state status rest :
  keeps rec -> engine_context context ->
  forall idx w,
    consistent w ->
    consistent (snd (dispatch tree raise_tuple varBinds rec round context
                              state status idx rest w)).
Proof.
  intros Hrec Hctx.
  induction rest as [|varBind rest IH]; intros idx w Hw; simpl; [assumption | ].
  set (a := method tree (calls w) state idx varBind status).
  assert (Hw1 : consistent (note (Called round state idx varBind a) w)).
  { apply consistent_note; [reflexivity | discriminate | assumption]. }
  assert (Hcalled :
    consistent (snd match a with
                    | Defer => (Returned, note (Called round state idx varBind a) w)
                    | Reply vb =>
                        _cbFun raise_tuple varBinds rec round (Some vb)
                          (mkContext (Some state) (Some status) true (Some idx))
                          (note (Called round state idx varBind a) w)
                    | Raise e => (Raised e, note (Called round state idx varBind a) w)
                    end)).
  { destruct a; try assumption.
    apply cbFun_consistent; auto. intros _. simpl. split; discriminate. }
  destruct (match a with Defer => _ | Reply _ => _ | Raise _ => _ end)
    as [[ | e | ] w2]; simpl in Hcalled.
  - now apply IH.
  - destruct (is_SmiError e); [ | assumption].
    apply cbFun_consistent; auto.
    intros Hvb. simpl in *. split; [now apply Hctx | discriminate].
  - assumption.
Qed.

Lemma enter_consistent context w :
  engine_context context ->
  (ctx_varBinds context = true -> consistent w) ->
  (ctx_varBinds context = false -> log w = []) ->
  consistent (snd (fst (fst (enter mibBuilder varBinds context w)))).
Proof.
  intros Hctx Hfull Htop. unfold enter.
  destruct (ctx_varBinds context) eqn:Hvb.
  - destruct (Hctx Hvb) as [Hs Ht].
    destruct (ctx_state context); [ | congruence].
    destruct (ctx_status context); [ | congruence].
    now apply Hfull.
  - rewrite (Htop eq_refl).
    destruct (indexMib mibBuilder (self w)) as [[o ops] ctl].
    destruct (ctx_state context), (ctx_status context); apply consistent_fresh.
Qed.

Lemma body_consistent rec context w :
  keeps rec -> engine_context context ->
  (ctx_varBinds context = true -> consistent w) ->
  (ctx_varBinds context = false -> log w = []) ->
  consistent (snd (flipFlopFsm_body tree mibBuilder raise_tuple fsmTable
                                    varBinds (Some cb) rec context w)).
Proof.
  intros Hrec Hctx Hfull Htop. unfold flipFlopFsm_body.
  pose proof (@enter_consistent context (new_count w) Hctx) as Henter.
  destruct (enter mibBuilder varBinds context (new_count w))
    as [[[o w1] state] status]. simpl in Henter.
  assert (Hw1 : consistent w1).
  { apply Henter; [ | exact Htop].
    intros H. now apply (consistent_counts (w:=w)), Hfull. }
  destruct o; simpl; try assumption.
  destruct (newState fsmTable state status) as [e | state']; [assumption | ].
  destruct (state_eqb state' STATE_STOP).
  { destruct cb as [ | does]; cbn [deliver]; [assumption | ].
    destruct (does _ _); now apply consistent_deliver. }
  destruct (truthy cb && _).
  { now apply cbFun_consistent. }
  destruct (negb (has_method tree state')); [assumption | ].
  now apply dispatch_consistent.
Qed.

Lemma flipFlopFsm_keeps (fuel : nat) :
  keeps (flipFlopFsm tree mibBuilder raise_tuple fsmTable varBinds (Some cb) fuel).
Proof.
  induction fuel as [|fuel IH]; intros context w Hctx Hvb Hw; simpl.
  - assumption.
  - apply body_consistent; auto. congruence.
Qed.

Lemma completions_consistent (fuel : nat) (evs : list (event)) :
  forall w, consistent w ->
  consistent (completions tree mibBuilder raise_tuple fsmTable varBinds
                          (Some cb) fuel evs w).
Proof.
  induction evs as [|ev evs IH]; intros w Hw; simpl; [assumption | ].
  apply IH. destruct ev as [round idx vb state status]. simpl.
  apply cbFun_consistent; auto using flipFlopFsm_keeps.
  intros _. simpl. split; discriminate.
Qed.

Lemma call_consistent (fuel : nat) (w : world) :
  log w = [] ->
  consistent (snd (flipFlopFsm tree mibBuilder raise_tuple fsmTable varBinds
                               (Some cb) (S fuel) no_context w)).
Proof.
  intros Hlog. simpl.
  apply body_consistent; auto using flipFlopFsm_keeps; discriminate.
Qed.
End Invariant.


End BatchFacts.

(* ------------------------------------------------------------------ *)
(** ** The completion callback *)

Module CallbackFacts.
Import Indexer Engine.

Lemma placeholder_watch raise_tuple (e : exc) (p : val) :
  placeholder e = Some p ->
  watch raise_tuple (ExcInfo e) = inr p /\ watch raise_tuple p = inr p.
Proof.
  unfold placeholder, watch.
  destruct (is_NoSuchObjectError e); [intros [= <-]; auto | ].
  destruct (is_NoSuchInstanceError e); [discriminate | ].
  destruct (is_EndOfMibViewError e); [intros [= <-]; auto | discriminate].
Qed.

End CallbackFacts.

(* ------------------------------------------------------------------ *)
(** ** The dispatch engine: exceptions of the phase methods *)

Module RaiseFacts.
Import Indexer Engine.

Lemma tame_app (l1 l2 : list entry) : tame l1 -> tame l2 -> tame (l1 ++ l2).
Proof. unfold tame. intros H1 H2. now rewrite forallb_app, H1, H2. Qed.

Lemma tame_escapes (o : outcome) (l : list entry) : tame l -> escapes o l.
Proof.
  unfold tame. rewrite forallb_forall. intros H r s i vb e Hin He.
  apply H in Hin. simpl in Hin. rewrite He in Hin. discriminate.
Qed.

Lemma escapes_app (o : outcome) (l1 l2 : list entry) :
  tame l1 -> escapes o l2 -> escapes o (l1 ++ l2).
Proof.
  intros Ht H r s i vb e Hin He. apply in_app_or in Hin.
  destruct Hin as [Hin | Hin].
  - unfold tame in Ht. rewrite forallb_forall in Ht. apply Ht in Hin.
    simpl in Hin. rewrite He in Hin. discriminate.
  - destruct (H _ _ _ _ _ Hin He) as (Ho & l0 & ->). split; [exact Ho | ].
    exists (l1 ++ l0). now rewrite app_assoc.
Qed.

(** A call that did not end with an exception other than [SmiError]
    logged no such exception of a phase method. *)
Lemma escapes_tame (o : outcome) (l : list entry) :
  (forall e, o = Raised e -> is_SmiError e = true) -> escapes o l -> tame l.
Proof.
  intros Ho H. unfold tame. apply forallb_forall. intros x Hx.
  destruct x as [r s i vb [ | | e] | | | ]; try reflexivity. simpl.
  destruct (is_SmiError e) eqn:He; [reflexivity | ].
  destruct (H _ _ _ _ _ Hx He) as (Hr & _).
  rewrite (Ho e Hr) in He. discriminate.
Qed.

Lemma quiet_app (l1 l2 : list entry) : quiet l1 -> quiet l2 -> quiet (l1 ++ l2).
Proof.
  unfold quiet. intros H1 H2. now rewrite forallb_app, H1, H2.
Qed.

Lemma quiet_no_delivery (l : list entry) :
  quiet l -> forallb (fun x => negb (is_delivery x)) l = true.
Proof.
  unfold quiet. rewrite !forallb_forall. intros H x Hx.
  apply H in Hx. now apply andb_true_iff in Hx.
Qed.

Lemma quiet_propagates mine (o : outcome) (l : list entry) :
  quiet l -> propagates mine o l.
Proof.
  unfold quiet. rewrite forallb_forall. intros H. split.
  - intros r s i vb e Hin He. apply H in Hin. simpl in Hin.
    rewrite He in Hin. discriminate.
  - intros Hex. apply existsb_exists in Hex. destruct Hex as (x & Hx & Hd).
    apply H in Hx. rewrite Hd in Hx. discriminate.
Qed.

Lemma propagates_app mine (o : outcome) (l1 l2 : list entry) :
  quiet l1 -> propagates mine o l2 -> propagates mine o (l1 ++ l2).
Proof.
  intros Hq [Hraise Hdel]. pose proof Hq as Hq'.
  unfold quiet in Hq'. rewrite forallb_forall in Hq'. split.
  - intros r s i vb e Hin He. apply in_app_or in Hin. destruct Hin as [Hin | Hin].
    + apply Hq' in Hin. simpl in Hin. rewrite He in Hin. discriminate.
    + destruct (Hraise _ _ _ _ _ Hin He) as (Ho & (l0 & Hl0) & Hnd).
      split; [assumption | split].
      * exists (l1 ++ l0). now rewrite Hl0, app_assoc.
      * rewrite forallb_app, Hnd, (quiet_no_delivery Hq). reflexivity.
  - rewrite existsb_app. intros H. apply orb_true_iff in H.
    destruct H as [H | H]; [ | now apply Hdel].
    apply existsb_exists in H. destruct H as (x & Hx & Hd).
    apply Hq' in Hx. rewrite Hd in Hx. discriminate.
Qed.

Lemma propagates_cons mine (o : outcome) (x : entry) (l : list entry) :
  is_delivery x = false -> uncaught x = false ->
  propagates mine o l -> propagates mine o (x :: l).
Proof.
  intros Hd Hu H. apply (@propagates_app mine o [x] l); [ | assumption].
  unfold quiet. simpl. now rewrite Hd, Hu.
Qed.

(** With a continuation that raises no [SmiError], a call that raised
    an [SmiError] logged neither a delivery nor an exception of another
    kind. *)
Lemma raised_quiet (mine : exc -> Prop) (e : exc) (l : list entry) :
  (forall x, mine x -> is_SmiError x = false) ->
  is_SmiError e = true -> propagates mine (Raised e) l -> quiet l.
Proof.
  intros Hdiscreet He [Hraise Hdel]. unfold quiet. apply forallb_forall.
  intros x Hx. apply andb_true_iff. split.
  - destruct (is_delivery x) eqn:Hd; [ | reflexivity].
    assert (H : existsb is_delivery l = true).
    { apply existsb_exists. now exists x. }
    apply Hdel in H. destruct H as [H | (e' & [= <-] & H)]; [discriminate | ].
    apply Hdiscreet in H. congruence.
  - destruct x as [r s i vb [ | | x] | | | ]; try reflexivity. simpl.
    destruct (is_SmiError x) eqn:Hx'; [reflexivity | ].
    destruct (Hraise _ _ _ _ _ Hx Hx') as ([= ->] & _). congruence.
Qed.

Lemma nth_set_nth (i x : nat) (l : list nat) :
  nth i (set_nth i x l) 0 = x \/ nth i (set_nth i x l) 0 = nth i l 0.
Proof.
  unfold set_nth. revert l.
  induction i as [|i IH]; intros [|y l]; simpl; auto; destruct i; auto.
Qed.

Lemma count_bump (round : nat) (w : world) :
  count round (bump round w) <= S (count round w).
Proof.
  pose proof (nth_set_nth round (S (nth round (counts w) 0)) (counts w)) as H.
  unfold bump, count. cbn [counts]. unfold count. lia.
Qed.

Lemma count_bump_exact (round : nat) (w : world) :
  round < length (counts w) -> count round (bump round w) = S (count round w).
Proof.
  intros H. unfold bump, count at 1. cbn [counts].
  generalize (S (count round w)). intros x.
  unfold set_nth. revert round H.
  induction (counts w) as [|y l IH]; intros round H; destruct round;
    simpl in *; try lia; try reflexivity.
  apply IH. lia.
Qed.

Lemma tame_tree (ops : list treeop) : tame (map Tree ops).
Proof. unfold tame. induction ops; simpl; auto. Qed.

Lemma quiet_tree (ops : list treeop) : quiet (map Tree ops).
Proof. unfold quiet. induction ops; simpl; auto. Qed.

(** What [deliver] logs. *)
Lemma deliver_log (cb : continuation) (w : world) :
  (deliver cb w = (Returned, w) /\ cb = Falsy)
  \/ exists does,
       cb = Callable does
       /\ snd (deliver cb w) = note (Delivered (_varBinds w)) w
       /\ (fst (deliver cb w) = Returned
           \/ exists e, fst (deliver cb w) = Raised e
                        /\ does (handed w) (_varBinds w) = Some e).
Proof.
  destruct cb as [ | does]; [now left | right]. exists does. cbn [deliver].
  destruct (does (handed w) (_varBinds w)) as [e | ]; cbn [fst snd].
  - split; [reflexivity | split; [reflexivity | right]]. now exists e.
  - split; [reflexivity | split; [reflexivity | now left]].
Qed.

(** The completion made on behalf of a phase method that raised an
    exception for which there is no marker raises, and stores nothing;
    where [raise value] with a tuple raises no [SmiError], it raises
    none. *)
Lemma cbFun_fatal raise_tuple varBinds rec round name e context w :
  (forall x, is_SmiError (raise_tuple x) = false) ->
  is_Exception e = true -> placeholder e = None ->
  exists x,
    _cbFun raise_tuple varBinds rec round (Some (name, ExcInfo e)) context w
    = (Raised x, w)
    /\ is_SmiError x = false.
Proof.
  intros Hraise_tuple Hexc Hp. unfold _cbFun.
  destruct (ctx_varBinds context); cbn [negb]; [ | now eexists].
  unfold watch. unfold placeholder in Hp.
  destruct (is_NoSuchObjectError e); [discriminate | ].
  destruct (is_NoSuchInstanceError e); [now eexists | ].
  destruct (is_EndOfMibViewError e); [discriminate | ].
  rewrite Hexc. eexists. split; [reflexivity | apply Hraise_tuple].
Qed.

(** On such an interpreter, no exception that [_cbFun] raises on a value
    is an [SmiError]. *)
Lemma watch_no_SmiError raise_tuple (value : val) (e : exc) :
  (forall x, is_SmiError (raise_tuple x) = false) ->
  watch raise_tuple value = inl e -> is_SmiError e = false.
Proof.
  intros Hraise_tuple. destruct value as [ | v | x | len | | | ]; cbn;
    try discriminate.
  - destruct (is_NoSuchObjectError x); [discriminate | ].
    destruct (is_NoSuchInstanceError x); [now intros [= <-] | ].
    destruct (is_EndOfMibViewError x); [discriminate | ].
    destruct (is_Exception x); [ | discriminate].
    intros [= <-]. apply Hraise_tuple.
  - destruct (Nat.eqb len 3); [discriminate | now intros [= <-]].
Qed.

Section Propagation.
Variable tree : mibTree.
Variable mibBuilder : Indexer.mibBuilder.
Variable raise_tuple : exc -> exc.
Variable fsmTable : fsm.
Variable varBinds : list var_bind.
Variable cbFun : option continuation.

(** The three ways [_cbFun] ends: it raises before the assignment; it
    stores the binding and waits for more; it stores the binding and
    starts the next round. *)
Lemma cbFun_cases rec round vb context w :
  (exists e, _cbFun raise_tuple varBinds rec round vb context w = (Raised e, w))
  \/ (exists idx v,
        let w1 := bump round (store idx v w) in
        _cbFun raise_tuple varBinds rec round vb context w
        = if count round w1 <? length varBinds then (Returned, w1)
          else rec (next_context context) w1).
Proof.
  unfold _cbFun.
  destruct (ctx_varBinds context); simpl; [ | eauto].
  destruct vb as [[name value] | ]; [ | eauto].
  destruct (watch raise_tuple value) as [e | value']; [eauto | ].
  destruct (ctx_idx context) as [idx | ]; [ | eauto].
  destruct (length (_varBinds w) <=? idx); [eauto | ].
  right. exists idx, (name, value'). reflexivity.
Qed.

Lemma enter_log context w :
  exists ops,
    log (snd (fst (fst (enter mibBuilder varBinds context w))))
    = log w ++ map Tree ops
    /\ counts (snd (fst (fst (enter mibBuilder varBinds context w)))) = counts w.
Proof.
  unfold enter.
  destruct (indexMib mibBuilder (self w)) as [[o ops] ctl].
  destruct (ctx_state context), (ctx_status context), (ctx_varBinds context);
    simpl; try (exists ops; now split).
  exists []. simpl. now rewrite app_nil_r.
Qed.

(** *** Whatever the continuation does *)

Lemma cbFun_direct rec round vb context w :
  direct rec ->
  exists l,
    log (snd (_cbFun raise_tuple varBinds rec round vb context w)) = log w ++ l
    /\ escapes (fst (_cbFun raise_tuple varBinds rec round vb context w)) l.
Proof.
  intros Hrec.
  destruct (cbFun_cases rec round vb context w) as [[e ->] | (idx & v & ->)].
  - exists []. simpl. rewrite app_nil_r. split; [reflexivity | ].
    now apply tame_escapes.
  - destruct (count round _ <? length varBinds).
    + exists [Stored idx v]. simpl. split; [reflexivity | ].
      now apply tame_escapes.
    + destruct (Hrec (next_context context) (bump round (store idx v w)))
        as (l & Hl & Hp).
      exists (Stored idx v :: l). rewrite Hl. simpl. rewrite <- app_assoc.
      split; [reflexivity | ]. now apply (@escapes_app _ [Stored idx v] l).
Qed.

Lemma dispatch_direct rec round context state status rest :
  direct rec ->
  forall idx w,
    count round w + length rest <= length varBinds ->
    exists l,
      log (snd (dispatch tree raise_tuple varBinds rec round context
                         state status idx rest w)) = log w ++ l
      /\ escapes (fst (dispatch tree raise_tuple varBinds rec round context
                                state status idx rest w)) l.
Proof.
  intros Hrec.
  induction rest as [|varBind rest IH]; intros idx w Hcount; simpl.
  - exists []. rewrite app_nil_r. split; [reflexivity | ].
    now apply tame_escapes.
  - set (a := method tree (calls w) state idx varBind status).
    set (w1 := note (Called round state idx varBind a) w).
    set (failed := fun e w' =>
           _cbFun raise_tuple varBinds rec round (Some (fst varBind, ExcInfo e))
                  (mkContext (ctx_state context) (Some STATUS_ERROR)
                             (ctx_varBinds context) (Some idx)) w').
    assert (Hfailed : forall e w' l',
              log w' = log w ++ l' -> tame l' ->
              exists l, log (snd (failed e w')) = log w ++ l
                        /\ escapes (fst (failed e w')) l).
    { intros e w' l' Hl' Hq.
      destruct (@cbFun_direct rec round (Some (fst varBind, ExcInfo e))
                  (mkContext (ctx_state context) (Some STATUS_ERROR)
                             (ctx_varBinds context) (Some idx)) w' Hrec)
        as (l2 & Hl2 & Hp2).
      exists (l' ++ l2). unfold failed. rewrite Hl2, Hl', <- app_assoc.
      split; [reflexivity | now apply escapes_app]. }
    simpl in Hcount.
    destruct a as [ | vb | e] eqn:Ea.
    + (* Defer *)
      destruct (IH (S idx) w1) as (l & Hl & Hp);
        [change (count round w1) with (count round w); lia | ].
      exists (Called round state idx varBind Defer :: l).
      rewrite Hl. simpl. rewrite <- app_assoc.
      split; [reflexivity | ].
      now apply (@escapes_app _ [Called round state idx varBind Defer] l).
    + (* Reply *)
      destruct (cbFun_cases rec round (Some vb)
                  (mkContext (Some state) (Some status) true (Some idx)) w1)
        as [[e ->] | (i0 & v & ->)].
      * destruct (is_SmiError e) eqn:He.
        -- apply (Hfailed e w1 [Called round state idx varBind (Reply vb)]);
             reflexivity.
        -- exists [Called round state idx varBind (Reply vb)].
           split; [reflexivity | ]. now apply tame_escapes.
      * set (w2 := bump round (store i0 v w1)).
        assert (Hw2 : count round w2 <= S (count round w)).
        { apply (count_bump round (store i0 v w1)). }
        assert (Hlog2 : log w2 = log w
                  ++ [Called round state idx varBind (Reply vb); Stored i0 v]).
        { simpl. now rewrite <- app_assoc. }
        destruct (count round w2 <? length varBinds) eqn:Hlt.
        -- apply Nat.ltb_lt in Hlt.
           destruct (IH (S idx) w2) as (l & Hl & Hp); [lia | ].
           exists ([Called round state idx varBind (Reply vb); Stored i0 v] ++ l).
           rewrite Hl, Hlog2, <- app_assoc.
           split; [reflexivity | ]. now apply escapes_app.
        -- apply Nat.ltb_ge in Hlt.
           assert (Hrest : rest = []) by (destruct rest; [reflexivity | simpl in *; lia]).
           subst rest.
           destruct (Hrec (next_context
                             (mkContext (Some state) (Some status) true (Some idx)))
                          w2) as (l3 & Hl3 & Hp3).
           destruct (rec _ w2) as [[ | e | ] w3]; cbn [fst snd] in Hl3, Hp3; cbn [fst snd dispatch].
           ++ exists ([Called round state idx varBind (Reply vb); Stored i0 v] ++ l3).
              rewrite Hl3, Hlog2, <- app_assoc.
              split; [reflexivity | ]. now apply escapes_app.
           ++ destruct (is_SmiError e) eqn:He.
              ** apply (Hfailed e w3
                   ([Called round state idx varBind (Reply vb); Stored i0 v] ++ l3)).
                 { now rewrite Hl3, Hlog2, <- app_assoc. }
                 { apply tame_app; [reflexivity | ].
                   apply (@escapes_tame (Raised e)); [ | assumption].
                   now intros e' [= <-]. }
              ** exists ([Called round state idx varBind (Reply vb); Stored i0 v] ++ l3).
                 cbn [fst snd]. rewrite Hl3, Hlog2, <- app_assoc.
                 split; [reflexivity | ]. now apply escapes_app.
           ++ exists ([Called round state idx varBind (Reply vb); Stored i0 v] ++ l3).
              rewrite Hl3, Hlog2, <- app_assoc.
              split; [reflexivity | ]. now apply escapes_app.
    + (* Raise *)
      destruct (is_SmiError e) eqn:He.
      * apply (Hfailed e w1 [Called round state idx varBind (Raise e)]);
          [reflexivity | ].
        unfold tame. simpl. now rewrite He.
      * exists [Called round state idx varBind (Raise e)].
        split; [reflexivity | ].
        intros r s i vb e0 [[= <- <- <- <- <-] | []] _.
        split; [reflexivity | now exists []].
Qed.

Lemma body_direct rec context w :
  direct rec ->
  exists l,
    log (snd (flipFlopFsm_body tree mibBuilder raise_tuple fsmTable varBinds
                               cbFun rec context w)) = log w ++ l
    /\ escapes (fst (flipFlopFsm_body tree mibBuilder raise_tuple fsmTable
                                      varBinds cbFun rec context w)) l.
Proof.
  intros Hrec. unfold flipFlopFsm_body.
  destruct cbFun as [cb | ].
  2:{ exists []. simpl. rewrite app_nil_r. split; [reflexivity | ].
      now apply tame_escapes. }
  destruct (enter_log context (new_count w)) as (ops & Hlog & Hcounts).
  destruct (enter mibBuilder varBinds context (new_count w))
    as [[[o w1] state] status]. cbn [fst snd] in Hlog, Hcounts.
  change (log (new_count w)) with (log w) in Hlog.
  assert (Hquiet : forall o', exists l,
             log w1 = log w ++ l /\ escapes o' l).
  { intros o'. exists (map Tree ops). split; [assumption | ].
    apply tame_escapes, tame_tree. }
  destruct o; [ | apply Hquiet | apply Hquiet].
  destruct (newState fsmTable state status) as [e | state']; [apply Hquiet | ].
  destruct (state_eqb state' STATE_STOP).
  { destruct (deliver_log cb w1) as [[-> _] | (does & _ & Hw & _)];
      [apply Hquiet | ].
    exists (map Tree ops ++ [Delivered (_varBinds w1)]).
    rewrite Hw. cbn [note log]. rewrite Hlog, <- app_assoc.
    split; [reflexivity | ]. apply tame_escapes, tame_app; [apply tame_tree | ].
    reflexivity. }
  assert (Hlift : forall x : outcome * world,
            (exists l, log (snd x) = log w1 ++ l /\ escapes (fst x) l) ->
            exists l, log (snd x) = log w ++ l /\ escapes (fst x) l).
  { intros x (l & Hl & Hp). exists (map Tree ops ++ l).
    rewrite Hl, Hlog, <- app_assoc. split; [reflexivity | ].
    apply escapes_app; [apply tame_tree | assumption]. }
  destruct (truthy cb && _).
  { apply Hlift. now apply cbFun_direct. }
  destruct (negb (has_method tree state')); [apply Hquiet | ].
  apply Hlift. apply dispatch_direct; [assumption | ].
  unfold count. rewrite Hcounts. simpl. rewrite nth_middle. lia.
Qed.

Lemma flipFlopFsm_direct (fuel : nat) :
  direct (flipFlopFsm tree mibBuilder raise_tuple fsmTable varBinds cbFun fuel).
Proof.
  induction fuel as [|fuel IH]; intros context w; simpl.
  - exists []. rewrite app_nil_r. split; [reflexivity | ].
    now apply tame_escapes.
  - now apply body_direct.
Qed.

(** *** With a continuation that raises no [SmiError] *)

Variable mine : exc -> Prop.
Hypothesis Hmine : forall e, mine e -> is_SmiError e = false.

Local Abbreviation propagates := (propagates mine).
Local Abbreviation sound := (sound mine).

Lemma cbFun_sound rec round vb context w :
  sound rec ->
  exists l,
    log (snd (_cbFun raise_tuple varBinds rec round vb context w)) = log w ++ l
    /\ propagates (fst (_cbFun raise_tuple varBinds rec round vb context w)) l.
Proof.
  intros Hrec.
  destruct (cbFun_cases rec round vb context w) as [[e ->] | (idx & v & ->)].
  - exists []. simpl. rewrite app_nil_r. split; [reflexivity | ].
    now apply quiet_propagates.
  - destruct (count round _ <? length varBinds).
    + exists [Stored idx v]. simpl. split; [reflexivity | ].
      now apply quiet_propagates.
    + destruct (Hrec (next_context context) (bump round (store idx v w)))
        as (l & Hl & Hp).
      exists (Stored idx v :: l). rewrite Hl. simpl. rewrite <- app_assoc.
      split; [reflexivity | ]. now apply propagates_cons.
Qed.

Lemma dispatch_sound rec round context state status rest :
  sound rec ->
  forall idx w,
    count round w + length rest <= length varBinds ->
    exists l,
      log (snd (dispatch tree raise_tuple varBinds rec round context
                         state status idx rest w)) = log w ++ l
      /\ propagates (fst (dispatch tree raise_tuple varBinds rec round context
                                   state status idx rest w)) l.
Proof.
  intros Hrec.
  induction rest as [|varBind rest IH]; intros idx w Hcount; simpl.
  - exists []. rewrite app_nil_r. split; [reflexivity | ].
    now apply quiet_propagates.
  - set (a := method tree (calls w) state idx varBind status).
    set (w1 := note (Called round state idx varBind a) w).
    set (failed := fun e w' =>
           _cbFun raise_tuple varBinds rec round (Some (fst varBind, ExcInfo e))
                  (mkContext (ctx_state context) (Some STATUS_ERROR)
                             (ctx_varBinds context) (Some idx)) w').
    assert (Hfailed : forall e w' l',
              log w' = log w ++ l' -> quiet l' ->
              exists l, log (snd (failed e w')) = log w ++ l
                        /\ propagates (fst (failed e w')) l).
    { intros e w' l' Hl' Hq.
      destruct (@cbFun_sound rec round (Some (fst varBind, ExcInfo e))
                  (mkContext (ctx_state context) (Some STATUS_ERROR)
                             (ctx_varBinds context) (Some idx)) w' Hrec)
        as (l2 & Hl2 & Hp2).
      exists (l' ++ l2). unfold failed. rewrite Hl2, Hl', <- app_assoc.
      split; [reflexivity | now apply propagates_app]. }
    simpl in Hcount.
    destruct a as [ | vb | e] eqn:Ea.
    + (* Defer *)
      destruct (IH (S idx) w1) as (l & Hl & Hp);
        [change (count round w1) with (count round w); lia | ].
      exists (Called round state idx varBind Defer :: l).
      rewrite Hl. simpl. rewrite <- app_assoc.
      split; [reflexivity | now apply propagates_cons].
    + (* Reply *)
      destruct (cbFun_cases rec round (Some vb)
                  (mkContext (Some state) (Some status) true (Some idx)) w1)
        as [[e ->] | (i0 & v & ->)].
      * destruct (is_SmiError e) eqn:He.
        -- apply (Hfailed e w1 [Called round state idx varBind (Reply vb)]);
             reflexivity.
        -- exists [Called round state idx varBind (Reply vb)].
           split; [reflexivity | ]. now apply quiet_propagates.
      * set (w2 := bump round (store i0 v w1)).
        assert (Hw2 : count round w2 <= S (count round w)).
        { apply (count_bump round (store i0 v w1)). }
        assert (Hlog2 : log w2 = log w
                  ++ [Called round state idx varBind (Reply vb); Stored i0 v]).
        { simpl. now rewrite <- app_assoc. }
        destruct (count round w2 <? length varBinds) eqn:Hlt.
        -- apply Nat.ltb_lt in Hlt.
           destruct (IH (S idx) w2) as (l & Hl & Hp); [lia | ].
           exists ([Called round state idx varBind (Reply vb); Stored i0 v] ++ l).
           rewrite Hl, Hlog2, <- app_assoc.
           split; [reflexivity | ]. now apply propagates_app.
        -- apply Nat.ltb_ge in Hlt.
           assert (Hrest : rest = []) by (destruct rest; [reflexivity | simpl in *; lia]).
           subst rest.
           destruct (Hrec (next_context
                             (mkContext (Some state) (Some status) true (Some idx)))
                          w2) as (l3 & Hl3 & Hp3).
           destruct (rec _ w2) as [[ | e | ] w3]; cbn [fst snd] in Hl3, Hp3; cbn [fst snd dispatch].
           ++ exists ([Called round state idx varBind (Reply vb); Stored i0 v] ++ l3).
              rewrite Hl3, Hlog2, <- app_assoc.
              split; [reflexivity | ]. now apply propagates_app.
           ++ destruct (is_SmiError e) eqn:He.
              ** apply (Hfailed e w3
                   ([Called round state idx varBind (Reply vb); Stored i0 v] ++ l3)).
                 { now rewrite Hl3, Hlog2, <- app_assoc. }
                 { apply quiet_app; [reflexivity | ].
                   now apply (raised_quiet Hmine He). }
              ** exists ([Called round state idx varBind (Reply vb); Stored i0 v] ++ l3).
                 cbn [fst snd]. rewrite Hl3, Hlog2, <- app_assoc.
                 split; [reflexivity | ]. now apply propagates_app.
           ++ exists ([Called round state idx varBind (Reply vb); Stored i0 v] ++ l3).
              rewrite Hl3, Hlog2, <- app_assoc.
              split; [reflexivity | ]. now apply propagates_app.
    + (* Raise *)
      destruct (is_SmiError e) eqn:He.
      * apply (Hfailed e w1 [Called round state idx varBind (Raise e)]);
          [reflexivity | ].
        unfold quiet. simpl. now rewrite He.
      * exists [Called round state idx varBind (Raise e)].
        split; [reflexivity | ]. split.
        -- intros r s i vb e0 [[= <- <- <- <- <-] | []] _.
           split; [reflexivity | split; [now exists [] | reflexivity]].
        -- discriminate.
Qed.

Lemma body_sound rec context w :
  (forall e, raised_by cbFun e -> mine e) ->
  sound rec ->
  exists l,
    log (snd (flipFlopFsm_body tree mibBuilder raise_tuple fsmTable varBinds
                               cbFun rec context w)) = log w ++ l
    /\ propagates (fst (flipFlopFsm_body tree mibBuilder raise_tuple fsmTable
                                         varBinds cbFun rec context w)) l.
Proof.
  intros Hcb Hrec. unfold flipFlopFsm_body.
  destruct cbFun as [cb | ].
  2:{ exists []. simpl. rewrite app_nil_r. split; [reflexivity | ].
      now apply quiet_propagates. }
  destruct (enter_log context (new_count w)) as (ops & Hlog & Hcounts).
  destruct (enter mibBuilder varBinds context (new_count w))
    as [[[o w1] state] status]. cbn [fst snd] in Hlog, Hcounts.
  change (log (new_count w)) with (log w) in Hlog.
  assert (Hquiet : forall o', exists l,
             log w1 = log w ++ l /\ propagates o' l).
  { intros o'. exists (map Tree ops). split; [assumption | ].
    apply quiet_propagates, quiet_tree. }
  destruct o; [ | apply Hquiet | apply Hquiet].
  destruct (newState fsmTable state status) as [e | state']; [apply Hquiet | ].
  destruct (state_eqb state' STATE_STOP).
  { destruct (deliver_log cb w1) as [[-> _] | (does & -> & Hw & Ho)];
      [apply Hquiet | ].
    exists (map Tree ops ++ [Delivered (_varBinds w1)]).
    rewrite Hw. cbn [note log]. rewrite Hlog, <- app_assoc.
    split; [reflexivity | ].
    apply propagates_app; [apply quiet_tree | ].
    split.
    - intros r s i vb e [H | []]. discriminate.
    - intros _. destruct Ho as [-> | (e & -> & He)]; [now left | right].
      exists e. split; [reflexivity | ]. apply Hcb.
      now exists does, (handed w1), (_varBinds w1). }
  assert (Hlift : forall x : outcome * world,
            (exists l, log (snd x) = log w1 ++ l
                       /\ propagates (fst x) l) ->
            exists l, log (snd x) = log w ++ l
                      /\ propagates (fst x) l).
  { intros x (l & Hl & Hp). exists (map Tree ops ++ l).
    rewrite Hl, Hlog, <- app_assoc. split; [reflexivity | ].
    apply propagates_app; [apply quiet_tree | assumption]. }
  destruct (truthy cb && _).
  { apply Hlift. now apply cbFun_sound. }
  destruct (negb (has_method tree state')); [apply Hquiet | ].
  apply Hlift. apply dispatch_sound; [assumption | ].
  unfold count. rewrite Hcounts. simpl. rewrite nth_middle. lia.
Qed.

Lemma flipFlopFsm_sound (fuel : nat) :
  (forall e, raised_by cbFun e -> mine e) ->
  sound (flipFlopFsm tree mibBuilder raise_tuple fsmTable varBinds cbFun fuel).
Proof.
  intros Hcb.
  induction fuel as [|fuel IH]; intros context w; simpl.
  - exists []. rewrite app_nil_r. split; [reflexivity | ].
    now apply quiet_propagates.
  - now apply body_sound.
Qed.
End Propagation.

(** C10.  The dispatch loop treats an exception raised by a phase method
    according to [except error.SmiError] alone: an [SmiError] is handed
    to the completion callback of the round under status ERROR, any
    other exception leaves the loop as it is.  Such an exception is the
    outcome of [readVars], [readNextVars] or [writeVars], whatever the
    continuation does: the call of the phase method is the last thing
    that happened, so that the continuation is not invoked on its
    account; and when the continuation is one that raises no [SmiError],
    no batch was delivered to it in that call at all. *)
Theorem only_SmiError_is_caught
    tree bld raise_tuple (varBinds : list var_bind)
    (cbFun : option continuation) :
  (forall rec round context state status idx varBind rest w e,
      method tree (calls w) state idx varBind status = Raise e ->
      dispatch tree raise_tuple varBinds rec round context state status idx
               (varBind :: rest) w
      = let w' := note (Called round state idx varBind (Raise e)) w in
        if is_SmiError e then
          _cbFun raise_tuple varBinds rec round (Some (fst varBind, ExcInfo e))
                 (mkContext (ctx_state context) (Some STATUS_ERROR)
                            (ctx_varBinds context) (Some idx)) w'
        else (Raised e, w'))
  /\ (forall call fuel w l round state idx varBind e,
        In call entry_points ->
        log (snd (call tree bld raise_tuple varBinds cbFun fuel w)) = log w ++ l ->
        In (Called round state idx varBind (Raise e)) l ->
        is_SmiError e = false ->
        fst (call tree bld raise_tuple varBinds cbFun fuel w) = Raised e
        /\ (exists l0, l = l0 ++ [Called round state idx varBind (Raise e)])
        /\ (discreet cbFun ->
            forallb (fun x => negb (is_delivery x)) l = true)).
Proof.
  split.
  - intros rec round context state status idx varBind rest w e H.
    cbn [dispatch]. rewrite H. destruct (is_SmiError e); reflexivity.
  - intros call fuel w l round state idx varBind e Hcall Hlog Hin He.
    assert (Hsound : exists fsmTable,
              call tree bld raise_tuple varBinds cbFun fuel w
              = flipFlopFsm tree bld raise_tuple fsmTable varBinds cbFun fuel
                            no_context w).
    { destruct Hcall as [<- | [<- | [<- | []]]]; eexists; reflexivity. }
    destruct Hsound as [fsmTable Hsound]. rewrite Hsound in *.
    destruct (@flipFlopFsm_direct tree bld raise_tuple fsmTable varBinds cbFun
                fuel no_context w) as (l' & Hl' & Hraise).
    rewrite Hlog in Hl'. apply app_inv_head in Hl'. subst l'.
    destruct (Hraise _ _ _ _ _ Hin He) as (Ho & Hlast).
    split; [exact Ho | split; [exact Hlast | ]].
    intros Hdiscreet.
    destruct (@flipFlopFsm_sound tree bld raise_tuple fsmTable varBinds cbFun
                (raised_by cbFun) Hdiscreet fuel (fun e H => H) no_context w)
      as (l' & Hl' & Hraise' & _).
    rewrite Hlog in Hl'. apply app_inv_head in Hl'. subst l'.
    now destruct (Hraise' _ _ _ _ _ Hin He) as (_ & _ & Hnone).
Qed.

End RaiseFacts.

(* ------------------------------------------------------------------ *)
(** ** The dispatch engine: how often the continuation is invoked *)

Module ContinuationFacts.
Import Indexer Engine.

Lemma deliveries_app (l1 l2 : list entry) :
  deliveries (l1 ++ l2) = deliveries l1 ++ deliveries l2.
Proof. apply flat_map_app. Qed.

Lemma no_delivery (l : list entry) :
  forallb (fun x => negb (is_delivery x)) l = true -> deliveries l = [].
Proof.
  induction l as [|x l IH]; simpl; [reflexivity | ].
  intros H. apply andb_true_iff in H. destruct H as [Hx Hl].
  rewrite (IH Hl). now destruct x.
Qed.

Lemma quiet_deliveries (l : list entry) : quiet l -> deliveries l = [].
Proof. intros H. now apply no_delivery, RaiseFacts.quiet_no_delivery. Qed.

Lemma not_returned_deliveries mine (o : outcome) (l : list entry) :
  propagates mine o l -> o <> Returned ->
  deliveries l = [] \/ exists e, o = Raised e /\ mine e.
Proof.
  intros [_ Hdel] Ho.
  destruct (existsb is_delivery l) eqn:Hex.
  - destruct (Hdel eq_refl) as [H | H]; [contradiction | now right].
  - left. apply no_delivery. apply forallb_forall. intros x Hx.
    destruct (is_delivery x) eqn:Hd; [ | reflexivity].
    assert (H : existsb is_delivery l = true)
      by (apply existsb_exists; now exists x).
    congruence.
Qed.

(** *** At most one delivery *)

Section Once.
Variable tree : mibTree.
Variable mibBuilder : Indexer.mibBuilder.
Variable raise_tuple : exc -> exc.
Variable fsmTable : fsm.
Variable varBinds : list var_bind.
Variable cbFun : option continuation.
Variable mine : exc -> Prop.
Hypothesis Hmine : forall e, mine e -> is_SmiError e = false.

Local Abbreviation n := (length varBinds).

(** What is logged after [w1], seen from [w]. *)
Lemma accounts_prefix (w w1 : world) (l1 : list entry) (r : outcome * world) :
  log w1 = log w ++ l1 -> deliveries l1 = [] ->
  (exists l, log (snd r) = log w1 ++ l /\ length (deliveries l) <= 1) ->
  exists l, log (snd r) = log w ++ l /\ length (deliveries l) <= 1.
Proof.
  intros Hlog Hnone (l & Hl & Hle). exists (l1 ++ l).
  rewrite Hl, Hlog, <- app_assoc, deliveries_app, Hnone. now split.
Qed.

Lemma cbFun_accounts rec round vb context w :
  accounts rec ->
  exists l,
    log (snd (_cbFun raise_tuple varBinds rec round vb context w)) = log w ++ l
    /\ length (deliveries l) <= 1.
Proof.
  intros Hrec.
  destruct (RaiseFacts.cbFun_cases raise_tuple varBinds rec round vb context w)
    as [[e ->] | (idx & v & ->)].
  - exists []. simpl. rewrite app_nil_r. split; [reflexivity | lia].
  - destruct (count round _ <? n).
    + exists [Stored idx v]. simpl. split; [reflexivity | lia].
    + destruct (Hrec (next_context context) (bump round (store idx v w)))
        as (l & Hl & Hle).
      exists (Stored idx v :: l). rewrite Hl. simpl. rewrite <- app_assoc.
      now split.
Qed.

Lemma dispatch_accounts rec round context state status rest :
  sound mine rec -> accounts rec ->
  forall idx w,
    count round w + length rest <= n ->
    exists l,
      log (snd (dispatch tree raise_tuple varBinds rec round context state
                         status idx rest w)) = log w ++ l
      /\ length (deliveries l) <= 1.
Proof.
  intros Hsound Hrec.
  induction rest as [|varBind rest IH]; intros idx w Hcount; simpl.
  - exists []. simpl. rewrite app_nil_r. split; [reflexivity | lia].
  - set (a := method tree (calls w) state idx varBind status).
    set (w1 := note (Called round state idx varBind a) w).
    assert (Hw1 : log w1 = log w ++ [Called round state idx varBind a])
      by reflexivity.
    assert (Hfailed : forall e,
              exists l,
                log (snd (_cbFun raise_tuple varBinds rec round
                            (Some (fst varBind, ExcInfo e))
                            (mkContext (ctx_state context) (Some STATUS_ERROR)
                                       (ctx_varBinds context) (Some idx)) w1))
                = log w ++ l
                /\ length (deliveries l) <= 1).
    { intros e.
      apply accounts_prefix with (w1:=w1) (l1:=[Called round state idx varBind a]);
        [exact Hw1 | now destruct a | ].
      now apply cbFun_accounts. }
    simpl in Hcount.
    destruct a as [ | vb | e] eqn:Ea.
    + apply accounts_prefix with (w1:=w1)
        (l1:=[Called round state idx varBind Defer]);
        [exact Hw1 | reflexivity | ].
      apply IH. change (count round w1) with (count round w). lia.
    + destruct (RaiseFacts.cbFun_cases raise_tuple varBinds rec round (Some vb)
                  (mkContext (Some state) (Some status) true (Some idx)) w1)
        as [[e ->] | (i0 & v & ->)].
      * destruct (is_SmiError e); [apply Hfailed | ].
        exists [Called round state idx varBind (Reply vb)].
        split; [reflexivity | simpl; lia].
      * set (w2 := bump round (store i0 v w1)).
        assert (Hw2 : count round w2 <= S (count round w)).
        { apply (RaiseFacts.count_bump round (store i0 v w1)). }
        assert (Hlog2 : log w2 = log w
                  ++ [Called round state idx varBind (Reply vb); Stored i0 v]).
        { simpl. now rewrite <- app_assoc. }
        destruct (count round w2 <? n) eqn:Hlt2.
        -- apply Nat.ltb_lt in Hlt2.
           apply accounts_prefix with (w1:=w2)
             (l1:=[Called round state idx varBind (Reply vb); Stored i0 v]);
             [exact Hlog2 | reflexivity | ].
           apply IH. lia.
        -- apply Nat.ltb_ge in Hlt2.
           assert (Hrest : rest = [])
             by (destruct rest; [reflexivity | simpl in *; lia]).
           subst rest.
           set (context' := next_context
                  (mkContext (Some state) (Some status) true (Some idx))).
           destruct (Hsound context' w2) as (l3 & Hl3 & Hp3).
           destruct (Hrec context' w2) as (l3' & Hl3' & Hle3).
           assert (l3' = l3).
           { rewrite Hl3 in Hl3'. now apply app_inv_head in Hl3'. }
           subst l3'.
           destruct (rec context' w2) as [[ | e | ] w3];
             cbn [fst snd] in Hl3, Hp3; cbn [fst snd dispatch].
           ++ apply accounts_prefix with (w1:=w2) (r:=(Returned, w3))
                (l1:=[Called round state idx varBind (Reply vb); Stored i0 v]);
                [exact Hlog2 | reflexivity | ].
              now exists l3.
           ++ destruct (is_SmiError e) eqn:He.
              ** apply accounts_prefix with (w1:=w3)
                   (l1:=[Called round state idx varBind (Reply vb);
                         Stored i0 v] ++ l3).
                 { now rewrite Hl3, Hlog2, <- app_assoc. }
                 { rewrite deliveries_app. simpl.
                   apply quiet_deliveries, (RaiseFacts.raised_quiet Hmine He Hp3). }
                 { now apply cbFun_accounts. }
              ** apply accounts_prefix with (w1:=w2)
                   (l1:=[Called round state idx varBind (Reply vb); Stored i0 v]);
                   [exact Hlog2 | reflexivity | ].
                 now exists l3.
           ++ apply accounts_prefix with (w1:=w2) (r:=(OutOfFuel, w3))
                (l1:=[Called round state idx varBind (Reply vb); Stored i0 v]);
                [exact Hlog2 | reflexivity | ].
              now exists l3.
    + destruct (is_SmiError e); [apply Hfailed | ].
      exists [Called round state idx varBind (Raise e)].
      split; [reflexivity | simpl; lia].
Qed.

Lemma body_accounts rec :
  sound mine rec -> accounts rec ->
  accounts (flipFlopFsm_body tree mibBuilder raise_tuple fsmTable varBinds
                             cbFun rec).
Proof.
  intros Hsound Hrec context w. unfold flipFlopFsm_body.
  destruct cbFun as [cb | ].
  2:{ exists []. simpl. rewrite app_nil_r. split; [reflexivity | lia]. }
  destruct (RaiseFacts.enter_log mibBuilder varBinds context (new_count w))
    as (ops & Hlog & Hcounts).
  destruct (enter mibBuilder varBinds context (new_count w))
    as [[[o w1] state] status]. cbn [fst snd] in Hlog, Hcounts.
  change (log (new_count w)) with (log w) in Hlog.
  change (counts (new_count w)) with (counts w ++ [0]) in Hcounts.
  assert (Hnone : deliveries (map Tree ops) = []).
  { apply quiet_deliveries, RaiseFacts.quiet_tree. }
  assert (Hhere : forall o' : outcome,
            exists l, log (snd (o', w1)) = log w ++ l
                      /\ length (deliveries l) <= 1).
  { intros o'. exists (map Tree ops). rewrite Hnone. simpl. split; [assumption | lia]. }
  assert (Hlift : forall r : outcome * world,
            (exists l, log (snd r) = log w1 ++ l /\ length (deliveries l) <= 1) ->
            exists l, log (snd r) = log w ++ l /\ length (deliveries l) <= 1).
  { intros r. now apply accounts_prefix with (l1:=map Tree ops). }
  destruct o; [ | apply Hhere | apply Hhere].
  destruct (newState fsmTable state status) as [e | state']; [apply Hhere | ].
  destruct (state_eqb state' STATE_STOP).
  { apply Hlift.
    destruct (RaiseFacts.deliver_log cb w1) as [[-> _] | (does & _ & Hw & _)].
    - exists []. simpl. rewrite app_nil_r. split; [reflexivity | lia].
    - exists [Delivered (_varBinds w1)]. rewrite Hw. simpl.
      split; [reflexivity | lia]. }
  destruct (truthy cb && _).
  { apply Hlift. now apply cbFun_accounts. }
  destruct (negb (has_method tree state')); [apply Hhere | ].
  apply Hlift. apply dispatch_accounts; auto.
  unfold count. rewrite Hcounts, nth_middle. lia.
Qed.

Lemma flipFlopFsm_accounts (fuel : nat) :
  (forall e, raised_by cbFun e -> mine e) ->
  accounts (flipFlopFsm tree mibBuilder raise_tuple fsmTable varBinds cbFun fuel).
Proof.
  intros Hcb. induction fuel as [|fuel IH].
  - intros context w. exists []. simpl. rewrite app_nil_r.
    split; [reflexivity | lia].
  - apply body_accounts; [now apply RaiseFacts.flipFlopFsm_sound | exact IH].
Qed.
End Once.

(** *** A batch that is answered is delivered *)

Lemma unanswered_completes raise_tuple (o : outcome) (l : list entry) :
  existsb (unanswered raise_tuple) l = true -> completes raise_tuple o l.
Proof. intros H. split; auto. Qed.

Lemma completes_raised raise_tuple (e : exc) (l : list entry) :
  is_SmiError e = false -> completes raise_tuple (Raised e) l.
Proof.
  intros He. split; [discriminate | ]. intros x [= <-]. congruence.
Qed.

Lemma completes_out raise_tuple (l : list entry) :
  completes raise_tuple OutOfFuel l.
Proof. split; [discriminate | ]. intros x. discriminate. Qed.

Lemma completes_prefix raise_tuple (o : outcome) (l1 l2 : list entry) :
  deliveries l1 = [] ->
  completes raise_tuple o l2 -> completes raise_tuple o (l1 ++ l2).
Proof.
  intros Hnone [H1 H2]. split.
  - intros Ho. rewrite deliveries_app, Hnone, existsb_app.
    destruct (H1 Ho) as [H | H]; [now left | right].
    rewrite H. apply orb_true_r.
  - intros x Ho Hx. rewrite existsb_app.
    destruct (H2 x Ho Hx) as [H | H]; [left | now right].
    rewrite H. apply orb_true_r.
Qed.

Section Thorough.
Variable tree : mibTree.
Variable mibBuilder : Indexer.mibBuilder.
Variable raise_tuple : exc -> exc.
Variable fsmTable : fsm.
Variable varBinds : list var_bind.
Variable does : nat -> list var_bind -> option exc.
(** [raise value] with a tuple raises no [SmiError] (Python 3: a
    [TypeError]); nor does the continuation. *)
Hypothesis Hraise_tuple : forall x, is_SmiError (raise_tuple x) = false.
Hypothesis Hdoes : forall k batch e, does k batch = Some e -> is_SmiError e = false.

Local Abbreviation n := (length varBinds).
Local Abbreviation completes := (completes raise_tuple).
Local Abbreviation thorough := (thorough raise_tuple).

(** The ways [_cbFun] ends: it raises, no [SmiError]; or it stores the
    value it was given, or its marker. *)
Lemma cbFun_outcomes rec round vb context w :
  (exists e, _cbFun raise_tuple varBinds rec round vb context w = (Raised e, w)
             /\ is_SmiError e = false)
  \/ (exists idx name value v,
        vb = Some (name, value) /\ watch raise_tuple value = inr v
        /\ let w1 := bump round (store idx (name, v) w) in
           _cbFun raise_tuple varBinds rec round vb context w
           = if count round w1 <? n then (Returned, w1)
             else rec (next_context context) w1).
Proof.
  unfold _cbFun.
  destruct (ctx_varBinds context); simpl; [ | left; now eexists].
  destruct vb as [[name value] | ]; [ | left; now eexists].
  destruct (watch raise_tuple value) as [e | value'] eqn:Hwatch.
  { left. exists e. split; [reflexivity | ].
    now apply (RaiseFacts.watch_no_SmiError raise_tuple value). }
  destruct (ctx_idx context) as [idx | ]; [ | left; now eexists].
  destruct (length (_varBinds w) <=? idx); [left; now eexists | ].
  right. exists idx, name, value, value'. auto.
Qed.

Lemma cbFun_extends rec round vb context w :
  thorough rec ->
  exists l,
    log (snd (_cbFun raise_tuple varBinds rec round vb context w)) = log w ++ l.
Proof.
  intros Hrec.
  destruct (RaiseFacts.cbFun_cases raise_tuple varBinds rec round vb context w)
    as [[e ->] | (idx & v & ->)].
  - exists []. simpl. now rewrite app_nil_r.
  - destruct (count round _ <? n).
    + now exists [Stored idx v].
    + destruct (Hrec (next_context context) (bump round (store idx v w)))
        as (l & Hl & _).
      exists (Stored idx v :: l). rewrite Hl. simpl. now rewrite <- app_assoc.
Qed.

Lemma dispatch_thorough rec round context state status rest :
  thorough rec ->
  forall idx w,
    round < length (counts w) ->
    count round w + length rest <= n ->
    exists l,
      log (snd (dispatch tree raise_tuple varBinds rec round context state
                         status idx rest w)) = log w ++ l
      /\ (completes (fst (dispatch tree raise_tuple varBinds rec round context
                                   state status idx rest w)) l
          \/ (fst (dispatch tree raise_tuple varBinds rec round context
                            state status idx rest w) = Returned
              /\ (count round w + length rest < n \/ rest = []))).
Proof.
  intros Hrec.
  induction rest as [|varBind rest IH]; intros idx w Hround Hcount; simpl.
  - exists []. rewrite app_nil_r. split; [reflexivity | right; auto].
  - set (a := method tree (calls w) state idx varBind status).
    set (w1 := note (Called round state idx varBind a) w).
    (* what follows a call that was not answered *)
    assert (Hopen : forall (r : outcome * world) (l1 : list entry),
              existsb (unanswered raise_tuple) l1 = true ->
              (exists l, log (snd r) = log w ++ l1 ++ l) ->
              exists l, log (snd r) = log w ++ l
                        /\ (completes (fst r) l
                            \/ (fst r = Returned
                                /\ (count round w + S (length rest) < n
                                    \/ varBind :: rest = [])))).
    { intros r l1 Hl1 (l & Hl). exists (l1 ++ l). split; [exact Hl | left].
      apply unanswered_completes. rewrite existsb_app, Hl1. reflexivity. }
    assert (Hfailed : forall e w' l',
              log w' = log w ++ l' ->
              exists l,
                log (snd (_cbFun raise_tuple varBinds rec round
                            (Some (fst varBind, ExcInfo e))
                            (mkContext (ctx_state context) (Some STATUS_ERROR)
                                       (ctx_varBinds context) (Some idx)) w'))
                = log w ++ l' ++ l).
    { intros e w' l' Hl'.
      destruct (@cbFun_extends rec round (Some (fst varBind, ExcInfo e))
                  (mkContext (ctx_state context) (Some STATUS_ERROR)
                             (ctx_varBinds context) (Some idx)) w' Hrec)
        as (l & Hl).
      exists l. now rewrite Hl, Hl', <- app_assoc. }
    simpl in Hcount.
    destruct a as [ | vb | e] eqn:Ea.
    + (* Defer *)
      apply Hopen with (l1:=[Called round state idx varBind Defer]);
        [reflexivity | ].
      destruct (IH (S idx) w1) as (l & Hl & _);
        [exact Hround | change (count round w1) with (count round w); lia | ].
      exists l. rewrite Hl. cbn [w1 note log]. now rewrite <- app_assoc.
    + (* Reply *)
      destruct (cbFun_outcomes rec round (Some vb)
                  (mkContext (Some state) (Some status) true (Some idx)) w1)
        as [(e & -> & He) | (i0 & name & value & v & [= ->] & Hv & ->)].
      * rewrite He. exists [Called round state idx varBind (Reply vb)].
        split; [reflexivity | left; now apply completes_raised].
      * set (w2 := bump round (store i0 (name, v) w1)).
        assert (Hw2 : count round w2 = S (count round w)).
        { unfold w2. now rewrite RaiseFacts.count_bump_exact. }
        assert (Hlen2 : length (counts w2) = length (counts w)).
        { cbn. apply BatchFacts.set_nth_length. }
        assert (Hlog2 : log w2 = log w
                  ++ [Called round state idx varBind (Reply (name, value));
                      Stored i0 (name, v)]).
        { simpl. now rewrite <- app_assoc. }
        assert (Hnone : deliveries
                  [Called round state idx varBind (Reply (name, value));
                   Stored i0 (name, v)] = []) by reflexivity.
        destruct (count round w2 <? n) eqn:Hlt.
        -- apply Nat.ltb_lt in Hlt.
           destruct (IH (S idx) w2) as (l & Hl & Hp); [lia | lia | ].
           exists ([Called round state idx varBind (Reply (name, value));
                    Stored i0 (name, v)] ++ l).
           rewrite Hl, Hlog2, <- app_assoc. split; [reflexivity | ].
           destruct Hp as [Hp | (Ho & Hp)].
           ++ left. now apply completes_prefix.
           ++ right. split; [exact Ho | left].
              destruct Hp as [Hp | ->]; [lia | simpl; lia].
        -- apply Nat.ltb_ge in Hlt.
           assert (Hrest : rest = [])
             by (destruct rest; [reflexivity | simpl in *; lia]).
           subst rest.
           destruct (Hrec (next_context
                             (mkContext (Some state) (Some status) true (Some idx)))
                          w2) as (l3 & Hl3 & Hp3).
           destruct (rec _ w2) as [[ | e | ] w3]; cbn [fst snd] in Hl3, Hp3;
             cbn [fst snd dispatch].
           ++ exists ([Called round state idx varBind (Reply (name, value));
                       Stored i0 (name, v)] ++ l3).
              rewrite Hl3, Hlog2, <- app_assoc. split; [reflexivity | left].
              now apply completes_prefix.
           ++ destruct (is_SmiError e) eqn:He.
              ** destruct Hp3 as [_ Hp3].
                 destruct (Hp3 e eq_refl He) as [Hu | [Hexc Hmark]].
                 --- apply Hopen with
                       (l1:=[Called round state idx varBind (Reply (name, value));
                             Stored i0 (name, v)] ++ l3).
                     { rewrite existsb_app, Hu. apply orb_true_r. }
                     apply Hfailed. now rewrite Hl3, Hlog2, <- app_assoc.
                 --- destruct (@RaiseFacts.cbFun_fatal raise_tuple varBinds rec
                                 round (fst varBind) e
                                 (mkContext (ctx_state context) (Some STATUS_ERROR)
                                            (ctx_varBinds context) (Some idx))
                                 w3 Hraise_tuple Hexc Hmark) as (x & -> & Hx).
                     exists ([Called round state idx varBind (Reply (name, value));
                              Stored i0 (name, v)] ++ l3).
                     cbn [fst snd]. rewrite Hl3, Hlog2, <- app_assoc.
                     split; [reflexivity | left; now apply completes_raised].
              ** exists ([Called round state idx varBind (Reply (name, value));
                          Stored i0 (name, v)] ++ l3).
                 cbn [fst snd]. rewrite Hl3, Hlog2, <- app_assoc.
                 split; [reflexivity | left; now apply completes_raised].
           ++ exists ([Called round state idx varBind (Reply (name, value));
                       Stored i0 (name, v)] ++ l3).
              rewrite Hl3, Hlog2, <- app_assoc.
              split; [reflexivity | left; apply completes_out].
    + (* Raise *)
      destruct (is_SmiError e) eqn:He.
      * apply Hopen with (l1:=[Called round state idx varBind (Raise e)]);
          [reflexivity | ].
        now apply Hfailed.
      * exists [Called round state idx varBind (Raise e)].
        split; [reflexivity | left; now apply completes_raised].
Qed.

Lemma enter_raises context w e :
  fst (fst (fst (enter mibBuilder varBinds context w))) = Raised e ->
  is_SmiError e = true -> is_Exception e = true /\ placeholder e = None.
Proof.
  unfold enter.
  destruct (indexMib mibBuilder (self w)) as [[o ops] ctl] eqn:Hindex.
  assert (H : o = Raised e -> is_Exception e = true /\ placeholder e = None).
  { intros ->. apply IndexerFacts.indexMib_raises in Hindex.
    destruct Hindex as [-> | ->]; split; reflexivity. }
  destruct (ctx_state context), (ctx_status context), (ctx_varBinds context);
    cbn [fst snd]; intros Ho _; try discriminate; now apply H.
Qed.

Lemma body_thorough rec :
  thorough rec ->
  thorough (flipFlopFsm_body tree mibBuilder raise_tuple fsmTable varBinds
                             (Some (Callable does)) rec).
Proof.
  intros Hrec context w. unfold flipFlopFsm_body.
  destruct (RaiseFacts.enter_log mibBuilder varBinds context (new_count w))
    as (ops & Hlog & Hcounts).
  pose proof (@enter_raises context (new_count w)) as Hraises.
  destruct (enter mibBuilder varBinds context (new_count w))
    as [[[o w1] state] status]. cbn [fst snd] in Hlog, Hcounts, Hraises.
  change (log (new_count w)) with (log w) in Hlog.
  change (counts (new_count w)) with (counts w ++ [0]) in Hcounts.
  assert (Hnone : deliveries (map Tree ops) = []).
  { apply quiet_deliveries, RaiseFacts.quiet_tree. }
  assert (Hfatal : forall e,
            (is_SmiError e = true -> is_Exception e = true /\ placeholder e = None) ->
            exists l, log w1 = log w ++ l /\ completes (Raised e) l).
  { intros e He. exists (map Tree ops). split; [assumption | ].
    split; [discriminate | ]. intros x [= <-] Hx. right. now apply He. }
  assert (Hlift : forall r : outcome * world,
            (exists l, log (snd r) = log w1 ++ l /\ completes (fst r) l) ->
            exists l, log (snd r) = log w ++ l /\ completes (fst r) l).
  { intros r (l & Hl & Hp). exists (map Tree ops ++ l).
    rewrite Hl, Hlog, <- app_assoc. split; [reflexivity | ].
    now apply completes_prefix. }
  destruct o as [ | e | ].
  2:{ apply Hfatal. now apply Hraises. }
  2:{ exists (map Tree ops). split; [assumption | apply completes_out]. }
  destruct (newState fsmTable state status) as [e | state'] eqn:Hnew.
  { apply Hfatal. intros _. unfold newState in Hnew.
    destruct (PyDict.get key_eqb fsmTable (state, status)); [discriminate | ].
    destruct (PyDict.get key_eqb fsmTable (STATE_ANY, status));
      [discriminate | ].
    injection Hnew as <-. split; reflexivity. }
  destruct (state_eqb state' STATE_STOP).
  { apply Hlift. exists [Delivered (_varBinds w1)]. cbn [deliver].
    destruct (does (handed w1) (_varBinds w1)) as [e | ] eqn:Hd;
      (split; [reflexivity | ]).
    - apply completes_raised. now apply Hdoes in Hd.
    - split; [now left | discriminate]. }
  cbn [truthy andb].
  destruct varBinds as [|vb0 rest0] eqn:Hbatch.
  { apply Hlift. exists []. rewrite app_nil_r. unfold _cbFun.
    destruct (negb (ctx_varBinds context));
      (split; [reflexivity | now apply completes_raised]). }
  rewrite <- Hbatch in *.
  destruct (negb (has_method tree state')).
  { apply Hfatal. intros _. split; reflexivity. }
  apply Hlift.
  destruct (@dispatch_thorough rec (length (counts w)) context state' status
              varBinds Hrec 0 w1) as (l & Hl & Hp).
  { rewrite Hcounts, length_app. simpl. lia. }
  { unfold count. rewrite Hcounts, nth_middle. lia. }
  exists l. split; [exact Hl | ].
  destruct Hp as [Hp | (_ & [Hp | Hp])]; [exact Hp | | ].
  - exfalso. unfold count in Hp. rewrite Hcounts, nth_middle in Hp. lia.
  - congruence.
Qed.

Lemma flipFlopFsm_thorough (fuel : nat) :
  thorough (flipFlopFsm tree mibBuilder raise_tuple fsmTable varBinds
                        (Some (Callable does)) fuel).
Proof.
  induction fuel as [|fuel IH].
  - intros context w. exists []. simpl. rewrite app_nil_r.
    split; [reflexivity | apply completes_out].
  - now apply body_thorough.
Qed.
End Thorough.


End ContinuationFacts.

(* ------------------------------------------------------------------ *)
(** ** The dispatch engine: a round after a phase method raised *)

Module RoundFacts.
Import Indexer Engine.

Lemma not_called_in (round : nat) (l : list entry) :
  (forall r s i vb a, In (Called r s i vb a) l -> r <> round) ->
  forallb (fun x => negb (called_in round x)) l = true.
Proof.
  intros H. apply forallb_forall. intros x Hx.
  destruct x as [r s i vb a | | | ]; try reflexivity. simpl.
  apply negb_true_iff, Nat.eqb_neq. exact (H _ _ _ _ _ Hx).
Qed.

Lemma ended_app (l1 l2 : list entry) :
  ended l1 -> ended l2 ->
  (forall r s i vb e, In (Called r s i vb (Raise e)) l1 ->
                      forallb (fun x => negb (called_in r x)) l2 = true) ->
  ended (l1 ++ l2).
Proof.
  intros H1 H2 Hcross a r s i vb e b Heq.
  apply app_eq_app in Heq. destruct Heq as (c & [[Ha Hb] | [Ha Hb]]).
  - destruct c as [|x c]; simpl in Hb.
    + apply (H2 [] r s i vb e b). now rewrite <- Hb.
    + injection Hb as <- ->. rewrite forallb_app.
      rewrite (H1 a r s i vb e c Ha). simpl.
      apply (Hcross r s i vb e). rewrite Ha. apply in_or_app. right. now left.
  - exact (H2 c r s i vb e b Hb).
Qed.

Lemma ended_harmless (l : list entry) :
  (forall r s i vb e, ~ In (Called r s i vb (Raise e)) l) -> ended l.
Proof.
  intros H l1 r s i vb e l2 Heq. exfalso. apply (H r s i vb e).
  rewrite Heq. apply in_or_app. right. now left.
Qed.

Lemma ended_last (x : entry) : ended [x].
Proof.
  intros l1 r s i vb e l2 Heq.
  destruct l1 as [|y l1]; simpl in Heq.
  - injection Heq as _ <-. reflexivity.
  - injection Heq as _ Heq. destruct l1; discriminate.
Qed.

(** A segment made by rounds started after [w] can follow a segment of
    the loop of [round] that has no raising call of [round]. *)
Lemma tidy_compose (round : nat) (w w1 : world) (l1 : list entry)
    (r : outcome * world) :
  log w1 = log w ++ l1 ->
  length (counts w) <= length (counts w1) ->
  round < length (counts w) ->
  (forall r' s i vb a, In (Called r' s i vb a) l1 ->
                       r' = round \/ length (counts w) <= r' < length (counts w1)) ->
  ended l1 ->
  (forall s i vb e, ~ In (Called round s i vb (Raise e)) l1) ->
  tidy round w1 r -> tidy round w r.
Proof.
  intros Hlog Hmono Hround Hrounds Hended Hnoraise (l & Hl & Hmono' & Hrounds' & Hended').
  exists (l1 ++ l). rewrite Hl, Hlog, <- app_assoc.
  split; [reflexivity | split; [lia | split]].
  - intros r' s i vb a Hin. apply in_app_or in Hin. destruct Hin as [Hin | Hin].
    + destruct (Hrounds _ _ _ _ _ Hin); [now left | right; lia].
    + destruct (Hrounds' _ _ _ _ _ Hin); [now left | right; lia].
  - apply ended_app; auto.
    intros r1 s i vb e Hin. apply not_called_in.
    intros r' s' i' vb' a' Hin'.
    destruct (Hrounds _ _ _ _ _ Hin) as [-> | Hr1].
    + now destruct (Hnoraise s i vb e).
    + destruct (Hrounds' _ _ _ _ _ Hin'); lia.
Qed.

Lemma orderly_tidy (round : nat) (w : world) (r : outcome * world) :
  (exists l, log (snd r) = log w ++ l
             /\ length (counts w) <= length (counts (snd r))
             /\ rounds_within (length (counts w)) (length (counts (snd r))) l
             /\ ended l) ->
  tidy round w r.
Proof.
  intros (l & Hl & Hmono & Hrounds & Hended). exists l.
  split; [exact Hl | split; [exact Hmono | split; [ | exact Hended]]].
  intros r' s i vb a Hin. right. exact (Hrounds _ _ _ _ _ Hin).
Qed.

Lemma ended_nil : ended [].
Proof. apply ended_harmless. intros ? ? ? ? ? []. Qed.

Lemma rounds_within_nil (lo hi : nat) : rounds_within lo hi [].
Proof. intros ? ? ? ? ? []. Qed.

Lemma rounds_within_stored (lo hi idx : nat) (v : var_bind) (l : list entry) :
  rounds_within lo hi l -> rounds_within lo hi (Stored idx v :: l).
Proof.
  intros H r s i vb a [Hin | Hin]; [discriminate | exact (H _ _ _ _ _ Hin)].
Qed.

Lemma ended_stored (idx : nat) (v : var_bind) (l : list entry) :
  ended l -> ended (Stored idx v :: l).
Proof.
  intros H. apply (ended_app (l1:=[Stored idx v])); auto.
  - apply ended_last.
  - intros ? ? ? ? ? [Hin | []]. discriminate.
Qed.

Lemma tidy_nothing (round : nat) (o : outcome) (w : world) : tidy round w (o, w).
Proof.
  exists []. cbn [fst snd]. rewrite app_nil_r.
  split; [reflexivity | split; [apply Nat.le_refl | split]].
  - intros ? ? ? ? ? [].
  - apply ended_nil.
Qed.

Section Order.
Variable tree : mibTree.
Variable mibBuilder : Indexer.mibBuilder.
Variable raise_tuple : exc -> exc.
Variable fsmTable : fsm.
Variable varBinds : list var_bind.
Variable cbFun : option continuation.

Lemma cbFun_orderly rec round vb context w :
  orderly rec ->
  let r := _cbFun raise_tuple varBinds rec round vb context w in
  exists l, log (snd r) = log w ++ l
            /\ length (counts w) <= length (counts (snd r))
            /\ rounds_within (length (counts w)) (length (counts (snd r))) l
            /\ ended l.
Proof.
  intros Hrec r. subst r.
  destruct (RaiseFacts.cbFun_cases raise_tuple varBinds rec round vb context w)
    as [[e ->] | (idx & v & ->)].
  - exists []. cbn [fst snd]. rewrite app_nil_r.
    split; [reflexivity | split; [apply Nat.le_refl | split]].
    + apply rounds_within_nil.
    + apply ended_nil.
  - destruct (count round _ <? length varBinds).
    + exists [Stored idx v]. cbn [fst snd bump store note log counts].
      rewrite BatchFacts.set_nth_length.
      split; [reflexivity | split; [apply Nat.le_refl | split]].
      * apply rounds_within_stored, rounds_within_nil.
      * apply ended_last.
    + destruct (Hrec (next_context context) (bump round (store idx v w)))
        as (l & Hl & Hmono & Hrounds & Hended).
      exists (Stored idx v :: l). rewrite Hl.
      cbn [bump store note log counts] in *.
      rewrite BatchFacts.set_nth_length in Hmono, Hrounds. rewrite <- app_assoc.
      split; [reflexivity | split; [exact Hmono | split]].
      * now apply rounds_within_stored.
      * now apply ended_stored.
Qed.

Lemma dispatch_tidy rec round context state status rest :
  orderly rec ->
  forall idx w,
    round < length (counts w) ->
    tidy round w
         (dispatch tree raise_tuple varBinds rec round context state status
                   idx rest w).
Proof.
  intros Hrec.
  induction rest as [|varBind rest IH]; intros idx w Hround; cbn [dispatch].
  - apply tidy_nothing.
  - set (a := method tree (calls w) state idx varBind status).
    set (w1 := note (Called round state idx varBind a) w).
    (* the call of the phase method, when it did not raise *)
    assert (Hhead : forall (l1 : list entry) (w' : world) r,
              (forall e, a <> Raise e) ->
              log w' = log w ++ Called round state idx varBind a :: l1 ->
              length (counts w) <= length (counts w') ->
              rounds_within (length (counts w)) (length (counts w')) l1 ->
              ended l1 ->
              tidy round w' r -> tidy round w r).
    { intros l1 w' r Ha Hlog Hmono Hrounds Hended Hr.
      apply tidy_compose
        with (w1:=w') (l1:=Called round state idx varBind a :: l1); auto.
      - intros r' s i vb a' [Heq | Hin].
        + left. now injection Heq.
        + right. exact (Hrounds _ _ _ _ _ Hin).
      - apply (ended_app (l1:=[Called round state idx varBind a])); auto.
        + apply ended_last.
        + intros r1 s i vb e [Heq | []]. injection Heq as _ _ _ _ H.
          now destruct (Ha e).
      - intros s i vb e [Heq | Hin].
        + injection Heq as _ _ _ H. now destruct (Ha e).
        + apply Hrounds in Hin. lia. }
    (* the completion made on behalf of a phase method that raised *)
    assert (Hfailed : forall e (l1 : list entry) (w' : world),
              log w' = log w ++ Called round state idx varBind a :: l1 ->
              length (counts w) <= length (counts w') ->
              rounds_within (length (counts w)) (length (counts w')) l1 ->
              ended l1 ->
              tidy round w
                (_cbFun raise_tuple varBinds rec round
                        (Some (fst varBind, ExcInfo e))
                        (mkContext (ctx_state context) (Some STATUS_ERROR)
                                   (ctx_varBinds context) (Some idx)) w')).
    { intros e l1 w' Hlog Hmono Hrounds Hended.
      destruct (@cbFun_orderly rec round (Some (fst varBind, ExcInfo e))
                  (mkContext (ctx_state context) (Some STATUS_ERROR)
                             (ctx_varBinds context) (Some idx)) w' Hrec)
        as (l2 & Hl2 & Hmono2 & Hrounds2 & Hended2).
      exists ((Called round state idx varBind a :: l1) ++ l2).
      rewrite Hl2, Hlog, <- app_assoc.
      split; [reflexivity | split; [lia | split]].
      - intros r' s i vb a' Hin. apply in_app_or in Hin.
        destruct Hin as [[Heq | Hin] | Hin].
        + left. now injection Heq.
        + right. apply Hrounds in Hin. lia.
        + right. apply Hrounds2 in Hin. lia.
      - change (Called round state idx varBind a :: l1)
          with ([Called round state idx varBind a] ++ l1).
        rewrite <- app_assoc.
        apply (ended_app (l1:=[Called round state idx varBind a])).
        + apply ended_last.
        + apply ended_app; auto.
          intros r1 s i vb e1 Hin. apply not_called_in.
          intros r' s' i' vb' a' Hin'.
          apply Hrounds in Hin. apply Hrounds2 in Hin'. lia.
        + intros r1 s i vb e1 [Heq | []]. injection Heq as <- _ _ _ _.
          apply not_called_in.
          intros r' s' i' vb' a' Hin'. apply in_app_or in Hin'.
          destruct Hin' as [Hin' | Hin'];
            [apply Hrounds in Hin' | apply Hrounds2 in Hin']; lia. }
    destruct a as [ | vb | e] eqn:Ea.
    + apply (Hhead [] w1);
        [discriminate | reflexivity | apply Nat.le_refl
         | apply rounds_within_nil | apply ended_nil | ].
      now apply IH.
    + destruct (RaiseFacts.cbFun_cases raise_tuple varBinds rec round (Some vb)
                  (mkContext (Some state) (Some status) true (Some idx)) w1)
        as [[e ->] | (i0 & v & ->)].
      * destruct (is_SmiError e).
        -- apply (Hfailed e [] w1);
             [reflexivity | apply Nat.le_refl
              | apply rounds_within_nil | apply ended_nil].
        -- apply (Hhead [] w1);
             [discriminate | reflexivity | apply Nat.le_refl
              | apply rounds_within_nil | apply ended_nil | ].
           apply tidy_nothing.
      * set (w2 := bump round (store i0 v w1)).
        assert (Hlog2 : log w2 = log w
                  ++ Called round state idx varBind (Reply vb) :: [Stored i0 v]).
        { cbn. now rewrite <- app_assoc. }
        assert (Hcounts2 : length (counts w2) = length (counts w)).
        { cbn. apply BatchFacts.set_nth_length. }
        destruct (count round w2 <? length varBinds).
        -- apply (Hhead [Stored i0 v] w2);
             [discriminate | exact Hlog2 | lia
              | apply rounds_within_stored, rounds_within_nil
              | apply ended_last | ].
           apply IH. lia.
        -- set (context' := next_context
                  (mkContext (Some state) (Some status) true (Some idx))).
           destruct (Hrec context' w2) as (l3 & Hl3 & Hmono3 & Hrounds3 & Hended3).
           assert (Hlog3 : log (snd (rec context' w2)) = log w
                     ++ Called round state idx varBind (Reply vb)
                        :: (Stored i0 v :: l3)).
           { rewrite Hl3, Hlog2, <- app_assoc. reflexivity. }
           assert (Hrounds3' :
                     rounds_within (length (counts w))
                                   (length (counts (snd (rec context' w2))))
                                   (Stored i0 v :: l3)).
           { apply rounds_within_stored. intros r' s i vb' a' H.
             apply Hrounds3 in H. lia. }
           assert (Hended3' : ended (Stored i0 v :: l3))
             by now apply ended_stored.
           destruct (rec context' w2) as [[ | e | ] w3];
             cbn [fst snd] in Hl3, Hmono3, Hrounds3, Hlog3, Hrounds3';
             cbn [fst snd].
           ++ apply (Hhead (Stored i0 v :: l3) w3);
                [discriminate | exact Hlog3 | lia | exact Hrounds3'
                 | exact Hended3' | ].
              apply IH. lia.
           ++ destruct (is_SmiError e).
              ** apply (Hfailed e (Stored i0 v :: l3) w3);
                   [exact Hlog3 | lia | exact Hrounds3' | exact Hended3'].
              ** apply (Hhead (Stored i0 v :: l3) w3);
                   [discriminate | exact Hlog3 | lia | exact Hrounds3'
                    | exact Hended3' | ].
                 apply tidy_nothing.
           ++ apply (Hhead (Stored i0 v :: l3) w3);
                [discriminate | exact Hlog3 | lia | exact Hrounds3'
                 | exact Hended3' | ].
              apply tidy_nothing.
    + destruct (is_SmiError e).
      * apply (Hfailed e [] w1);
          [reflexivity | apply Nat.le_refl
           | apply rounds_within_nil | apply ended_nil].
      * exists [Called round state idx varBind (Raise e)]. cbn [fst snd].
        split; [reflexivity | split; [apply Nat.le_refl | split]].
        -- intros r' s i vb a' [Heq | []]. left. now injection Heq.
        -- apply ended_last.
Qed.

Lemma body_orderly rec :
  orderly rec ->
  orderly (flipFlopFsm_body tree mibBuilder raise_tuple fsmTable varBinds
                            cbFun rec).
Proof.
  intros Hrec context w. unfold flipFlopFsm_body.
  assert (Htree : forall ops r s i vb a, ~ In (Called r s i vb a) (map Tree ops)).
  { intros ops r s i vb a Hin. apply in_map_iff in Hin.
    destruct Hin as (x & Hx & _). discriminate. }
  assert (Hops : forall ops (w1 : world) (o : outcome),
            log w1 = log w ++ map Tree ops ->
            length (counts w) <= length (counts w1) ->
            exists l, log (snd (o, w1)) = log w ++ l
                      /\ length (counts w) <= length (counts (snd (o, w1)))
                      /\ rounds_within (length (counts w))
                                       (length (counts (snd (o, w1)))) l
                      /\ ended l).
  { intros ops w1 o Hlog Hmono. exists (map Tree ops). cbn [fst snd].
    split; [exact Hlog | split; [exact Hmono | split]].
    - intros r s i vb a Hin. now apply Htree in Hin.
    - apply ended_harmless. intros r s i vb e. apply Htree. }
  destruct cbFun as [cb | ].
  2:{ apply (Hops [] (new_count w)); cbn;
        [now rewrite app_nil_r | rewrite length_app; lia]. }
  destruct (RaiseFacts.enter_log mibBuilder varBinds context (new_count w))
    as (ops & Hlog & Hcounts).
  destruct (enter mibBuilder varBinds context (new_count w))
    as [[[o w1] state] status]. cbn [fst snd] in Hlog, Hcounts.
  change (log (new_count w)) with (log w) in Hlog.
  change (counts (new_count w)) with (counts w ++ [0]) in Hcounts.
  assert (Hlen : length (counts w1) = S (length (counts w))).
  { rewrite Hcounts, length_app. simpl. lia. }
  assert (Hmono1 : length (counts w) <= length (counts w1)) by lia.
  assert (Hlift : forall r,
            tidy (length (counts w)) w1 r ->
            exists l, log (snd r) = log w ++ l
                      /\ length (counts w) <= length (counts (snd r))
                      /\ rounds_within (length (counts w))
                                       (length (counts (snd r))) l
                      /\ ended l).
  { intros r (l & Hl & Hmono & Hrounds & Hended).
    exists (map Tree ops ++ l). rewrite Hl, Hlog, <- app_assoc.
    split; [reflexivity | split; [lia | split]].
    - intros r' s i vb a Hin. apply in_app_or in Hin.
      destruct Hin as [Hin | Hin]; [now apply Htree in Hin | ].
      destruct (Hrounds _ _ _ _ _ Hin); lia.
    - apply ended_app; auto.
      + apply ended_harmless. intros r' s i vb e. apply Htree.
      + intros r' s i vb e Hin. now apply Htree in Hin. }
  destruct o; [ | now apply (Hops ops) | now apply (Hops ops)].
  destruct (newState fsmTable state status) as [e | state'];
    [now apply (Hops ops) | ].
  destruct (state_eqb state' STATE_STOP).
  { destruct (RaiseFacts.deliver_log cb w1) as [[-> _] | (does & _ & Hw & _)];
      [now apply (Hops ops) | ].
    exists (map Tree ops ++ [Delivered (_varBinds w1)]).
    rewrite Hw. cbn [note log counts]. rewrite Hlog, <- app_assoc.
    split; [reflexivity | split; [exact Hmono1 | split]].
    - intros r s i vb a Hin. apply in_app_or in Hin.
      destruct Hin as [Hin | [Hin | []]]; [now apply Htree in Hin | discriminate].
    - apply ended_harmless. intros r s i vb e Hin. apply in_app_or in Hin.
      destruct Hin as [Hin | [Hin | []]]; [now apply Htree in Hin | discriminate]. }
  destruct (truthy cb && _).
  { apply Hlift, orderly_tidy. now apply cbFun_orderly. }
  destruct (negb (has_method tree state')); [now apply (Hops ops) | ].
  apply Hlift, dispatch_tidy; auto. lia.
Qed.

Lemma flipFlopFsm_orderly (fuel : nat) :
  orderly (flipFlopFsm tree mibBuilder raise_tuple fsmTable varBinds cbFun fuel).
Proof.
  induction fuel as [|fuel IH].
  - intros context w. exists []. cbn [flipFlopFsm fst snd]. rewrite app_nil_r.
    split; [reflexivity | split; [apply Nat.le_refl | split]].
    + apply rounds_within_nil.
    + apply ended_nil.
  - now apply body_orderly.
Qed.
End Order.
Lemma history_step (w : world) (r : outcome * world) :
  history w ->
  (exists l, log (snd r) = log w ++ l
             /\ length (counts w) <= length (counts (snd r))
             /\ rounds_within (length (counts w)) (length (counts (snd r))) l
             /\ ended l) ->
  history (snd r).
Proof.
  intros [Hrounds Hended] (l & Hl & Hmono & Hrounds' & Hended').
  unfold history. rewrite Hl. split.
  - intros r' s i vb a Hin. apply in_app_or in Hin. destruct Hin as [Hin | Hin].
    + apply Hrounds in Hin. lia.
    + apply Hrounds' in Hin. lia.
  - apply ended_app; auto.
    intros r1 s i vb e Hin. apply not_called_in.
    intros r' s' i' vb' a' Hin'.
    apply Hrounds in Hin. apply Hrounds' in Hin'. lia.
Qed.

Lemma completions_history tree bld raise_tuple (fsmTable : fsm)
    (varBinds : list var_bind) (cbFun : option continuation) (fuel : nat)
    (evs : list event) :
  forall w, history w ->
  history (completions tree bld raise_tuple fsmTable varBinds cbFun fuel evs w).
Proof.
  induction evs as [|ev evs IH]; intros w Hw.
  - exact Hw.
  - change (history (completions tree bld raise_tuple fsmTable varBinds cbFun
                       fuel evs
                       (snd (complete tree bld raise_tuple fsmTable varBinds
                                      cbFun fuel ev w)))).
    apply IH. apply history_step with (w:=w); [exact Hw | ].
    destruct ev as [round idx vb state status]. cbn [complete].
    refine (@cbFun_orderly raise_tuple varBinds _ round (Some vb) _ w _).
    apply flipFlopFsm_orderly.
Qed.


End RoundFacts.

(* ------------------------------------------------------------------ *)
(** ** Where the engine departs from its description *)

Module Defects.
Import Indexer Engine Samples.

(** C9.  A call without variable bindings does not reach the
    continuation: the vacuous completion [_cbFun(None, **context)] looks
    up ['varBinds'] in a context that has no such key. *)
Theorem empty_batch_raises tree raise_tuple
    (does : nat -> list var_bind -> option exc) (fuel : nat) :
  let failed := (Raised (KeyError "'varBinds'"),
                 mkWorld (mkController 0 []) [] [0] []) in
  readVars tree empty_builder raise_tuple [] (Some (Callable does)) (S fuel) start
  = failed
  /\ readNextVars tree empty_builder raise_tuple [] (Some (Callable does))
                  (S fuel) start
     = failed
  /\ writeVars tree empty_builder raise_tuple [] (Some (Callable does))
               (S fuel) start
     = failed.
Proof.
  repeat split; reflexivity.
Qed.

(** A write in which no phase method raises goes through the whole
    protocol and delivers the batch once. *)
Lemma write_without_errors (fuel : nat) :
  let r := writeVars answering empty_builder py3_raise [sysDescr; sysName]
                     (Some returning) (6 + fuel) start in
  fst r = Returned
  /\ phases (log (snd r))
     = [ STATE_WRITE_TEST; STATE_WRITE_TEST;
         STATE_WRITE_COMMIT; STATE_WRITE_COMMIT;
         STATE_WRITE_CLEANUP; STATE_WRITE_CLEANUP;
         STATE_READ_TEST; STATE_READ_TEST;
         STATE_READ_GET; STATE_READ_GET ]
  /\ deliveries (log (snd r))
     = [[(fst sysDescr, Data "value"); (fst sysName, Data "value")]].
Proof.
  repeat split; reflexivity.
Qed.

(** Whatever the tree, the table and the batch: when the phase method
    of the first round raises an [SmiError] for the first binding, the
    call ends with the [KeyError] of the completion made on its behalf. *)
Lemma first_round_raise_escapes
    tree bld raise_tuple (fsmTable : fsm) (vb : var_bind) (rest : list var_bind)
    (cb : continuation) (rec : ctx -> world -> outcome * world) (w : world)
    (ops : list treeop) (ctl : controller) (s : fsm_state) (e : exc) :
  indexMib bld (self w) = (Returned, ops, ctl) ->
  newState fsmTable STATE_START STATUS_OK = inr s ->
  state_eqb s STATE_STOP = false ->
  has_method tree s = true ->
  (forall n, method tree n s 0 vb STATUS_OK = Raise e) ->
  is_SmiError e = true ->
  flipFlopFsm_body tree bld raise_tuple fsmTable (vb :: rest) (Some cb) rec
                   no_context w
  = (Raised (KeyError "'varBinds'"),
     note (Called (length (counts w)) s 0 vb (Raise e))
          (mkWorld ctl (vb :: rest) (counts w ++ [0]) (log w ++ map Tree ops))).
Proof.
  intros Hindex Hnew Hstop Hhas Hraise He.
  unfold flipFlopFsm_body, enter. cbn [no_context ctx_state].
  change (self (new_count w)) with (self w). rewrite Hindex, Hnew, Hstop.
  rewrite andb_false_r, Hhas. cbn [negb dispatch]. rewrite Hraise, He.
  reflexivity.
Qed.

(** Whatever the tree and the recursive call: in a round of two or more
    bindings started from a context with ['varBinds'], when the phase
    method raises a per-binding [SmiError] for the first binding, the
    loop stores the marker and returns; no other binding is dispatched
    and no round is started. *)
Lemma first_raise_ends_the_loop
    tree raise_tuple (varBinds : list var_bind)
    (rec : ctx -> world -> outcome * world) (round : nat) (context : ctx)
    (state : fsm_state) (status : fsm_status)
    (vb vb' : var_bind) (rest : list var_bind) (w : world) (e : exc) (p : val) :
  method tree (calls w) state 0 vb status = Raise e ->
  is_SmiError e = true ->
  placeholder e = Some p ->
  ctx_varBinds context = true ->
  _varBinds w <> [] ->
  count round w = 0 ->
  2 <= length varBinds ->
  dispatch tree raise_tuple varBinds rec round context state status 0
           (vb :: vb' :: rest) w
  = (Returned,
     bump round (store 0 (fst vb, p)
                       (note (Called round state 0 vb (Raise e)) w))).
Proof.
  intros Hraise He Hp Hvb Hstore Hcount Hlen.
  cbn [dispatch]. rewrite Hraise, He. unfold _cbFun. cbn [ctx_varBinds ctx_idx].
  rewrite Hvb. cbn [negb].
  destruct (CallbackFacts.placeholder_watch raise_tuple e Hp) as [-> _].
  cbn [note _varBinds].
  destruct (_varBinds w) as [|x l] eqn:Hl; [congruence | ]. cbn [length Nat.leb].
  match goal with
  | |- (if ?c then _ else _) = _ => assert (Hc : c = true)
  end.
  { apply Nat.ltb_lt.
    pose proof (RaiseFacts.count_bump round
                  (store 0 (fst vb, p)
                         (note (Called round state 0 vb (Raise e)) w)))
      as Hb.
    change (count round (store _ _ _)) with (count round w) in Hb. lia. }
  rewrite Hc. unfold store, note. cbn. rewrite Hl. reflexivity.
Qed.

(** C1.  The error branches of the write table are not what a batch
    driven by [writeVars] goes through.  When [writeTest] raises, the
    completion made on its behalf fails on the ['varBinds'] key and the
    call ends with that [KeyError]: [writeCleanup] is not called.  When
    [writeCommit] raises, the next round starts from the state of the
    round before, (WRITE_TEST, ERROR): [writeCleanup] is called and
    [writeUndo] is not.  [writeUndo] is called after a failed
    [writeCleanup] only, and its completion, made under status ERROR,
    leads to STOP and not to READ_TEST. *)
Theorem write_error_branches_not_taken (fuel : nat) :
  (let r := writeVars write_test_raising empty_builder py3_raise [sysDescr]
                      (Some returning) (1 + fuel) start in
   fst r = Raised (KeyError "'varBinds'")
   /\ phases (log (snd r)) = [STATE_WRITE_TEST]
   /\ deliveries (log (snd r)) = [])
  /\ (let r := writeVars commit_raising empty_builder py3_raise [sysDescr]
                         (Some returning) (4 + fuel) start in
      fst r = Returned
      /\ phases (log (snd r))
         = [STATE_WRITE_TEST; STATE_WRITE_COMMIT; STATE_WRITE_CLEANUP]
      /\ deliveries (log (snd r)) = [[(fst sysDescr, Data "value")]])
  /\ (let r := writeVars cleanup_raising empty_builder py3_raise [sysDescr]
                         (Some returning) (5 + fuel) start in
      fst r = Returned
      /\ phases (log (snd r))
         = [STATE_WRITE_TEST; STATE_WRITE_COMMIT; STATE_WRITE_CLEANUP;
            STATE_WRITE_UNDO]
      /\ deliveries (log (snd r)) = [[(fst sysDescr, Data "value")]]).
Proof.
  repeat split; reflexivity.
Qed.




End Defects.

(* ------------------------------------------------------------------ *)
(** ** The transition tables *)

Module TableFacts.
Import Engine.

Lemma state_eqb_true (a b : fsm_state) : state_eqb a b = true <-> a = b.
Proof. destruct a, b; simpl; split; congruence. Qed.

Lemma get_in (K V : Type) (eqb : K -> K -> bool) (d : list (K * V)) k v :
  PyDict.get eqb d k = Some v -> exists k', In (k', v) d.
Proof.
  induction d as [|[k0 v0] d IH]; simpl; [discriminate | ].
  destruct (eqb k k0).
  - intros [= ->]. exists k0. now left.
  - intros H. destruct (IH H) as [k' Hk']. exists k'. now right.
Qed.

Lemma newState_target (fsmTable : fsm) state status s :
  newState fsmTable state status = inr s -> In s (map snd fsmTable).
Proof.
  unfold newState.
  destruct (PyDict.get key_eqb fsmTable (state, status)) as [s0 | ] eqn:E.
  - intros [= <-]. apply get_in in E. destruct E as [k Hk].
    apply in_map_iff. now exists (k, s0).
  - destruct (PyDict.get key_eqb fsmTable (STATE_ANY, status)) as [s0 | ] eqn:E';
      [ | discriminate].
    intros [= <-]. apply get_in in E'. destruct E' as [k Hk].
    apply in_map_iff. now exists (k, s0).
Qed.

Section Total.
Variable fsmTable : fsm.
Hypothesis Htotal : total_table fsmTable = true.

Lemma newState_error (state : fsm_state) :
  exists s, newState fsmTable state STATUS_ERROR = inr s.
Proof.
  unfold total_table in Htotal. apply andb_true_iff in Htotal.
  destruct Htotal as [H _]. apply andb_true_iff in H. destruct H as [H _].
  unfold PyDict.mem in H. unfold newState.
  destruct (PyDict.get key_eqb fsmTable (state, STATUS_ERROR)); [eauto | ].
  destruct (PyDict.get key_eqb fsmTable (STATE_ANY, STATUS_ERROR));
    [eauto | discriminate].
Qed.

Lemma newState_start : exists s, newState fsmTable STATE_START STATUS_OK = inr s.
Proof.
  unfold total_table in Htotal. apply andb_true_iff in Htotal.
  destruct Htotal as [H _]. apply andb_true_iff in H. destruct H as [_ H].
  destruct (newState fsmTable STATE_START STATUS_OK); [discriminate | eauto].
Qed.

Lemma newState_next (state : fsm_state) (status : fsm_status) :
  In state (map snd fsmTable) -> state <> STATE_STOP ->
  exists s, newState fsmTable state status = inr s.
Proof.
  intros Hin Hstop. destruct status; [ | apply newState_error].
  unfold total_table in Htotal. apply andb_true_iff in Htotal.
  destruct Htotal as [_ H]. rewrite forallb_forall in H.
  apply in_map_iff in Hin. destruct Hin as (kv & <- & Hkv).
  apply H in Hkv. apply orb_true_iff in Hkv. destruct Hkv as [Hkv | Hkv].
  - apply state_eqb_true in Hkv. contradiction.
  - destruct (newState fsmTable (snd kv) STATUS_OK); [discriminate | eauto].
Qed.
End Total.

Lemma class_tables_total :
  total_table fsmReadVar = true /\ total_table fsmReadNextVar = true
  /\ total_table fsmWriteVar = true.
Proof. repeat split; reflexivity. Qed.

End TableFacts.

(* ------------------------------------------------------------------ *)
(** ** The dispatch engine: how deep the calls nest *)

Module FuelFacts.
Import Indexer Engine.

Lemma indexMib_ends bld self : fst (fst (indexMib bld self)) <> OutOfFuel.
Proof.
  unfold indexMib. destruct (Z.eqb _ _); [discriminate | ].
  destruct (attach bld (collect bld)) as [[e | ] [ops syms]]; discriminate.
Qed.

Lemma enter_entered bld varBinds context w :
  snd (fst (enter bld varBinds context w)) = fst (entered context)
  /\ snd (enter bld varBinds context w) = snd (entered context)
  /\ fst (fst (fst (enter bld varBinds context w))) <> OutOfFuel.
Proof.
  unfold enter, entered.
  pose proof (indexMib_ends bld (self w)) as H.
  destruct (indexMib bld (self w)) as [[o ops] ctl]. simpl in H.
  destruct (ctx_state context), (ctx_status context), (ctx_varBinds context);
    simpl; repeat split; auto; discriminate.
Qed.

Section Fuel.
Variable tree : mibTree.
Variable mibBuilder : Indexer.mibBuilder.
Variable raise_tuple : exc -> exc.
Variable fsmTable : fsm.
Variable varBinds : list var_bind.
Variable cbFun : option continuation.

Lemma cbFun_ext rec1 rec2 round vb c w :
  (ctx_varBinds c = true -> same_on rec1 rec2 (next_context c)) ->
  _cbFun raise_tuple varBinds rec1 round vb c w
  = _cbFun raise_tuple varBinds rec2 round vb c w
  /\ fst (_cbFun raise_tuple varBinds rec2 round vb c w) <> OutOfFuel.
Proof.
  intros H. unfold _cbFun.
  destruct (ctx_varBinds c); simpl; [ | split; [reflexivity | discriminate]].
  destruct vb as [[name value] | ]; [ | split; [reflexivity | discriminate]].
  destruct (watch raise_tuple value); [split; [reflexivity | discriminate] | ].
  destruct (ctx_idx c); [ | split; [reflexivity | discriminate]].
  destruct (_ <=? _); [split; [reflexivity | discriminate] | ].
  destruct (_ <? _); [split; [reflexivity | discriminate] | ].
  apply H. reflexivity.
Qed.

Lemma dispatch_ext rec1 rec2 round context state status rest :
  same_on rec1 rec2 (mkContext (Some state) (Some status) true None) ->
  (ctx_varBinds context = true ->
   same_on rec1 rec2 (mkContext (ctx_state context) (Some STATUS_ERROR) true None)) ->
  forall idx w,
    dispatch tree raise_tuple varBinds rec1 round context state status idx rest w
    = dispatch tree raise_tuple varBinds rec2 round context state status idx rest w
    /\ fst (dispatch tree raise_tuple varBinds rec2 round context state status
                     idx rest w) <> OutOfFuel.
Proof.
  intros H1 H2.
  induction rest as [|varBind rest IH]; intros idx w; cbn [dispatch].
  - split; [reflexivity | discriminate].
  - set (a := method tree (calls w) state idx varBind status).
    set (w1 := note (Called round state idx varBind a) w).
    assert (Hcalled :
      match a with
      | Defer => (Returned, w1)
      | Reply vb => _cbFun raise_tuple varBinds rec1 round (Some vb)
                      (mkContext (Some state) (Some status) true (Some idx)) w1
      | Raise e => (Raised e, w1)
      end
      = match a with
        | Defer => (Returned, w1)
        | Reply vb => _cbFun raise_tuple varBinds rec2 round (Some vb)
                        (mkContext (Some state) (Some status) true (Some idx)) w1
        | Raise e => (Raised e, w1)
        end
      /\ fst match a with
             | Defer => (Returned, w1)
             | Reply vb => _cbFun raise_tuple varBinds rec2 round (Some vb)
                             (mkContext (Some state) (Some status) true (Some idx)) w1
             | Raise e => (Raised e, w1)
             end <> OutOfFuel).
    { destruct a; try (split; [reflexivity | discriminate]).
      apply cbFun_ext. intros _. exact H1. }
    destruct Hcalled as [-> Hends].
    destruct (match a with Defer => _ | Reply _ => _ | Raise _ => _ end)
      as [[ | e | ] w2]; cbn [fst] in Hends.
    + apply IH.
    + destruct (is_SmiError e); [ | split; [reflexivity | discriminate]].
      apply cbFun_ext. cbn [ctx_varBinds next_context ctx_state ctx_status].
      intros Hvb. rewrite Hvb. now apply H2.
    + congruence.
Qed.

Lemma body_ext rec1 rec2 context w :
  (forall s, newState fsmTable (fst (entered context)) (snd (entered context)) = inr s ->
             state_eqb s STATE_STOP = false ->
             same_on rec1 rec2 (mkContext (Some s) (Some (snd (entered context))) true None)
             /\ (ctx_varBinds context = true ->
                 same_on rec1 rec2
                         (mkContext (ctx_state context) (Some STATUS_ERROR) true None))) ->
  flipFlopFsm_body tree mibBuilder raise_tuple fsmTable varBinds cbFun rec1 context w
  = flipFlopFsm_body tree mibBuilder raise_tuple fsmTable varBinds cbFun rec2 context w
  /\ fst (flipFlopFsm_body tree mibBuilder raise_tuple fsmTable varBinds cbFun
                           rec2 context w) <> OutOfFuel.
Proof.
  intros H. unfold flipFlopFsm_body.
  destruct cbFun as [cb | ]; [ | split; [reflexivity | discriminate]].
  destruct (enter_entered mibBuilder varBinds context (new_count w))
    as (Hs & Ht & Ho).
  destruct (enter mibBuilder varBinds context (new_count w))
    as [[[o w1] state] status]. cbn [fst snd] in Hs, Ht, Ho.
  rewrite <- Hs, <- Ht in H.
  destruct o; [ | split; [reflexivity | discriminate] | congruence].
  destruct (newState fsmTable state status) as [e | s];
    [split; [reflexivity | discriminate] | ].
  destruct (state_eqb s STATE_STOP) eqn:Hstop.
  { split; [reflexivity | ].
    destruct cb as [ | does]; cbn [deliver]; [discriminate | ].
    destruct (does _ _); discriminate. }
  destruct (H s eq_refl Hstop) as [H1 H2].
  destruct (truthy cb && _).
  { unfold _cbFun. destruct (ctx_varBinds context); simpl;
      split; try reflexivity; discriminate. }
  destruct (negb (has_method tree s)); [split; [reflexivity | discriminate] | ].
  now apply dispatch_ext.
Qed.

Lemma bounded_enough (k : nat) :
  forall context, bounded fsmTable k context = true ->
  forall fuel, k <= fuel ->
  same_on (flipFlopFsm tree mibBuilder raise_tuple fsmTable varBinds cbFun fuel)
          (flipFlopFsm tree mibBuilder raise_tuple fsmTable varBinds cbFun k)
          context.
Proof.
  induction k as [|k IH]; intros context Hb fuel Hfuel w; [discriminate | ].
  destruct fuel as [|fuel]; [lia | ]. cbn [flipFlopFsm].
  apply body_ext. intros s Hs Hstop.
  cbn [bounded] in Hb. destruct (entered context) as [state status].
  cbn [fst snd] in *. rewrite Hs, Hstop in Hb. cbn [orb] in Hb.
  apply andb_true_iff in Hb. destruct Hb as [Hb1 Hb2]. split.
  - apply IH; [assumption | lia].
  - intros Hvb. rewrite Hvb in Hb2. apply IH; [assumption | lia].
Qed.
End Fuel.

Lemma read_tables_bounded (fsmTable : fsm) :
  fsmTable = fsmReadVar \/ fsmTable = fsmReadNextVar ->
  bounded fsmTable 3 no_context = true
  /\ forall state status idx,
       bounded fsmTable 3 (mkContext (Some state) (Some status) true idx) = true.
Proof.
  intros [-> | ->]; (split; [reflexivity | ]); intros [] [] idx; reflexivity.
Qed.

(** X2.  [readVars] and [readNextVars] nest at most three calls of
    [flipFlopFsm], whatever the tree, the batch and the continuation:
    with fuel 3 the call does not run out of fuel, and more fuel gives
    the same result.  The same holds for a completion reported later
    for a round of a read table. *)
Theorem reads_end_within_three_rounds
    tree bld raise_tuple (varBinds : list var_bind) (cbFun : option continuation)
    (fuel : nat) :
  3 <= fuel ->
  (forall w,
      readVars tree bld raise_tuple varBinds cbFun fuel w
      = readVars tree bld raise_tuple varBinds cbFun 3 w
      /\ fst (readVars tree bld raise_tuple varBinds cbFun 3 w) <> OutOfFuel
      /\ readNextVars tree bld raise_tuple varBinds cbFun fuel w
         = readNextVars tree bld raise_tuple varBinds cbFun 3 w
      /\ fst (readNextVars tree bld raise_tuple varBinds cbFun 3 w) <> OutOfFuel)
  /\ (forall fsmTable ev w,
        fsmTable = fsmReadVar \/ fsmTable = fsmReadNextVar ->
        complete tree bld raise_tuple fsmTable varBinds cbFun fuel ev w
        = complete tree bld raise_tuple fsmTable varBinds cbFun 3 ev w
        /\ fst (complete tree bld raise_tuple fsmTable varBinds cbFun 3 ev w)
           <> OutOfFuel).
Proof.
  intros Hfuel. split.
  - intros w. unfold readVars, readNextVars.
    destruct (@bounded_enough tree bld raise_tuple fsmReadVar varBinds cbFun 3
                no_context (proj1 (read_tables_bounded (or_introl eq_refl)))
                fuel Hfuel w).
    destruct (@bounded_enough tree bld raise_tuple fsmReadNextVar varBinds cbFun 3
                no_context (proj1 (read_tables_bounded (or_intror eq_refl)))
                fuel Hfuel w).
    auto.
  - intros fsmTable [round idx vb state status] w Htable. cbn [complete].
    apply cbFun_ext. intros _.
    apply bounded_enough; [ | assumption].
    apply (proj2 (read_tables_bounded Htable)).
Qed.

End FuelFacts.

(* ------------------------------------------------------------------ *)
(** ** The dispatch engine: a round that is entered again *)

Module RecursionFacts.
Import Indexer Engine.

(** X3.  A round entered under status ERROR does not move on when its
    phase method raises.  For a batch of one binding: when the phase
    method of the round raises an [SmiError] for which [_cbFun] has a
    marker ([NoSuchObjectError] or [EndOfMibViewError]), the completion
    made on its behalf starts the next call of [flipFlopFsm] with the
    very context the round was entered with.  The same round is run
    again, and so on for as long as the phase method raises: no number
    of nested calls is enough, each of them calls the phase method once
    and nothing is delivered. *)
Theorem raising_round_under_error_repeats
    tree bld raise_tuple (fsmTable : fsm) (vb : var_bind)
    (cb : continuation)
    (s s' : fsm_state) (e : exc) (p : val) :
  newState fsmTable s STATUS_ERROR = inr s' ->
  state_eqb s' STATE_STOP = false ->
  has_method tree s' = true ->
  (forall n, method tree n s' 0 vb STATUS_ERROR = Raise e) ->
  is_SmiError e = true ->
  placeholder e = Some p ->
  let context := mkContext (Some s) (Some STATUS_ERROR) true None in
  (forall rec w,
      _varBinds w <> [] ->
      flipFlopFsm_body tree bld raise_tuple fsmTable [vb] (Some cb) rec context w
      = rec context
            (bump (length (counts w))
                  (store 0 (fst vb, p)
                         (note (Called (length (counts w)) s' 0 vb (Raise e))
                               (new_count w)))))
  /\ (forall fuel w,
        _varBinds w <> [] ->
        let r := flipFlopFsm tree bld raise_tuple fsmTable [vb] (Some cb) fuel
                             context w in
        fst r = OutOfFuel
        /\ phases (log (snd r)) = phases (log w) ++ repeat s' fuel
        /\ deliveries (log (snd r)) = deliveries (log w)).
Proof.
  intros Hnew Hstop Hhas Hraise He Hp c.
  assert (Hbody : forall rec w,
      _varBinds w <> [] ->
      flipFlopFsm_body tree bld raise_tuple fsmTable [vb] (Some cb) rec c w
      = rec c
            (bump (length (counts w))
                  (store 0 (fst vb, p)
                         (note (Called (length (counts w)) s' 0 vb (Raise e))
                               (new_count w))))).
  { intros rec w Hw. subst c. unfold flipFlopFsm_body, enter.
    cbn [ctx_state ctx_status ctx_varBinds].
    rewrite Hnew, Hstop, andb_false_r, Hhas. cbn [negb dispatch].
    rewrite Hraise, He. unfold _cbFun. cbn [ctx_varBinds ctx_idx negb].
    destruct (CallbackFacts.placeholder_watch raise_tuple e Hp) as [-> _].
    cbn [note new_count _varBinds].
    destruct (_varBinds w) as [|x l] eqn:Hl; [congruence | ].
    cbn [length Nat.leb].
    match goal with
    | |- (if ?c then _ else _) = _ => assert (Hc : c = false)
    end.
    { apply Nat.ltb_ge. cbn [length].
      rewrite RaiseFacts.count_bump_exact.
      - lia.
      - cbn. rewrite length_app. simpl. lia. }
    rewrite Hc. unfold store, note, new_count. cbn. rewrite Hl. reflexivity. }
  split; [exact Hbody | ].
  intros fuel. induction fuel as [|fuel IH]; intros w Hw r.
  - subst r. cbn. rewrite !app_nil_r. auto.
  - subst r. cbn [flipFlopFsm]. rewrite Hbody by assumption.
    match goal with
    | |- context [flipFlopFsm _ _ _ _ _ _ fuel c ?w1] =>
        destruct (IH w1) as (Ho & Hph & Hdel)
    end.
    { cbn. destruct (_varBinds w); [congruence | discriminate]. }
    split; [exact Ho | split].
    + rewrite Hph. cbn [log bump store note new_count].
      unfold phases. rewrite !flat_map_app. cbn. rewrite <- !app_assoc.
      reflexivity.
    + rewrite Hdel. cbn [log bump store note new_count].
      unfold deliveries. rewrite !flat_map_app. cbn. now rewrite !app_nil_r.
Qed.

End RecursionFacts.

(* ------------------------------------------------------------------ *)
(** ** The dispatch engine: what a call logs and raises *)

Module ShapeFacts.
Import Indexer Engine TableFacts FuelFacts.

Lemma watch_raises raise_tuple value e :
  watch raise_tuple value = inl e -> engine_raised raise_tuple e.
Proof.
  unfold watch, engine_raised.
  destruct value as [ | v | x | len | | | ]; try discriminate.
  - destruct (is_NoSuchObjectError x); [discriminate | ].
    destruct (is_NoSuchInstanceError x); [intros [= <-]; auto 10 | ].
    destruct (is_EndOfMibViewError x); [discriminate | ].
    destruct (is_Exception x) eqn:E; [ | discriminate].
    intros [= <-]. do 7 right. eauto.
  - destruct (Nat.eqb len 3) eqn:E; [discriminate | ].
    apply Nat.eqb_neq in E. intros [= <-]. do 6 right. left. eauto.
Qed.

Lemma foreign_app (e : exc) (l1 l2 : list entry) :
  foreign e l2 -> foreign e (l1 ++ l2).
Proof.
  intros (He & r & s & i & vb & Hin). split; [assumption | ].
  exists r, s, i, vb. apply in_or_app. now right.
Qed.

Section Shape.
Variable tree : mibTree.
Variable mibBuilder : Indexer.mibBuilder.
Variable raise_tuple : exc -> exc.
Variable fsmTable : fsm.
Variable varBinds : list var_bind.
Variable cbFun : option continuation.
Hypothesis Htotal : total_table fsmTable = true.

Local Abbreviation expected := (expected tree fsmTable varBinds cbFun).
Local Abbreviation regular_from := (regular_from tree raise_tuple fsmTable varBinds cbFun).
Local Abbreviation regular := (regular tree raise_tuple fsmTable varBinds cbFun).

Lemma regular_here (o : outcome) (w : world) :
  (forall e, o = Raised e -> engine_raised raise_tuple e) ->
  regular_from w (o, w).
Proof.
  intros H. split; [reflexivity | split; [reflexivity | ]].
  exists []. cbn [fst snd]. rewrite app_nil_r. repeat split; auto.
Qed.

Lemma regular_after (w w1 : world) (l1 : list entry) (r : outcome * world) :
  self w1 = self w -> length (_varBinds w1) = length (_varBinds w) ->
  log w1 = log w ++ l1 -> Forall expected l1 ->
  regular_from w1 r -> regular_from w r.
Proof.
  intros Hself Hlen Hlog Hl1 (Hs & Hn & l & Hl & Hexp & Hraise).
  split; [congruence | split; [congruence | ]].
  exists (l1 ++ l). rewrite Hl, Hlog, <- app_assoc. split; [reflexivity | ].
  split; [now apply Forall_app | ].
  intros e He. destruct (Hraise e He) as [H | [H | H]]; auto.
  right. left. now apply foreign_app.
Qed.

Lemma deliver_regular (cb : continuation) (w : world) :
  cbFun = Some cb -> length (_varBinds w) = length varBinds ->
  regular_from w (deliver cb w).
Proof.
  intros Hcb Hlen. destruct cb as [ | does]; cbn [deliver].
  { apply regular_here. discriminate. }
  assert (Hexp : Forall expected [Delivered (_varBinds w)]).
  { constructor; [ | constructor]. cbn. split; [now exists does | exact Hlen]. }
  destruct (does (handed w) (_varBinds w)) as [e | ] eqn:Hd;
    (split; [reflexivity | split; [reflexivity | ]]);
    exists [Delivered (_varBinds w)]; cbn [fst snd];
    (split; [reflexivity | split; [exact Hexp | ]]).
  - intros e' [= <-]. right. right. now exists does, (handed w), (_varBinds w).
  - discriminate.
Qed.

Lemma cbFun_regular rec round vb idx context w :
  regular rec ->
  (ctx_varBinds context = true -> resolved fsmTable context) ->
  ctx_idx context = Some idx -> idx < length varBinds ->
  length (_varBinds w) = length varBinds ->
  regular_from w (_cbFun raise_tuple varBinds rec round (Some vb) context w).
Proof.
  intros Hrec Hctx Hidx Hlt Hlen. unfold _cbFun. rewrite Hidx.
  destruct (ctx_varBinds context) eqn:Hvb; cbn [negb].
  2:{ apply regular_here. intros e [= <-]. unfold engine_raised. auto. }
  destruct vb as [name value].
  destruct (watch raise_tuple value) as [e | value'] eqn:Hwatch.
  { apply regular_here. intros e' [= <-]. now apply watch_raises in Hwatch. }
  destruct (length (_varBinds w) <=? idx) eqn:Hle.
  { apply Nat.leb_le in Hle. lia. }
  set (w2 := bump round (store idx (name, value') w)).
  assert (Hstep : forall r, regular_from w2 r -> regular_from w r).
  { intros r Hr.
    apply regular_after with (w1 := w2) (l1 := [Stored idx (name, value')]);
      [reflexivity | cbn; apply BatchFacts.set_nth_length | reflexivity
       | constructor; [exact Hlt | constructor] | exact Hr]. }
  destruct (count round w2 <? length varBinds).
  - apply Hstep, regular_here. discriminate.
  - apply Hstep, Hrec.
    + exact Hvb.
    + destruct (Hctx eq_refl) as (s & st & s' & Hs & Hst & Hnew).
      exists s, st, s'. auto.
    + intros ->. simpl in Hlt. lia.
    + unfold w2. cbn. now rewrite BatchFacts.set_nth_length.
Qed.

Lemma skipn_cons (A : Type) (l : list A) :
  forall idx x rest,
  skipn idx l = x :: rest ->
  nth_error l idx = Some x /\ skipn (S idx) l = rest /\ idx < length l.
Proof.
  induction l as [|y l IH]; intros [|idx] x rest H; simpl in *; try discriminate.
  - injection H as -> ->. repeat split; auto. lia.
  - destruct (IH idx x rest H) as (H1 & H2 & H3). repeat split; auto. lia.
Qed.

Lemma dispatch_regular rec round context state status rest :
  regular rec ->
  (ctx_varBinds context = true -> ctx_state context <> None) ->
  has_method tree state = true -> state <> STATE_STOP ->
  In state (map snd fsmTable) ->
  forall idx w,
    skipn idx varBinds = rest ->
    length (_varBinds w) = length varBinds ->
    regular_from w (dispatch tree raise_tuple varBinds rec round context
                             state status idx rest w).
Proof.
  intros Hrec Hctx Hhas Hstop Htarget.
  assert (Hround : resolved fsmTable
                     (mkContext (Some state) (Some status) true None)).
  { destruct (@newState_next fsmTable Htotal state status Htarget Hstop) as [s Hs].
    exists state, status, s. auto. }
  induction rest as [|varBind rest IH]; intros idx w Hskip Hlen; cbn [dispatch].
  - apply regular_here. discriminate.
  - destruct (skipn_cons _ _ Hskip) as (Hnth & Hskip' & Hlt).
    set (a := method tree (calls w) state idx varBind status).
    set (w1 := note (Called round state idx varBind a) w).
    assert (Hstep : forall r, regular_from w1 r -> regular_from w r).
    { intros r Hr.
      apply regular_after with (w1 := w1) (l1 := [Called round state idx varBind a]);
        try reflexivity; [ | exact Hr].
      constructor; [ | constructor]. cbn. auto. }
    assert (Hfailed : forall e w',
              length (_varBinds w') = length varBinds ->
              regular_from w'
                (_cbFun raise_tuple varBinds rec round
                        (Some (fst varBind, ExcInfo e))
                        (mkContext (ctx_state context) (Some STATUS_ERROR)
                                   (ctx_varBinds context) (Some idx)) w')).
    { intros e w' Hlen'. apply cbFun_regular with (idx := idx); auto.
      cbn. intros Hvb.
      destruct (ctx_state context) as [s | ] eqn:Hs; [ | now destruct (Hctx Hvb)].
      destruct (@newState_error fsmTable Htotal s) as [s' Hs'].
      exists s, STATUS_ERROR, s'. auto. }
    assert (Hcalled :
      regular_from w1
        match a with
        | Defer => (Returned, w1)
        | Reply vb => _cbFun raise_tuple varBinds rec round (Some vb)
                        (mkContext (Some state) (Some status) true (Some idx)) w1
        | Raise e => (Raised e, w1)
        end
      \/ exists e, a = Raise e).
    { destruct a as [ | vb | e]; [left | left | right; eauto].
      - apply regular_here. discriminate.
      - apply cbFun_regular with (idx := idx); auto. }
    destruct Hcalled as [Hcalled | [e Ha]].
    + destruct (match a with Defer => _ | Reply _ => _ | Raise _ => _ end)
        as [[ | e | ] w2].
      * apply Hstep.
        destruct Hcalled as (Hs2 & Hn2 & l2 & Hl2 & Hexp2 & _).
        cbn [fst snd] in *.
        apply regular_after with (w1 := w2) (l1 := l2); auto.
        apply IH; [assumption | ]. rewrite Hn2. exact Hlen.
      * destruct (is_SmiError e) eqn:He; [ | now apply Hstep].
        apply Hstep.
        destruct Hcalled as (Hs2 & Hn2 & l2 & Hl2 & Hexp2 & _).
        cbn [fst snd] in *.
        apply regular_after with (w1 := w2) (l1 := l2); auto.
        apply Hfailed. rewrite Hn2. exact Hlen.
      * now apply Hstep.
    + rewrite Ha. fold w1. subst a.
      destruct (is_SmiError e) eqn:He.
      * apply Hstep, Hfailed. exact Hlen.
      * split; [reflexivity | split; [reflexivity | ]].
        exists [Called round state idx varBind (Raise e)].
        cbn [fst snd]. split; [unfold w1; now rewrite Ha | ].
        split.
        -- constructor; [ | constructor]. cbn. auto.
        -- intros e' [= <-]. right. left. split; [assumption | ].
           exists round, state, idx, varBind. now left.
Qed.
End Shape.

Section Shape2.
Variable tree : mibTree.
Variable mibBuilder : Indexer.mibBuilder.
Variable raise_tuple : exc -> exc.
Variable fsmTable : fsm.
Variable varBinds : list var_bind.
Variable cbFun : option continuation.
Hypothesis Htotal : total_table fsmTable = true.

Local Abbreviation expected := (expected tree fsmTable varBinds cbFun).
Local Abbreviation regular_from := (regular_from tree raise_tuple fsmTable varBinds cbFun).
Local Abbreviation regular := (regular tree raise_tuple fsmTable varBinds cbFun).

Lemma regular_counts (w : world) (c : list nat) (r : outcome * world) :
  regular_from (mkWorld (self w) (_varBinds w) c (log w)) r -> regular_from w r.
Proof. intros H. exact H. Qed.

Lemma body_regular rec : regular rec ->
  regular (flipFlopFsm_body tree mibBuilder raise_tuple fsmTable varBinds cbFun rec).
Proof.
  intros Hrec context w Hvb Hres Hne Hlen.
  apply (@regular_counts w (counts w ++ [0])).
  change (mkWorld (self w) (_varBinds w) (counts w ++ [0]) (log w))
    with (new_count w).
  unfold flipFlopFsm_body.
  destruct cbFun as [cb | ] eqn:Hcb.
  2:{ apply (@regular_here tree raise_tuple fsmTable varBinds None).
      intros e [= <-]. unfold engine_raised. auto. }
  destruct Hres as (s & st & s' & Hs & Hst & Hnew).
  unfold enter. rewrite Hs, Hst, Hvb, Hnew.
  destruct (state_eqb s' STATE_STOP) eqn:Hstop.
  { now apply deliver_regular. }
  assert (Hbatch : match varBinds with [] => true | _ :: _ => false end = false).
  { destruct varBinds; [congruence | reflexivity]. }
  rewrite Hbatch, andb_false_r.
  destruct (has_method tree s') eqn:Hhas; cbn [negb].
  2:{ apply regular_here. intros e [= <-]. unfold engine_raised. auto 10. }
  apply dispatch_regular; auto.
  - intros _. congruence.
  - intros ->. discriminate.
  - now apply newState_target in Hnew.
Qed.

Lemma flipFlopFsm_regular (fuel : nat) :
  regular (flipFlopFsm tree mibBuilder raise_tuple fsmTable varBinds cbFun fuel).
Proof.
  induction fuel as [|fuel IH]; cbn [flipFlopFsm].
  - intros context w _ _ _ _. apply regular_here. discriminate.
  - now apply body_regular.
Qed.

(** A call made by the application: after the MIB was indexed. *)
Lemma call_regular (fuel : nat) (cb : continuation) (w : world) :
  cbFun = Some cb ->
  regular_from
    (mkWorld (snd (indexMib mibBuilder (self w))) varBinds (counts w ++ [0])
             (log w ++ map Tree (snd (fst (indexMib mibBuilder (self w))))))
    (flipFlopFsm tree mibBuilder raise_tuple fsmTable varBinds cbFun (S fuel)
                 no_context w)
  /\ (fst (fst (indexMib mibBuilder (self w))) <> Returned ->
      flipFlopFsm tree mibBuilder raise_tuple fsmTable varBinds cbFun (S fuel)
                  no_context w
      = (fst (fst (indexMib mibBuilder (self w))),
         mkWorld (snd (indexMib mibBuilder (self w))) varBinds (counts w ++ [0])
                 (log w ++ map Tree (snd (fst (indexMib mibBuilder (self w))))))).
Proof.
  intros Hcb. cbn [flipFlopFsm]. unfold flipFlopFsm_body. rewrite Hcb.
  unfold enter. cbn [no_context ctx_state ctx_status ctx_varBinds].
  change (self (new_count w)) with (self w).
  pose proof (@indexMib_ends mibBuilder (self w)) as Hends.
  destruct (indexMib mibBuilder (self w)) as [[o ops] ctl] eqn:Hindex.
  cbn [fst snd new_count counts log] in *.
  set (w1 := mkWorld ctl varBinds (counts w ++ [0]) (log w ++ map Tree ops)).
  destruct o as [ | e | ]; [ | | congruence].
  2:{ split; [ | reflexivity].
      apply regular_here. intros e' [= <-].
      apply IndexerFacts.indexMib_raises in Hindex. unfold engine_raised. tauto. }
  split; [ | congruence].
  destruct (@newState_start fsmTable Htotal) as [s' Hnew]. rewrite Hnew.
  destruct (state_eqb s' STATE_STOP) eqn:Hstop.
  { now apply deliver_regular. }
  destruct (truthy cb && _).
  { unfold _cbFun. cbn [no_context ctx_varBinds negb].
    apply regular_here. intros e [= <-]. unfold engine_raised. auto. }
  destruct (has_method tree s') eqn:Hhas; cbn [negb].
  2:{ apply regular_here. intros e [= <-]. unfold engine_raised. auto 10. }
  rewrite <- Hcb.
  apply dispatch_regular; auto.
  - apply flipFlopFsm_regular.
  - discriminate.
  - intros ->. discriminate.
  - now apply newState_target in Hnew.
Qed.

Lemma complete_regular (fuel : nat) (ev : event) (w : world) :
  honest fsmTable varBinds ev ->
  length (_varBinds w) = length varBinds ->
  regular_from w (complete tree mibBuilder raise_tuple fsmTable varBinds cbFun
                           fuel ev w).
Proof.
  destruct ev as [round idx vb state status]. intros (Hidx & Hin & Hstop) Hlen.
  cbn [complete]. apply cbFun_regular with (idx := idx); auto.
  - apply flipFlopFsm_regular.
  - intros _. destruct (@newState_next fsmTable Htotal state status Hin Hstop)
      as [s Hs].
    exists state, status, s. auto.
Qed.

Lemma completions_regular (fuel : nat) (evs : list event) :
  Forall (honest fsmTable varBinds) evs ->
  forall w,
    length (_varBinds w) = length varBinds ->
    regular_from w
      (Returned,
       completions tree mibBuilder raise_tuple fsmTable varBinds cbFun fuel evs w).
Proof.
  induction 1 as [|ev evs Hev Hevs IH]; intros w Hlen; cbn [completions fold_left].
  - apply regular_here. discriminate.
  - destruct (@complete_regular fuel ev w Hev Hlen)
      as (Hs & Hn & l & Hl & Hexp & _).
    apply regular_after with (w1 := snd (complete tree mibBuilder raise_tuple
                                  fsmTable varBinds cbFun fuel ev w)) (l1 := l);
      auto.
    apply IH. congruence.
Qed.

(** A call, then the completions reported afterwards. *)
Lemma run_regular (fuel fuel' : nat) (cb : continuation) (evs : list event) (w : world) :
  cbFun = Some cb ->
  Forall (honest fsmTable varBinds) evs ->
  regular_from
    (mkWorld (snd (indexMib mibBuilder (self w))) varBinds (counts w ++ [0])
             (log w ++ map Tree (snd (fst (indexMib mibBuilder (self w))))))
    (Returned,
     completions tree mibBuilder raise_tuple fsmTable varBinds cbFun fuel' evs
       (snd (flipFlopFsm tree mibBuilder raise_tuple fsmTable varBinds cbFun
                         (S fuel) no_context w))).
Proof.
  intros Hcb Hevs.
  destruct (proj1 (@call_regular fuel cb w Hcb)) as (Hs & Hn & l & Hl & Hexp & _).
  eapply regular_after; [exact Hs | exact Hn | exact Hl | exact Hexp | ].
  apply completions_regular; [assumption | ]. rewrite Hn. reflexivity.
Qed.
End Shape2.

Lemma in_tree_ops (ops : list treeop) (l : list entry) (e : entry) :
  (forall op, e <> Tree op) -> In e (map Tree ops ++ l) -> In e l.
Proof.
  intros He Hin. apply in_app_or in Hin. destruct Hin as [Hin | Hin]; [ | assumption].
  apply in_map_iff in Hin. destruct Hin as (op & <- & _). now destruct (He op).
Qed.

(** X4.  Every phase method is called for an input binding.  In a call
    followed by any completions reported as the Managed Objects report
    them, each call of a phase method is made with the binding the
    application passed at that index (not with what an earlier phase
    stored there), for a phase that the table leads to, other than
    STOP, and that the tree has. *)
Theorem phase_methods_get_input_bindings
    tree bld raise_tuple (fsmTable : fsm) (varBinds : list var_bind) (cb : continuation)
    (fuel fuel' : nat) (evs : list event) (w0 : world) (l : list entry) :
  total_table fsmTable = true ->
  Forall (honest fsmTable varBinds) evs ->
  let called := snd (flipFlopFsm tree bld raise_tuple fsmTable varBinds (Some cb)
                                 (S fuel) no_context w0) in
  let w := completions tree bld raise_tuple fsmTable varBinds (Some cb) fuel'
                       evs called in
  log w = log w0 ++ l ->
  forall round state idx varBind a,
    In (Called round state idx varBind a) l ->
    nth_error varBinds idx = Some varBind
    /\ has_method tree state = true
    /\ state <> STATE_STOP
    /\ In state (map snd fsmTable).
Proof.
  intros Htotal Hevs called w Hlog round state idx varBind a Hin.
  destruct (@run_regular tree bld raise_tuple fsmTable varBinds (Some cb) Htotal
              fuel fuel' cb evs w0 eq_refl Hevs) as (_ & _ & l' & Hl' & Hexp & _).
  cbn [fst snd log] in Hl'. fold called in Hl'. fold w in Hl'.
  rewrite Hlog, <- app_assoc in Hl'. apply app_inv_head in Hl'. subst l.
  apply in_tree_ops in Hin; [ | discriminate].
  rewrite Forall_forall in Hexp. exact (Hexp _ Hin).
Qed.

(** X5.  A call indexes the MIB once, before anything else.  The
    controller a call leaves, also after the completions reported later,
    is the one [__indexMib] left at the start of the call; the tree
    operations of that indexing come first in the log and no round and
    no completion registers or unregisters a subtree afterwards. *)
Theorem indexing_once_per_call
    tree bld raise_tuple (fsmTable : fsm) (varBinds : list var_bind) (cb : continuation)
    (fuel fuel' : nat) (evs : list event) (w0 : world) :
  total_table fsmTable = true ->
  Forall (honest fsmTable varBinds) evs ->
  let called := snd (flipFlopFsm tree bld raise_tuple fsmTable varBinds (Some cb)
                                 (S fuel) no_context w0) in
  let w := completions tree bld raise_tuple fsmTable varBinds (Some cb) fuel'
                       evs called in
  self called = snd (indexMib bld (self w0))
  /\ self w = snd (indexMib bld (self w0))
  /\ exists l,
       log w = log w0 ++ map Tree (snd (fst (indexMib bld (self w0)))) ++ l
       /\ forall op, ~ In (Tree op) l.
Proof.
  intros Htotal Hevs called w.
  destruct (@run_regular tree bld raise_tuple fsmTable varBinds (Some cb) Htotal
              fuel fuel' cb evs w0 eq_refl Hevs) as (Hself & _ & l' & Hl' & Hexp & _).
  destruct (proj1 (@call_regular tree bld raise_tuple fsmTable varBinds (Some cb)
                     Htotal fuel cb w0 eq_refl)) as (Hself0 & _).
  cbn [fst snd log self] in *. fold called in Hl', Hself, Hself0. fold w in Hl', Hself.
  split; [exact Hself0 | split; [exact Hself | ]].
  exists l'. rewrite <- app_assoc in Hl'. split; [exact Hl' | ].
  intros op Hin. rewrite Forall_forall in Hexp. exact (Hexp _ Hin).
Qed.

(** X6.  Without a continuation.  When the context has no ['cbFun'] the
    call raises [KeyError] at once: the MIB is not indexed and nothing
    is logged.  When ['cbFun'] is there but falsy, the batch goes
    through its rounds and no batch is ever delivered, neither by the
    call nor by a completion reported later. *)
Theorem no_delivery_without_continuation
    tree bld raise_tuple (fsmTable : fsm) (varBinds : list var_bind)
    (fuel fuel' : nat) (evs : list event) (w0 : world) :
  (forall context,
      flipFlopFsm tree bld raise_tuple fsmTable varBinds None (S fuel) context w0
      = (Raised (KeyError "'cbFun'"), new_count w0))
  /\ (total_table fsmTable = true ->
      Forall (honest fsmTable varBinds) evs ->
      let called := snd (flipFlopFsm tree bld raise_tuple fsmTable varBinds
                                     (Some Falsy) (S fuel) no_context w0) in
      let w := completions tree bld raise_tuple fsmTable varBinds (Some Falsy)
                           fuel' evs called in
      forall l, log w = log w0 ++ l -> deliveries l = []).
Proof.
  split; [reflexivity | ].
  intros Htotal Hevs called w l Hlog.
  destruct (@run_regular tree bld raise_tuple fsmTable varBinds (Some Falsy) Htotal
              fuel fuel' Falsy evs w0 eq_refl Hevs) as (_ & _ & l' & Hl' & Hexp & _).
  cbn [fst snd log] in Hl'. fold called in Hl'. fold w in Hl'.
  rewrite Hlog, <- app_assoc in Hl'. apply app_inv_head in Hl'. subst l.
  unfold deliveries. rewrite flat_map_app.
  assert (H1 : flat_map (fun e => match e with Delivered b => [b] | _ => [] end)
                        (map Tree (snd (fst (indexMib bld (self w0))))) = []).
  { generalize (snd (fst (indexMib bld (self w0)))). intros ops.
    induction ops; simpl; auto. }
  rewrite H1. cbn [app]. clear - Hexp.
  induction Hexp as [|x l' Hx _ IH]; [reflexivity | ].
  cbn [flat_map]. rewrite IH.
  destruct x; try reflexivity. cbn in Hx. destruct Hx as [[does Hx] _].
  discriminate.
Qed.


Lemma indexMib_again bld self ops ctl :
  indexMib bld self = (Returned, ops, ctl) -> indexMib bld ctl = (Returned, [], ctl).
Proof.
  unfold indexMib at 1.
  destruct (Z.eqb (lastBuildId self) (builder_lastBuildId bld)) eqn:E.
  - intros [= _ <-]. unfold indexMib. now rewrite E.
  - destruct (attach bld (collect bld)) as [[e | ] [ops' syms]]; [discriminate | ].
    intros [= _ <-]. unfold indexMib. cbn [lastBuildId]. now rewrite Z.eqb_refl.
Qed.

(** X8.  With the module set unchanged, only the first call touches the
    tree.  After a call that indexed the MIB without error (and after
    the completions reported for it), the controller holds the build
    version of the module loader: a second call, whatever its table and
    batch, leaves the controller as it is and registers or unregisters
    nothing. *)
Theorem unchanged_modules_are_indexed_once
    tree bld raise_tuple (fsmTable fsmTable' : fsm)
    (varBinds varBinds' : list var_bind) (cb cb' : continuation)
    (fuel fuel' fuel'' : nat) (evs : list event) (w0 : world)
    (ops : list treeop) (ctl : controller) :
  total_table fsmTable = true -> total_table fsmTable' = true ->
  Forall (honest fsmTable varBinds) evs ->
  indexMib bld (self w0) = (Returned, ops, ctl) ->
  let w1 := completions tree bld raise_tuple fsmTable varBinds (Some cb) fuel' evs
              (snd (flipFlopFsm tree bld raise_tuple fsmTable varBinds (Some cb)
                                (S fuel) no_context w0)) in
  let w2 := snd (flipFlopFsm tree bld raise_tuple fsmTable' varBinds' (Some cb')
                             (S fuel'') no_context w1) in
  self w1 = ctl /\ self w2 = ctl
  /\ exists l, log w2 = log w1 ++ l /\ forall op, ~ In (Tree op) l.
Proof.
  intros Htotal Htotal' Hevs Hindex w1 w2.
  destruct (@run_regular tree bld raise_tuple fsmTable varBinds (Some cb) Htotal
              fuel fuel' cb evs w0 eq_refl Hevs) as (Hself & _).
  cbn [fst snd self] in Hself. fold w1 in Hself. rewrite Hindex in Hself.
  cbn [snd] in Hself.
  destruct (proj1 (@call_regular tree bld raise_tuple fsmTable' varBinds' (Some cb')
                     Htotal' fuel'' cb' w1 eq_refl))
    as (Hself2 & _ & l & Hl & Hexp & _).
  fold w2 in Hself2, Hl. rewrite Hself in Hself2, Hl.
  rewrite (indexMib_again _ _ Hindex) in Hself2, Hl.
  cbn [fst snd self log map] in Hself2, Hl. rewrite app_nil_r in Hl.
  split; [exact Hself | split; [exact Hself2 | ]].
  exists l. split; [exact Hl | ].
  intros op Hin. rewrite Forall_forall in Hexp. exact (Hexp _ Hin).
Qed.

End ShapeFacts.

(* ------------------------------------------------------------------ *)
(** ** The dispatch engine: the completion barrier *)

Module BarrierFacts.
Import Indexer Engine RecursionFacts.

Section Barrier.
Variable tree : mibTree.
Variable mibBuilder : Indexer.mibBuilder.
Variable raise_tuple : exc -> exc.
Variable fsmTable : fsm.
Variable varBinds : list var_bind.
Variable cbFun : option continuation.

Lemma complete_step (fuel round : nat) (ev : event) (w : world) :
  accepted raise_tuple (length (_varBinds w)) round ev ->
  round < length (counts w) ->
  exists w1,
    log w1 = log w ++ [stored raise_tuple ev]
    /\ self w1 = self w
    /\ length (_varBinds w1) = length (_varBinds w)
    /\ length (counts w1) = length (counts w)
    /\ count round w1 = S (count round w)
    /\ complete tree mibBuilder raise_tuple fsmTable varBinds cbFun fuel ev w
       = if S (count round w) <? length varBinds then (Returned, w1)
         else match ev with
              | Completion _ _ _ state status =>
                  flipFlopFsm tree mibBuilder raise_tuple fsmTable varBinds cbFun
                              fuel (mkContext (Some state) (Some status) true None)
                              w1
              end.
Proof.
  destruct ev as [r idx [name value] state status].
  intros (-> & Hidx & v & Hv) Hround. cbn [fst snd] in Hv.
  exists (bump round (store idx (name, v) w)).
  assert (Hcount : count round (bump round (store idx (name, v) w))
                   = S (count round w)).
  { now rewrite RaiseFacts.count_bump_exact. }
  repeat split.
  - cbn. unfold taken. cbn [fst snd]. now rewrite Hv.
  - cbn. apply BatchFacts.set_nth_length.
  - cbn. apply BatchFacts.set_nth_length.
  - exact Hcount.
  - cbn [complete]. unfold _cbFun. cbn [ctx_varBinds ctx_idx negb]. rewrite Hv.
    apply Nat.leb_gt in Hidx. rewrite Hidx, Hcount. reflexivity.
Qed.
End Barrier.

(** X9.  The barrier counts completions.  Completions that [_cbFun]
    takes in for a round only store their bindings and add one each to
    the count of the round, as long as the count stays below the size
    of the batch: no phase method is called and nothing is delivered,
    whether the completions are for different bindings or not.  Every
    completion that finds the count at the size of the batch less one,
    or beyond, starts the next call of [flipFlopFsm] with the state and
    status it was reported with. *)
Theorem barrier_counts_completions
    tree bld raise_tuple (fsmTable : fsm) (varBinds : list var_bind)
    (cbFun : option continuation) (fuel round : nat) (evs : list event) (w : world) :
  round < length (counts w) ->
  Forall (accepted raise_tuple (length (_varBinds w)) round) evs ->
  (count round w + length evs < length varBinds ->
   let w' := completions tree bld raise_tuple fsmTable varBinds cbFun fuel evs w in
   log w' = log w ++ map (stored raise_tuple) evs
   /\ count round w' = count round w + length evs
   /\ self w' = self w)
  /\ (forall idx varBind state status,
        In (Completion round idx varBind state status) evs ->
        length varBinds <= S (count round w) ->
        exists w1,
          log w1 = log w ++ [stored raise_tuple
                               (Completion round idx varBind state status)]
          /\ complete tree bld raise_tuple fsmTable varBinds cbFun fuel
                      (Completion round idx varBind state status) w
             = flipFlopFsm tree bld raise_tuple fsmTable varBinds cbFun fuel
                           (mkContext (Some state) (Some status) true None) w1).
Proof.
  intros Hround Hevs. split.
  - revert w Hround Hevs.
    induction evs as [|ev evs IH]; intros w Hround Hevs Hcount w'.
    + subst w'. cbn. rewrite app_nil_r. auto.
    + apply Forall_cons_iff in Hevs. destruct Hevs as [Hev Hevs].
      destruct (@complete_step tree bld raise_tuple fsmTable varBinds cbFun fuel
                  round ev w Hev Hround)
        as (w1 & Hlog & Hself & Hlen & Hcounts & Hc & Hcomplete).
      cbn [length] in Hcount.
      assert (Hlt : (S (count round w) <? length varBinds) = true).
      { apply Nat.ltb_lt. lia. }
      rewrite Hlt in Hcomplete.
      subst w'. cbn [completions fold_left]. rewrite Hcomplete. cbn [snd].
      destruct (IH w1) as (Hlog' & Hc' & Hself').
      * now rewrite Hcounts.
      * now rewrite Hlen.
      * lia.
      * unfold completions in *. rewrite Hlog', Hc', Hself', Hlog, Hc.
        cbn [map length]. rewrite <- app_assoc. repeat split; auto; lia.
  - intros idx varBind state status Hin Hfull.
    rewrite Forall_forall in Hevs.
    destruct (@complete_step tree bld raise_tuple fsmTable varBinds cbFun fuel
                round _ w (Hevs _ Hin) Hround)
      as (w1 & Hlog & _ & _ & _ & _ & Hcomplete).
    apply Nat.ltb_ge in Hfull. rewrite Hfull in Hcomplete.
    exists w1. split; [exact Hlog | exact Hcomplete].
Qed.

End BarrierFacts.

(* ------------------------------------------------------------------ *)
(** ** The dispatch engine: a batch that is answered at once *)

Module AnsweringFacts.
Import Indexer Engine RecursionFacts ShapeFacts.

Lemma set_nth_app (A : Type) (done todo : list A) (x y : A) :
  set_nth (length done) x (done ++ y :: todo) = done ++ x :: todo.
Proof.
  unfold set_nth. rewrite firstn_app, firstn_all, Nat.sub_diag. cbn [firstn].
  rewrite app_nil_r, skipn_app, skipn_all, Nat.sub_diag. reflexivity.
Qed.

Lemma phases_app (l1 l2 : list entry) : phases (l1 ++ l2) = phases l1 ++ phases l2.
Proof. unfold phases. apply flat_map_app. Qed.

Lemma phases_tree (ops : list treeop) : phases (map Tree ops) = [].
Proof. induction ops; simpl; auto. Qed.

Lemma deliveries_tree (ops : list treeop) : deliveries (map Tree ops) = [].
Proof. induction ops; simpl; auto. Qed.

Lemma handed_deliveries (w : world) : handed w = length (deliveries (log w)).
Proof.
  unfold handed. induction (log w) as [|x l IH]; [reflexivity | ].
  destruct x; cbn; auto.
Qed.

Section Answering.
Variable tree : mibTree.
Variable mibBuilder : Indexer.mibBuilder.
Variable raise_tuple : exc -> exc.
Variable fsmTable : fsm.
Variable varBinds : list var_bind.
Variable answer : fsm_state -> nat -> var_bind -> var_bind.
Hypothesis Hanswer :
  forall n state idx varBind status,
    method tree n state idx varBind status = Reply (answer state idx varBind).
Hypothesis Hvalue :
  forall state idx varBind,
    exists v, watch raise_tuple (snd (answer state idx varBind)) = inr v.

Lemma dispatch_answering rec round context state status rest :
  forall idx w done todo,
    skipn idx varBinds = rest -> rest <> [] ->
    round < length (counts w) -> count round w = idx ->
    _varBinds w = done ++ todo -> length done = idx ->
    length todo = length rest ->
    exists w1,
      _varBinds w1 = done ++ replies raise_tuple (answer state) idx rest
      /\ self w1 = self w
      /\ length (counts w1) = length (counts w)
      /\ phases (log w1) = phases (log w) ++ repeat state (length rest)
      /\ deliveries (log w1) = deliveries (log w)
      /\ ((forall e,
              fst (rec (mkContext (Some state) (Some status) true None) w1)
              = Raised e -> is_SmiError e = false) ->
          dispatch tree raise_tuple varBinds rec round context state status
                   idx rest w
          = rec (mkContext (Some state) (Some status) true None) w1).
Proof.
  induction rest as [|varBind rest IH];
    intros idx w done todo Hskip Hne Hround Hcount Hlist Hdone Htodo;
    [congruence | ].
  destruct todo as [|y todo]; [discriminate | ].
  cbn [length] in Htodo. injection Htodo as Htodo.
  destruct (skipn_cons _ _ Hskip) as (Hnth & Hskip' & Hlt).
  assert (Hn : length varBinds = idx + S (length rest)).
  { rewrite <- (firstn_skipn idx varBinds) at 1.
    rewrite length_app, Hskip, length_firstn. cbn [length]. lia. }
  cbn [dispatch]. rewrite Hanswer.
  set (w0 := note (Called round state idx varBind
                          (Reply (answer state idx varBind))) w).
  destruct (Hvalue state idx varBind) as [v Hv].
  set (x := taken raise_tuple (answer state idx varBind)).
  set (w2 := bump round (store idx x w0)).
  assert (Hcb : forall rec',
            _cbFun raise_tuple varBinds rec' round
                   (Some (answer state idx varBind))
                   (mkContext (Some state) (Some status) true (Some idx)) w0
            = if count round w2 <? length varBinds then (Returned, w2)
              else rec' (mkContext (Some state) (Some status) true None) w2).
  { intros rec'. unfold _cbFun. cbn [ctx_varBinds ctx_idx negb].
    unfold w2, x, taken. destruct (answer state idx varBind) as [name value].
    cbn [fst snd] in *. rewrite Hv.
    assert (Hle : (length (_varBinds w0) <=? idx) = false).
    { apply Nat.leb_gt. cbn. rewrite Hlist, length_app. cbn [length]. lia. }
    rewrite Hle. reflexivity. }
  assert (Hcount2 : count round w2 = S idx).
  { unfold w2. rewrite RaiseFacts.count_bump_exact; [ | exact Hround].
    cbn. change (nth round (counts w) 0) with (count round w). now rewrite Hcount. }
  assert (Hlist2 : _varBinds w2 = (done ++ [x]) ++ todo).
  { cbn. rewrite Hlist, <- Hdone, set_nth_app, <- app_assoc. reflexivity. }
  assert (Hphases2 : phases (log w2) = phases (log w) ++ [state]).
  { cbn. rewrite !phases_app. cbn. now rewrite app_nil_r. }
  assert (Hdel2 : deliveries (log w2) = deliveries (log w)).
  { cbn. rewrite !ContinuationFacts.deliveries_app. cbn. now rewrite !app_nil_r. }
  rewrite Hcb, Hcount2.
  destruct rest as [|varBind2 rest2].
  - exists w2. cbn [replies length repeat].
    rewrite Hlist2, <- app_assoc. destruct todo; [ | discriminate].
    repeat split; auto.
    + cbn. apply BatchFacts.set_nth_length.
    + assert (Hge : (S idx <? length varBinds) = false).
      { apply Nat.ltb_ge. cbn [length] in Hn. lia. }
      rewrite Hge. intros Hret.
      destruct (rec _ w2) as [[ | e | ] w3]; cbn [fst] in Hret; try reflexivity.
      now rewrite (Hret e eq_refl).
  - assert (Hlt2 : (S idx <? length varBinds) = true).
    { apply Nat.ltb_lt. cbn [length] in Hn. lia. }
    rewrite Hlt2.
    destruct (IH (S idx) w2 (done ++ [x]) todo) as
        (w1 & Hl1 & Hs1 & Hc1 & Hp1 & Hd1 & Hrun); auto.
    + discriminate.
    + unfold w2. cbn. now rewrite BatchFacts.set_nth_length.
    + rewrite length_app. cbn. lia.
    + exists w1. rewrite Hl1, Hp1, Hd1, Hphases2, Hdel2, <- !app_assoc.
      repeat split; auto.
      rewrite Hc1. unfold w2. cbn. apply BatchFacts.set_nth_length.
Qed.


Hypothesis Hbatch : varBinds <> [].
Variable does : nat -> list var_bind -> option exc.
Hypothesis Hdoes : discreet (Some (Callable does)).

(** What follows [enter] in [flipFlopFsm_body]. *)
Lemma round_answering rec round context state w1 w :
  counts w1 = counts w ++ [0] -> round = length (counts w) ->
  length (_varBinds w1) = length varBinds ->
  forall s,
    newState fsmTable state STATUS_OK = inr s ->
    state_eqb s STATE_STOP = false ->
    has_method tree s = true ->
    exists w2,
      _varBinds w2 = replies raise_tuple (answer s) 0 varBinds
      /\ self w2 = self w1
      /\ phases (log w2) = phases (log w1) ++ repeat s (length varBinds)
      /\ deliveries (log w2) = deliveries (log w1)
      /\ ((forall e,
              fst (rec (mkContext (Some s) (Some STATUS_OK) true None) w2)
              = Raised e -> is_SmiError e = false) ->
          match newState fsmTable state STATUS_OK with
          | inl e => (Raised e, w1)
          | inr state =>
              if state_eqb state STATE_STOP then
                deliver (Callable does) w1
              else if truthy (Callable does)
                      && match varBinds with [] => true | _ :: _ => false end then
                _cbFun raise_tuple varBinds rec round None context w1
              else if negb (has_method tree state) then
                (Raised (SmiError "Unsupported state handler"), w1)
              else
                dispatch tree raise_tuple varBinds rec round context state
                         STATUS_OK 0 varBinds w1
          end
          = rec (mkContext (Some s) (Some STATUS_OK) true None) w2).
Proof.
  intros Hcounts -> Hlen s Hnew Hstop Hhas.
  destruct (@dispatch_answering rec (length (counts w)) context s STATUS_OK
              varBinds 0 w1 [] (_varBinds w1))
    as (w2 & Hl2 & Hs2 & _ & Hp2 & Hd2 & Hrun); auto.
  - rewrite Hcounts, length_app. cbn. lia.
  - unfold count. rewrite Hcounts. apply nth_middle.
  - exists w2. repeat split; auto.
    intros Hret. rewrite Hnew, Hstop, Hhas. cbn [negb andb truthy].
    destruct varBinds; [congruence | ]. now apply Hrun.
Qed.

Lemma rounds_answering (k : nat) :
  forall state path,
    ok_path fsmTable k state = Some path ->
    (forall s, In s path -> has_method tree s = true) ->
    forall fuel w,
      length path < fuel ->
      length (_varBinds w) = length varBinds ->
      let r := flipFlopFsm tree mibBuilder raise_tuple fsmTable varBinds
                           (Some (Callable does)) fuel
                           (mkContext (Some state) (Some STATUS_OK) true None) w in
      let batch := fold_left (fun _ s => replies raise_tuple (answer s) 0 varBinds)
                             path (_varBinds w) in
      fst r = match does (handed w) batch with
              | None => Returned
              | Some e => Raised e
              end
      /\ self (snd r) = self w
      /\ phases (log (snd r))
         = phases (log w) ++ flat_map (fun s => repeat s (length varBinds)) path
      /\ deliveries (log (snd r)) = deliveries (log w) ++ [batch].
Proof.
  induction k as [|k IH]; intros state path Hpath Hhas fuel w Hfuel Hlen;
    [discriminate | ].
  cbn [ok_path] in Hpath.
  destruct (newState fsmTable state STATUS_OK) as [e | s] eqn:Hnew; [discriminate | ].
  destruct fuel as [|fuel]; [lia | ].
  cbn [flipFlopFsm]. unfold flipFlopFsm_body, enter.
  cbn [ctx_state ctx_status ctx_varBinds].
  destruct (state_eqb s STATE_STOP) eqn:Hstop.
  - injection Hpath as <-. rewrite Hnew, Hstop. cbn [deliver fold_left].
    change (handed (new_count w)) with (handed w).
    change (_varBinds (new_count w)) with (_varBinds w).
    destruct (does (handed w) (_varBinds w)); cbn;
      rewrite phases_app, ContinuationFacts.deliveries_app; cbn;
      rewrite !app_nil_r; auto.
  - destruct (ok_path fsmTable k s) as [path' | ] eqn:Hpath'; [ | discriminate].
    injection Hpath as <-. cbn [length] in Hfuel.
    destruct (@round_answering
                (flipFlopFsm tree mibBuilder raise_tuple fsmTable varBinds
                             (Some (Callable does)) fuel)
                (length (counts w))
                (mkContext (Some state) (Some STATUS_OK) true None)
                state (new_count w) w eq_refl eq_refl Hlen s Hnew Hstop)
      as (w2 & Hl2 & Hs2 & Hp2 & Hd2 & Hrun).
    { apply Hhas. now left. }
    destruct (IH s path' Hpath' (fun s' H => Hhas s' (or_intror H)) fuel w2)
      as (Hret & Hself & Hphases & Hdel).
    { lia. }
    { rewrite Hl2. clear. generalize 0.
      induction varBinds; intros n; simpl; auto. }
    assert (Hh : handed w2 = handed w).
    { rewrite !handed_deliveries, Hd2. reflexivity. }
    rewrite Hrun.
    + cbn zeta. rewrite Hret, Hh, Hphases, Hdel, Hp2, Hd2, Hl2, Hself, Hs2.
      cbn [flat_map fold_left]. rewrite <- app_assoc. auto.
    + intros e He. rewrite Hret in He.
      destruct (does (handed w2) _) as [x | ] eqn:Hd; [ | discriminate].
      injection He as <-. apply Hdoes. unfold raised_by. eauto.
Qed.
End Answering.

(** A batch that every phase method answers at once goes through the
    phases the table gives under status OK and is handed to the
    continuation at the end. *)
Lemma answered_run
    tree bld raise_tuple (fsmTable : fsm) (varBinds : list var_bind)
    (answer : fsm_state -> nat -> var_bind -> var_bind)
    (does : nat -> list var_bind -> option exc)
    (k fuel : nat) (path : list fsm_state) (w : world)
    (ops : list treeop) (ctl : controller) :
  (forall n state idx varBind status,
      method tree n state idx varBind status = Reply (answer state idx varBind)) ->
  (forall state idx varBind,
      exists v, watch raise_tuple (snd (answer state idx varBind)) = inr v) ->
  varBinds <> [] ->
  discreet (Some (Callable does)) ->
  ok_path fsmTable k STATE_START = Some path ->
  (forall s, In s path -> has_method tree s = true) ->
  indexMib bld (self w) = (Returned, ops, ctl) ->
  length path < fuel ->
  let r := flipFlopFsm tree bld raise_tuple fsmTable varBinds
                       (Some (Callable does)) fuel no_context w in
  let batch := fold_left (fun _ s => replies raise_tuple (answer s) 0 varBinds)
                         path varBinds in
  fst r = match does (handed w) batch with
          | None => Returned
          | Some e => Raised e
          end
  /\ self (snd r) = ctl
  /\ phases (log (snd r))
     = phases (log w) ++ flat_map (fun s => repeat s (length varBinds)) path
  /\ deliveries (log (snd r)) = deliveries (log w) ++ [batch].
Proof.
  intros Hanswer Hvalue Hbatch Hdoes Hpath Hhas Hindex Hfuel.
  destruct k as [|k]; [discriminate | ]. cbn [ok_path] in Hpath.
  destruct (newState fsmTable STATE_START STATUS_OK) as [e | s] eqn:Hnew;
    [discriminate | ].
  destruct fuel as [|fuel]; [lia | ].
  cbn [flipFlopFsm]. unfold flipFlopFsm_body, enter.
  cbn [no_context ctx_state ctx_status ctx_varBinds].
  change (self (new_count w)) with (self w). rewrite Hindex.
  cbn [new_count counts log].
  set (w1 := mkWorld ctl varBinds (counts w ++ [0]) (log w ++ map Tree ops)).
  assert (Hp1 : phases (log w1) = phases (log w)).
  { cbn. now rewrite phases_app, phases_tree, app_nil_r. }
  assert (Hd1 : deliveries (log w1) = deliveries (log w)).
  { cbn. now rewrite ContinuationFacts.deliveries_app, deliveries_tree, app_nil_r. }
  assert (Hh1 : handed w1 = handed w).
  { rewrite !handed_deliveries, Hd1. reflexivity. }
  destruct (state_eqb s STATE_STOP) eqn:Hstop.
  - injection Hpath as <-. rewrite Hnew, Hstop. cbn [deliver fold_left].
    rewrite Hh1. change (_varBinds w1) with varBinds.
    destruct (does (handed w) varBinds); cbn [fst snd note log self];
      rewrite phases_app, ContinuationFacts.deliveries_app;
      change (phases (log w ++ map Tree ops)) with (phases (log w1));
      change (deliveries (log w ++ map Tree ops)) with (deliveries (log w1));
      rewrite Hp1, Hd1; cbn; rewrite !app_nil_r; auto.
  - destruct (ok_path fsmTable k s) as [path' | ] eqn:Hpath'; [ | discriminate].
    injection Hpath as <-. cbn [length] in Hfuel.
    destruct (@round_answering tree raise_tuple fsmTable varBinds answer
                Hanswer Hvalue Hbatch does
                (flipFlopFsm tree bld raise_tuple fsmTable varBinds
                             (Some (Callable does)) fuel)
                (length (counts w)) no_context STATE_START w1 w
                eq_refl eq_refl eq_refl s Hnew Hstop)
      as (w2 & Hl2 & Hs2 & Hp2 & Hd2 & Hrun).
    { apply Hhas. now left. }
    destruct (@rounds_answering tree bld raise_tuple fsmTable varBinds answer
                Hanswer Hvalue Hbatch does Hdoes k s path' Hpath'
                (fun s' H => Hhas s' (or_intror H)) fuel w2)
      as (Hret & Hself & Hphases & Hdel).
    { lia. }
    { rewrite Hl2. clear. generalize 0.
      induction varBinds; intros n; simpl; auto. }
    assert (Hh : handed w2 = handed w).
    { rewrite !handed_deliveries, Hd2, Hd1. reflexivity. }
    rewrite Hrun.
    + cbn zeta. rewrite Hret, Hh, Hphases, Hdel, Hp2, Hd2, Hl2, Hself, Hs2, Hp1, Hd1.
      cbn [flat_map fold_left]. rewrite <- app_assoc. auto.
    + intros e He. rewrite Hret in He.
      destruct (does (handed w2) _) as [x | ] eqn:Hd; [ | discriminate].
      injection He as <-. apply Hdoes. unfold raised_by. eauto.
Qed.

(** X10.  A batch that every phase method answers.  When every phase
    method replies at once through its callback with a value that
    [_cbFun] takes in (a plain value, or a captured exception for which
    [_cbFun] has a marker), and the continuation raises no [SmiError], a
    call with at least one binding goes through every phase from START
    to STOP under status OK: each phase method is called once per
    binding, phase after phase, and the continuation is called once,
    at the end.  The batch it is handed holds what the last phase
    replied for the input bindings (the input batch itself when the
    table leads from START to STOP); the call returns when the
    continuation returns, and ends with the exception of the
    continuation when it raises one. *)
Theorem answered_batch_runs_all_phases
    tree bld raise_tuple (fsmTable : fsm) (varBinds : list var_bind)
    (answer : fsm_state -> nat -> var_bind -> var_bind)
    (does : nat -> list var_bind -> option exc)
    (k fuel : nat) (path : list fsm_state) (w : world)
    (ops : list treeop) (ctl : controller) :
  (forall n state idx varBind status,
      method tree n state idx varBind status = Reply (answer state idx varBind)) ->
  (forall state idx varBind,
      exists v, watch raise_tuple (snd (answer state idx varBind)) = inr v) ->
  varBinds <> [] ->
  discreet (Some (Callable does)) ->
  ok_path fsmTable k STATE_START = Some path ->
  (forall s, In s path -> has_method tree s = true) ->
  indexMib bld (self w) = (Returned, ops, ctl) ->
  length path < fuel ->
  let r := flipFlopFsm tree bld raise_tuple fsmTable varBinds
                       (Some (Callable does)) fuel no_context w in
  let batch := fold_left (fun _ s => replies raise_tuple (answer s) 0 varBinds)
                         path varBinds in
  fst r = match does (handed w) batch with
          | None => Returned
          | Some e => Raised e
          end
  /\ self (snd r) = ctl
  /\ phases (log (snd r))
     = phases (log w) ++ flat_map (fun s => repeat s (length varBinds)) path
  /\ deliveries (log (snd r)) = deliveries (log w) ++ [batch].
Proof.
  intros Hanswer Hvalue Hbatch Hdoes Hpath Hhas Hindex Hfuel.
  now apply answered_run with (k:=k) (ops:=ops).
Qed.

End AnsweringFacts.

(* ------------------------------------------------------------------ *)
(** ** The completion callback: captured per-binding exceptions *)

Module PlaceholderFacts.
Import Indexer Engine AnsweringFacts.

Lemma taken_captured raise_tuple (name : oid) (e : exc) (p : val) :
  placeholder e = Some p -> taken raise_tuple (name, ExcInfo e) = (name, p).
Proof.
  intros Hp. unfold taken. cbn [fst snd].
  now destruct (CallbackFacts.placeholder_watch raise_tuple e Hp) as [-> _].
Qed.

Lemma replies_captured raise_tuple (answer : nat -> var_bind -> var_bind)
    (e : exc) (p : val) (l : list var_bind) :
  placeholder e = Some p ->
  (forall idx varBind, answer idx varBind = (fst varBind, ExcInfo e)) ->
  forall n, replies raise_tuple answer n l = map (fun vb => (fst vb, p)) l.
Proof.
  intros Hp Hanswer. induction l as [|vb l IH]; intros n; cbn [replies map].
  - reflexivity.
  - now rewrite Hanswer, (taken_captured raise_tuple _ e Hp), IH.
Qed.

Lemma fold_left_last (A S : Type) (f : S -> A) (path : list S) (d : S) :
  path <> [] ->
  forall a, fold_left (fun _ s => f s) path a = f (last path d).
Proof.
  induction path as [|s path IH]; intros Hne a; [congruence | ].
  destruct path as [|s' path]; [reflexivity | ].
  change (fold_left (fun _ s0 => f s0) (s :: s' :: path) a)
    with (fold_left (fun _ s0 => f s0) (s' :: path) (f s)).
  rewrite IH by discriminate. reflexivity.
Qed.

(** The completion of a binding with a captured [NoSuchInstanceError]:
    the attribute read at line 231 raises, nothing is stored. *)
Lemma cbFun_noSuchInstance raise_tuple varBinds rec round name (e : exc)
    context w :
  is_NoSuchObjectError e = false -> is_NoSuchInstanceError e = true ->
  ctx_varBinds context = true ->
  _cbFun raise_tuple varBinds rec round (Some (name, ExcInfo e)) context w
  = (Raised (AttributeError
               "module 'pysnmp.proto.rfc1905' has no attribute 'noSuchOInstance'"),
     w).
Proof.
  intros Hnso Hnsi Hvb. unfold _cbFun, watch. now rewrite Hvb, Hnso, Hnsi.
Qed.

(** C5.  A completion that carries a captured per-binding exception.
    For [NoSuchObjectError] and [EndOfMibViewError] the marker
    ([noSuchObject], [endOfMibView]) is stored in the place of the
    binding and the completion is counted as any other: the round goes
    on under the status it was dispatched with.  In a whole call in
    which every phase method answers at once, the last of them with
    such a captured exception for every binding, and the continuation
    raises no [SmiError], the phases are those the table gives under
    status OK from START to STOP, each called once per binding, and the
    continuation is called once, with the marker under each name.  For
    [NoSuchInstanceError] there is no marker: the attribute read at line
    231 does not exist, the completion raises an [AttributeError] and
    stores nothing; a call in which the first phase method answers the
    first binding in this way ends with that exception right after the
    call of the phase method. *)
Theorem captured_exception_becomes_placeholder
    tree bld raise_tuple (fsmTable : fsm)
    (does : nat -> list var_bind -> option exc) (e : exc) :
  ((is_NoSuchObjectError e = true -> placeholder e = Some noSuchObject)
   /\ (is_NoSuchObjectError e = false -> is_NoSuchInstanceError e = false ->
       is_EndOfMibViewError e = true -> placeholder e = Some endOfMibView)
   /\ (is_NoSuchObjectError e = false -> is_NoSuchInstanceError e = true ->
       placeholder e = None))
  /\ (forall p varBinds rec round name context idx w,
        placeholder e = Some p ->
        ctx_varBinds context = true -> ctx_idx context = Some idx ->
        idx < length (_varBinds w) ->
        _cbFun raise_tuple varBinds rec round (Some (name, ExcInfo e)) context w
        = let w2 := bump round (store idx (name, p) w) in
          if count round w2 <? length varBinds then (Returned, w2)
          else rec (mkContext (ctx_state context) (ctx_status context) true None)
                   w2)
  /\ (forall p varBinds answer k fuel path w ops ctl,
        placeholder e = Some p ->
        (forall n state idx varBind status,
            method tree n state idx varBind status
            = Reply (answer state idx varBind)) ->
        (forall state idx varBind,
            exists v, watch raise_tuple (snd (answer state idx varBind)) = inr v) ->
        varBinds <> [] ->
        discreet (Some (Callable does)) ->
        ok_path fsmTable k STATE_START = Some path ->
        path <> [] ->
        (forall idx varBind,
            answer (last path STATE_START) idx varBind
            = (fst varBind, ExcInfo e)) ->
        (forall s, In s path -> has_method tree s = true) ->
        indexMib bld (self w) = (Returned, ops, ctl) ->
        length path < fuel ->
        let r := flipFlopFsm tree bld raise_tuple fsmTable varBinds
                             (Some (Callable does)) fuel no_context w in
        let batch := map (fun vb => (fst vb, p)) varBinds in
        fst r = match does (handed w) batch with
                | None => Returned
                | Some x => Raised x
                end
        /\ phases (log (snd r))
           = phases (log w) ++ flat_map (fun s => repeat s (length varBinds)) path
        /\ deliveries (log (snd r)) = deliveries (log w) ++ [batch])
  /\ (is_NoSuchObjectError e = false -> is_NoSuchInstanceError e = true ->
      let failure :=
        AttributeError
          "module 'pysnmp.proto.rfc1905' has no attribute 'noSuchOInstance'" in
      (forall varBinds rec round name context w,
          ctx_varBinds context = true ->
          _cbFun raise_tuple varBinds rec round (Some (name, ExcInfo e)) context w
          = (Raised failure, w))
      /\ (forall vb rest cb fuel w ops ctl s name,
            indexMib bld (self w) = (Returned, ops, ctl) ->
            newState fsmTable STATE_START STATUS_OK = inr s ->
            state_eqb s STATE_STOP = false ->
            has_method tree s = true ->
            (forall n, method tree n s 0 vb STATUS_OK = Reply (name, ExcInfo e)) ->
            flipFlopFsm tree bld raise_tuple fsmTable (vb :: rest) (Some cb)
                        (S fuel) no_context w
            = (Raised failure,
               note (Called (length (counts w)) s 0 vb (Reply (name, ExcInfo e)))
                    (mkWorld ctl (vb :: rest) (counts w ++ [0])
                             (log w ++ map Tree ops))))).
Proof.
  split; [ | split; [ | split]].
  - unfold placeholder. repeat split.
    + now intros ->.
    + now intros -> -> ->.
    + now intros -> ->.
  - intros p varBinds rec round name context idx w Hp Hvb Hidx Hlt.
    unfold _cbFun. rewrite Hvb, Hidx. cbn [negb].
    destruct (CallbackFacts.placeholder_watch raise_tuple e Hp) as [-> _].
    assert (Hle : (length (_varBinds w) <=? idx) = false)
      by now apply Nat.leb_gt.
    rewrite Hle. unfold next_context. rewrite Hvb. reflexivity.
  - intros p varBinds answer k fuel path w ops ctl Hp Hanswer Hvalue Hbatch Hdoes
           Hpath Hne Hlast Hhas Hindex Hfuel r batch.
    destruct (@answered_run tree bld raise_tuple fsmTable varBinds answer does
                k fuel path w ops ctl Hanswer Hvalue Hbatch Hdoes Hpath Hhas
                Hindex Hfuel) as (Hout & _ & Hphases & Hdel).
    fold r in Hout, Hphases, Hdel.
    assert (Hb : fold_left (fun _ s => replies raise_tuple (answer s) 0 varBinds)
                           path varBinds = batch).
    { rewrite (@fold_left_last _ _
                 (fun s => replies raise_tuple (answer s) 0 varBinds)
                 path STATE_START Hne).
      now apply replies_captured with (e:=e). }
    rewrite Hb in Hout, Hdel. auto.
  - intros Hnso Hnsi failure. split.
    + intros varBinds rec round name context w Hvb.
      now apply cbFun_noSuchInstance.
    + intros vb rest cb fuel w ops ctl s name Hindex Hnew Hstop Hhas Hreply.
      cbn [flipFlopFsm]. unfold flipFlopFsm_body, enter. cbn [no_context ctx_state].
      change (self (new_count w)) with (self w). rewrite Hindex, Hnew, Hstop.
      rewrite andb_false_r, Hhas. cbn [negb dispatch]. rewrite Hreply.
      rewrite cbFun_noSuchInstance by auto. reflexivity.
Qed.

End PlaceholderFacts.

(* ------------------------------------------------------------------ *)
(** ** The tree indexer: detaching and reattaching *)

Module DetachFacts.
Import Indexer.

Lemma existsb_oid (n : oid) (l : list oid) :
  existsb (oid_eqb n) l = true <-> In n l.
Proof.
  rewrite existsb_exists. split.
  - intros (x & Hx & E). apply oid_eqb_true in E. now subst x.
  - intros H. exists n. split; [assumption | apply oid_eqb_refl].
Qed.

Lemma distinct_NoDup (l : list oid) : distinct l = true -> NoDup l.
Proof.
  induction l as [|n l IH]; simpl; intros H; constructor;
    apply andb_true_iff in H; destruct H as [Hn Hl].
  - intros Hin. apply existsb_oid in Hin. rewrite Hin in Hn. discriminate.
  - now apply IH.
Qed.

Section Put.
Variable V : Type.
Implicit Types (d : list (oid * V)) (k : oid) (v : V).

Lemma set_fresh d k v :
  PyDict.get oid_eqb d k = None -> PyDict.set oid_eqb d k v = d ++ [(k, v)].
Proof.
  induction d as [|[k0 v0] d IH]; simpl; [reflexivity | ].
  destruct (oid_eqb k k0); [discriminate | ].
  intros H. now rewrite IH.
Qed.

Lemma get_snoc d k v k' :
  PyDict.get oid_eqb (d ++ [(k, v)]) k'
  = match PyDict.get oid_eqb d k' with
    | Some x => Some x
    | None => if oid_eqb k' k then Some v else None
    end.
Proof.
  induction d as [|[k0 v0] d IH]; simpl; [reflexivity | ].
  destruct (oid_eqb k' k0); [reflexivity | apply IH].
Qed.

Lemma set_all (l : list (oid * V)) :
  forall d,
  NoDup (map fst l) ->
  (forall kv, In kv l -> PyDict.get oid_eqb d (fst kv) = None) ->
  fold_left (fun d kv => PyDict.set oid_eqb d (fst kv) (snd kv)) l d = d ++ l.
Proof.
  induction l as [|[k v] l IH]; intros d Hnd Hfresh; simpl.
  - now rewrite app_nil_r.
  - inversion Hnd as [|? ? Hk Hl]; subst.
    rewrite set_fresh by (apply (Hfresh (k, v)); now left).
    rewrite IH; [now rewrite <- app_assoc | assumption | ].
    intros [k' v'] Hin. rewrite get_snoc, (Hfresh (k', v')) by now right.
    cbn [fst]. destruct (oid_eqb k' k) eqn:E; [ | reflexivity].
    apply oid_eqb_true in E. subst k'. exfalso. apply Hk.
    apply in_map_iff. now exists (k, v').
Qed.
End Put.

Lemma mem_false (V : Type) (d : list (oid * V)) (k : oid) :
  PyDict.mem oid_eqb d k = false -> PyDict.get oid_eqb d k = None.
Proof. unfold PyDict.mem. now destruct (PyDict.get oid_eqb d k). Qed.

(** X11.  A rebuild takes out what the rebuild before put in.  When no
    collected object is an orphan and the names are unambiguous, the
    associations a rebuild records are the (child, parent) pairs of the
    objects in the order they were registered, and the detach pass of
    the next rebuild of the same modules unregisters each registered
    child from the node it was registered at, in the same order, before
    everything is registered again. *)
Theorem rebuild_detaches_what_was_attached (bld : mibBuilder) :
  let b := collect bld in
  no_orphans b = true ->
  unambiguous bld b = true ->
  recorded bld b
  = map (fun inst => (name inst, typeName inst)) (PyDict.values (instances b))
    ++ map (fun col => (name col, oid_parent (name col))) (PyDict.values (cols b))
    ++ map (fun o => (name o, iso_name bld))
           (PyDict.values (rows b) ++ PyDict.values (tables b)
            ++ PyDict.values (scalars b))
  /\ detach b (recorded bld b) = map undo (full_attach b)
  /\ forall id',
       id' <> builder_lastBuildId bld ->
       indexMib (mkBuilder id' (mibSymbols bld) (iso_name bld))
                (mkController (builder_lastBuildId bld) (recorded bld b))
       = (Returned, map undo (full_attach b) ++ full_attach b,
          mkController id' (recorded bld b)).
Proof.
  intros b Hno Hun.
  unfold unambiguous in Hun.
  repeat (apply andb_true_iff in Hun; destruct Hun as [Hun ?]).
  match goal with H : negb (PyDict.mem _ (rows b) _) = true |- _ =>
    apply negb_true_iff, mem_false in H; rename H into Hrows end.
  match goal with H : negb (PyDict.mem _ (cols b) _) = true |- _ =>
    apply negb_true_iff, mem_false in H; rename H into Hcols end.
  match goal with H : negb (PyDict.mem _ (scalars b) _) = true |- _ =>
    apply negb_true_iff, mem_false in H; rename H into Hscalars end.
  match goal with H : forallb _ _ = true |- _ => rename H into Hparents end.
  apply distinct_NoDup in Hun.
  unfold no_orphans in Hno. apply andb_true_iff in Hno. destruct Hno as [Hni Hnc].
  assert (Hrec : recorded bld b
    = map (fun inst => (name inst, typeName inst)) (PyDict.values (instances b))
      ++ map (fun col => (name col, oid_parent (name col))) (PyDict.values (cols b))
      ++ map (fun o => (name o, iso_name bld))
             (PyDict.values (rows b) ++ PyDict.values (tables b)
              ++ PyDict.values (scalars b))).
  { unfold recorded, put. rewrite set_all; [reflexivity | | intros; reflexivity].
    unfold managed_objects in Hun.
    rewrite !map_app, !map_map in *. cbn [fst]. exact Hun. }
  assert (Hdetach : detach b (recorded bld b) = map undo (full_attach b)).
  { rewrite Hrec. unfold detach, PyDict.items, full_attach.
    rewrite !map_app, !map_map. f_equal; [ | f_equal].
    - apply map_ext_in. intros inst Hin.
      rewrite forallb_forall in Hni. apply Hni in Hin.
      unfold orphan_instance, PyDict.mem in Hin.
      unfold detach_one, instance_parent. cbn [undo].
      destruct (PyDict.get oid_eqb (scalars b) (typeName inst)); [reflexivity | ].
      destruct (PyDict.get oid_eqb (cols b) (typeName inst)); [reflexivity | ].
      discriminate.
    - apply map_ext_in. intros col Hin.
      rewrite forallb_forall in Hnc, Hparents.
      pose proof (Hnc _ Hin) as Hrow. apply Hparents in Hin.
      apply andb_true_iff in Hin. destruct Hin as [Hs Hc].
      apply negb_true_iff, mem_false in Hs. apply negb_true_iff, mem_false in Hc.
      unfold orphan_column, PyDict.mem in Hrow.
      unfold detach_one, column_parent. cbn [undo]. rewrite Hs, Hc.
      destruct (PyDict.get oid_eqb (rows b) (oid_parent (name col)));
        [reflexivity | discriminate].
    - rewrite <- !map_app. apply map_ext. intros o. unfold detach_one. cbn [undo].
      now rewrite Hscalars, Hcols, Hrows. }
  split; [exact Hrec | split; [exact Hdetach | ]].
  intros id' Hid. unfold indexMib. cbn [lastBuildId builder_lastBuildId lastBuildSyms].
  assert (Hneq : Z.eqb (builder_lastBuildId bld) id' = false).
  { apply Z.eqb_neq. congruence. }
  rewrite Hneq.
  change (collect (mkBuilder id' (mibSymbols bld) (iso_name bld))) with b.
  rewrite (IndexerFacts.attach_full (mkBuilder id' (mibSymbols bld) (iso_name bld)))
    by (unfold no_orphans; now rewrite Hni, Hnc).
  rewrite Hdetach. reflexivity.
Qed.

Section Stop.
Variable b : buckets.

Lemma attach_instances_stop (insts : list symObj) :
  forall p e p',
  attach_instances b insts p = (Some e, p') ->
  exists pre post,
    insts = pre ++ post /\ post <> []
    /\ fst p' = fst p ++ map (fun inst => registerSubtrees (instance_parent b inst) inst)
                             pre.
Proof.
  induction insts as [|i insts IH]; simpl; intros p e p' H; [discriminate | ].
  destruct (PyDict.get oid_eqb (scalars b) (typeName i)) as [s | ] eqn:Es.
  - assert (Hi : instance_parent b i = AtScalar s).
    { unfold instance_parent. now rewrite Es. }
    destruct (IH _ _ _ H) as (pre & post & -> & Hpost & Hp').
    exists (i :: pre), post. repeat split; auto.
    rewrite Hp'. cbn [fst map]. rewrite Hi. now rewrite <- app_assoc.
  - destruct (PyDict.get oid_eqb (cols b) (typeName i)) as [c | ] eqn:Ec.
    + assert (Hi : instance_parent b i = AtColumn c).
      { unfold instance_parent. now rewrite Es, Ec. }
      destruct (IH _ _ _ H) as (pre & post & -> & Hpost & Hp').
      exists (i :: pre), post. repeat split; auto.
      rewrite Hp'. cbn [fst map]. rewrite Hi. now rewrite <- app_assoc.
    + injection H as _ <-. exists [], (i :: insts). cbn.
      rewrite app_nil_r. repeat split; auto. discriminate.
Qed.

Lemma attach_instances_done (insts : list symObj) :
  forall p p',
  attach_instances b insts p = (None, p') ->
  fst p' = fst p ++ map (fun inst => registerSubtrees (instance_parent b inst) inst)
                        insts.
Proof.
  induction insts as [|i insts IH]; simpl; intros p p' H.
  - injection H as <-. now rewrite app_nil_r.
  - destruct (PyDict.get oid_eqb (scalars b) (typeName i)) as [s | ] eqn:Es.
    + assert (Hi : instance_parent b i = AtScalar s).
      { unfold instance_parent. now rewrite Es. }
      rewrite (IH _ _ H), Hi. cbn [fst]. now rewrite <- app_assoc.
    + destruct (PyDict.get oid_eqb (cols b) (typeName i)) as [c | ] eqn:Ec;
        [ | discriminate].
      assert (Hi : instance_parent b i = AtColumn c).
      { unfold instance_parent. now rewrite Es, Ec. }
      rewrite (IH _ _ H), Hi. cbn [fst]. now rewrite <- app_assoc.
Qed.

Lemma attach_columns_stop (columns : list symObj) :
  forall p e p',
  attach_columns b columns p = (Some e, p') ->
  exists pre post,
    columns = pre ++ post /\ post <> []
    /\ fst p' = fst p ++ map (fun col => registerSubtrees (column_parent b col) col)
                             pre.
Proof.
  induction columns as [|c columns IH]; simpl; intros p e p' H; [discriminate | ].
  destruct (PyDict.get oid_eqb (rows b) (oid_parent (name c))) as [r | ] eqn:Er.
  - assert (Hc : column_parent b c = AtRow r).
    { unfold column_parent. now rewrite Er. }
    destruct (IH _ _ _ H) as (pre & post & -> & Hpost & Hp').
    exists (c :: pre), post. repeat split; auto.
    rewrite Hp'. cbn [fst map]. rewrite Hc. now rewrite <- app_assoc.
  - injection H as _ <-. exists [], (c :: columns). cbn.
    rewrite app_nil_r. repeat split; auto. discriminate.
Qed.
End Stop.

(** A rebuild that stops on an orphan has performed the whole detach
    pass and registered the objects that come before the orphan in the
    reattach pass; the controller is left as it was. *)
Lemma rebuild_stops_midway (bld : mibBuilder) (self : controller) :
  lastBuildId self <> builder_lastBuildId bld ->
  has_orphan (collect bld) ->
  exists e done rest,
    indexMib bld self
    = (Raised e, detach (collect bld) (lastBuildSyms self) ++ done, self)
    /\ is_SmiError e = true
    /\ full_attach (collect bld) = done ++ rest
    /\ rest <> [].
Proof.
  intros Hid Horph. unfold indexMib. apply Z.eqb_neq in Hid. rewrite Hid.
  destruct (IndexerFacts.attach_orphan bld Horph)
    as (e & [ops syms] & Hattach & He).
  rewrite Hattach. exists e, ops. unfold attach in Hattach.
  destruct (attach_instances (collect bld) _ _) as [[e1 | ] p1] eqn:E1.
  - injection Hattach as <- ->.
    destruct (attach_instances_stop _ _ _ E1) as (pre & post & Hsplit & Hpost & Hp).
    cbn [fst app] in Hp.
    exists (map (fun inst => registerSubtrees (instance_parent (collect bld) inst) inst)
                post
            ++ map (fun col => registerSubtrees (column_parent (collect bld) col) col)
                   (PyDict.values (cols (collect bld)))
            ++ map (registerSubtrees AtRoot)
                   (PyDict.values (rows (collect bld))
                    ++ PyDict.values (tables (collect bld))
                    ++ PyDict.values (scalars (collect bld)))).
    repeat split; auto.
    + unfold full_attach. rewrite Hsplit, map_app, <- app_assoc.
      cbn [fst] in Hp. rewrite Hp. reflexivity.
    + destruct post; [congruence | discriminate].
  -     destruct (attach_columns (collect bld) _ p1) as [[e2 | ] p2] eqn:E2.
    + injection Hattach as <- ->.
      destruct (attach_columns_stop _ _ _ E2) as (pre & post & Hsplit & Hpost & Hp).
      pose proof (attach_instances_done _ _ _ E1) as Hp1. cbn [fst app] in Hp1.
      exists (map (fun col => registerSubtrees (column_parent (collect bld) col) col)
                  post
              ++ map (registerSubtrees AtRoot)
                     (PyDict.values (rows (collect bld))
                      ++ PyDict.values (tables (collect bld))
                      ++ PyDict.values (scalars (collect bld)))).
      repeat split; auto.
      * unfold full_attach. cbn [fst] in Hp. rewrite Hp, Hp1, Hsplit, map_app.
        now rewrite <- !app_assoc.
      * destruct post; [congruence | discriminate].
    + destruct (attach_root _ _ _). discriminate.
Qed.

(** X12.  A rebuild that stops on an orphan has already changed the
    tree.  The whole detach pass was performed, and the objects that
    come before the orphan in the reattach pass were registered: the
    operations performed are a proper prefix of the full pass.  Nothing
    of it is recorded, the controller being left as it was. *)
Theorem aborted_rebuild_leaves_partial_tree (bld : mibBuilder) (self : controller) :
  lastBuildId self <> builder_lastBuildId bld ->
  no_orphans (collect bld) = false ->
  exists e done rest,
    indexMib bld self
    = (Raised e, detach (collect bld) (lastBuildSyms self) ++ done, self)
    /\ is_SmiError e = true
    /\ full_attach (collect bld) = done ++ rest
    /\ rest <> [].
Proof.
  intros Hid Horph. apply rebuild_stops_midway; [exact Hid | ].
  now apply IndexerFacts.not_no_orphans.
Qed.

End DetachFacts.

(* ------------------------------------------------------------------ *)
(** ** Orphans *)

Module RebuildFacts.
Import Indexer Engine.


End RebuildFacts.

(* ------------------------------------------------------------------ *)
(** ** The dispatch engine: one binding whose second phase fails *)

Module OneBindingFacts.
Import Indexer Engine RecursionFacts ShapeFacts AnsweringFacts.

Section OneBinding.
Variable tree : mibTree.
Variable raise_tuple : exc -> exc.
Variable fsmTable : fsm.
Variable vb : var_bind.
Variable does : nat -> list var_bind -> option exc.

(** What follows [enter] in [flipFlopFsm_body], for a batch of one
    binding. *)
Local Abbreviation after_enter rec round context state status w1 :=
  (match newState fsmTable state status with
   | inl e => (Raised e, w1)
   | inr state =>
       if state_eqb state STATE_STOP then
         deliver (Callable does) w1
       else if truthy (Callable does)
               && match [vb] with [] => true | _ :: _ => false end then
         _cbFun raise_tuple [vb] rec round None context w1
       else if negb (has_method tree state) then
         (Raised (SmiError "Unsupported state handler"), w1)
       else
         dispatch tree raise_tuple [vb] rec round context state status 0 [vb] w1
   end).

Lemma one_binding_answered rec context state status w1 w s vb1 v :
  counts w1 = counts w ++ [0] -> _varBinds w1 <> [] ->
  newState fsmTable state status = inr s ->
  state_eqb s STATE_STOP = false -> has_method tree s = true ->
  method tree (calls w1) s 0 vb status = Reply vb1 ->
  watch raise_tuple (snd vb1) = inr v ->
  forall w2,
    w2 = bump (length (counts w))
              (store 0 (fst vb1, v) (note (Called (length (counts w)) s 0 vb (Reply vb1)) w1)) ->
    (forall e, fst (rec (mkContext (Some s) (Some status) true None) w2)
               = Raised e -> is_SmiError e = false) ->
    after_enter rec (length (counts w)) context state status w1
    = rec (mkContext (Some s) (Some status) true None) w2.
Proof.
  intros Hcounts Hlist Hnew Hstop Hhas Hreply Hv w2 -> Hret.
  rewrite Hnew, Hstop, Hhas. cbn [andb negb dispatch truthy]. rewrite Hreply.
  unfold _cbFun. cbn [ctx_varBinds ctx_idx negb].
  destruct vb1 as [name1 value1]. cbn [fst snd] in *. rewrite Hv.
  cbn [note _varBinds].
  destruct (_varBinds w1) as [|x l] eqn:Hl; [congruence | ].
  cbn [length Nat.leb].
  match goal with
  | |- context [count ?r (bump ?r ?w0) <? _] =>
      assert (Hc : count r (bump r w0) = 1)
  end.
  { rewrite RaiseFacts.count_bump_exact.
    - cbn. unfold count. rewrite Hcounts. now rewrite nth_middle.
    - cbn. rewrite Hcounts, length_app. cbn. lia. }
  rewrite Hc. cbn [Nat.ltb Nat.leb next_context ctx_state ctx_status ctx_varBinds].
  unfold store, note in *. cbn [_varBinds self counts log] in *. rewrite Hl in *.
  destruct (rec _ _) as [[ | e | ] w3]; cbn [fst] in Hret; try reflexivity.
  now rewrite (Hret e eq_refl).
Qed.

Lemma one_binding_failed rec context state status w1 w s e p :
  counts w1 = counts w ++ [0] -> _varBinds w1 <> [] ->
  ctx_varBinds context = true ->
  newState fsmTable state status = inr s ->
  state_eqb s STATE_STOP = false -> has_method tree s = true ->
  method tree (calls w1) s 0 vb status = Raise e ->
  is_SmiError e = true -> placeholder e = Some p ->
  after_enter rec (length (counts w)) context state status w1
  = rec (mkContext (ctx_state context) (Some STATUS_ERROR) true None)
        (bump (length (counts w))
              (store 0 (fst vb, p)
                     (note (Called (length (counts w)) s 0 vb (Raise e)) w1))).
Proof.
  intros Hcounts Hlist Hvb Hnew Hstop Hhas Hraise He Hp.
  destruct (CallbackFacts.placeholder_watch raise_tuple e Hp) as [Hwatch _].
  rewrite Hnew, Hstop, Hhas. cbn [andb negb dispatch truthy]. rewrite Hraise, He.
  unfold _cbFun. cbn [ctx_varBinds ctx_idx ctx_state ctx_status next_context].
  rewrite Hvb, Hwatch. cbn [negb note _varBinds].
  destruct (_varBinds w1) as [|x l] eqn:Hl; [congruence | ].
  cbn [length Nat.leb].
  match goal with
  | |- context [count ?r (bump ?r ?w0) <? _] =>
      assert (Hc : count r (bump r w0) = 1)
  end.
  { rewrite RaiseFacts.count_bump_exact.
    - cbn. unfold count. rewrite Hcounts. now rewrite nth_middle.
    - cbn. rewrite Hcounts, length_app. cbn. lia. }
  rewrite Hc. cbn [Nat.ltb Nat.leb next_context ctx_state ctx_status ctx_varBinds].
  unfold store, note. cbn [_varBinds self counts log]. rewrite Hl. reflexivity.
Qed.
End OneBinding.

(** X13.  A read of one binding whose second phase fails.  The first
    phase method answers, the second raises a per-binding [SmiError]
    for which [_cbFun] has a marker ([NoSuchObjectError] or
    [EndOfMibViewError]): the marker is stored for the binding, and the
    next call of [flipFlopFsm] looks the table up with status ERROR
    under the state of the first phase (the state the failed round was
    entered with).  When that lookup gives STOP, as in the read tables,
    and the continuation raises no [SmiError], the call has called two
    phase methods and the continuation once, with the marker and the
    name of the input binding; it returns when the continuation
    returns, and ends with the exception of the continuation when it
    raises one. *)
Theorem failed_read_of_one_binding_is_delivered
    tree bld raise_tuple (fsmTable : fsm) (vb vb1 : var_bind)
    (does : nat -> list var_bind -> option exc)
    (fuel : nat) (w : world) (ops : list treeop) (ctl : controller)
    (s1 s2 : fsm_state) (e : exc) (p : val) :
  indexMib bld (self w) = (Returned, ops, ctl) ->
  discreet (Some (Callable does)) ->
  newState fsmTable STATE_START STATUS_OK = inr s1 ->
  state_eqb s1 STATE_STOP = false -> has_method tree s1 = true ->
  (forall n, method tree n s1 0 vb STATUS_OK = Reply vb1) ->
  (exists v, watch raise_tuple (snd vb1) = inr v) ->
  newState fsmTable s1 STATUS_OK = inr s2 ->
  state_eqb s2 STATE_STOP = false -> has_method tree s2 = true ->
  (forall n, method tree n s2 0 vb STATUS_OK = Raise e) ->
  is_SmiError e = true -> placeholder e = Some p ->
  newState fsmTable s1 STATUS_ERROR = inr STATE_STOP ->
  let r := flipFlopFsm tree bld raise_tuple fsmTable [vb] (Some (Callable does))
                       (3 + fuel) no_context w in
  fst r = match does (handed w) [(fst vb, p)] with
          | None => Returned
          | Some x => Raised x
          end
  /\ self (snd r) = ctl
  /\ phases (log (snd r)) = phases (log w) ++ [s1; s2]
  /\ deliveries (log (snd r)) = deliveries (log w) ++ [[(fst vb, p)]].
Proof.
  intros Hindex Hdoes Hnew1 Hstop1 Hhas1 Hreply [v Hv] Hnew2 Hstop2 Hhas2 Hraise
         He Hp Hnew3.
  (* the third call delivers *)
  assert (H3 : forall w3,
             flipFlopFsm tree bld raise_tuple fsmTable [vb] (Some (Callable does))
                         (S fuel)
                         (mkContext (Some s1) (Some STATUS_ERROR) true None) w3
             = deliver (Callable does) (new_count w3)).
  { intros w3. cbn [flipFlopFsm]. unfold flipFlopFsm_body, enter.
    cbn [ctx_state ctx_status ctx_varBinds]. rewrite Hnew3. reflexivity. }
  (* the second call: the phase method raises *)
  assert (H2 : forall w2,
             _varBinds w2 <> [] ->
             flipFlopFsm tree bld raise_tuple fsmTable [vb] (Some (Callable does))
                         (S (S fuel))
                         (mkContext (Some s1) (Some STATUS_OK) true None) w2
             = deliver (Callable does)
                 (new_count
                    (bump (length (counts w2))
                       (store 0 (fst vb, p)
                          (note (Called (length (counts w2)) s2 0 vb (Raise e))
                                (new_count w2)))))).
  { intros w2 Hw2. cbn [flipFlopFsm]. unfold flipFlopFsm_body at 1. unfold enter.
    cbn [ctx_state ctx_status ctx_varBinds].
    rewrite (@one_binding_failed tree raise_tuple fsmTable vb does _ _ s1 STATUS_OK
               (new_count w2) w2 s2 e p); auto.
    apply (H3 _). }
  set (w1 := mkWorld ctl [vb] (counts w ++ [0]) (log w ++ map Tree ops)).
  set (w2 := bump (length (counts w))
               (store 0 (fst vb1, v)
                  (note (Called (length (counts w)) s1 0 vb (Reply vb1)) w1))).
  assert (Hw2 : _varBinds w2 <> []) by discriminate.
  pose proof (H2 w2 Hw2) as Hrun.
  set (wf := new_count
               (bump (length (counts w2))
                  (store 0 (fst vb, p)
                     (note (Called (length (counts w2)) s2 0 vb (Raise e))
                           (new_count w2))))) in *.
  assert (Hh : handed wf = handed w).
  { rewrite !handed_deliveries. unfold wf, w2, w1. cbn.
    rewrite !ContinuationFacts.deliveries_app, deliveries_tree. cbn.
    now rewrite !app_nil_r. }
  assert (Hb : _varBinds wf = [(fst vb, p)]) by reflexivity.
  assert (Hout : fst (deliver (Callable does) wf)
                 = match does (handed w) [(fst vb, p)] with
                   | None => Returned
                   | Some x => Raised x
                   end
                 /\ snd (deliver (Callable does) wf)
                    = note (Delivered [(fst vb, p)]) wf).
  { cbn [deliver]. rewrite Hh, Hb. destruct (does _ _); auto. }
  destruct Hout as [Hout1 Hout2].
  assert (H1 : flipFlopFsm tree bld raise_tuple fsmTable [vb] (Some (Callable does))
                           (S (S (S fuel))) no_context w
               = deliver (Callable does) wf).
  { cbn [flipFlopFsm]. unfold flipFlopFsm_body at 1. unfold enter.
    cbn [no_context ctx_state ctx_status ctx_varBinds].
    change (self (new_count w)) with (self w). rewrite Hindex.
    cbn [new_count counts log]. fold w1.
    cbn [flipFlopFsm] in Hrun.
    rewrite (@one_binding_answered tree raise_tuple fsmTable vb does _ _ STATE_START
               STATUS_OK w1 w s1 vb1 v eq_refl ltac:(discriminate) Hnew1 Hstop1
               Hhas1 (Hreply _) Hv w2 eq_refl).
    - exact Hrun.
    - intros x Hx. rewrite Hrun, Hout1 in Hx.
      destruct (does (handed w) _) as [y | ] eqn:Hd; [ | discriminate].
      injection Hx as <-. apply Hdoes. unfold raised_by. eauto. }
  cbv zeta. cbn [Nat.add]. rewrite H1, Hout1, Hout2. split; [reflexivity | ].
  unfold wf, w2, w1. cbn.
  rewrite !phases_app, !ContinuationFacts.deliveries_app, phases_tree,
    deliveries_tree. cbn. rewrite !app_nil_r, <- !app_assoc. auto.
Qed.

End OneBindingFacts.

(* ------------------------------------------------------------------ *)
(** ** The dispatch engine: exceptions that have no marker *)

Module FatalFacts.
Import Indexer Engine RaiseFacts.

Lemma calm_app (l1 l2 : list entry) : calm l1 -> calm l2 -> calm (l1 ++ l2).
Proof. unfold calm. intros H1 H2. now rewrite forallb_app, H1, H2. Qed.

Lemma calm_ends (o : outcome) (l : list entry) : calm l -> ends_call o l.
Proof.
  unfold calm. rewrite forallb_forall. intros H x Hin Hx.
  apply H in Hin. rewrite Hx in Hin. discriminate.
Qed.

Lemma ends_app (o : outcome) (l1 l2 : list entry) :
  calm l1 -> ends_call o l2 -> ends_call o (l1 ++ l2).
Proof.
  intros Hc H x Hin Hx. apply in_app_or in Hin. destruct Hin as [Hin | Hin].
  - unfold calm in Hc. rewrite forallb_forall in Hc. apply Hc in Hin.
    rewrite Hx in Hin. discriminate.
  - destruct (H x Hin Hx) as ((l0 & ->) & He). split; [ | exact He].
    exists (l1 ++ l0). now rewrite app_assoc.
Qed.

(** A call that did not end with an exception other than [SmiError]
    logged no such call. *)
Lemma ends_calm (o : outcome) (l : list entry) :
  (forall e, o = Raised e -> is_SmiError e = true) -> ends_call o l -> calm l.
Proof.
  intros Ho H. unfold calm. apply forallb_forall. intros x Hin.
  destruct (fatal x) eqn:Hx; [ | reflexivity].
  destruct (H x Hin Hx) as (_ & e & He & Hsmi).
  rewrite (Ho e He) in Hsmi. discriminate.
Qed.

Section Fatal.
Variable tree : mibTree.
Variable mibBuilder : Indexer.mibBuilder.
Variable raise_tuple : exc -> exc.
Variable fsmTable : fsm.
Variable varBinds : list var_bind.
Variable cbFun : option continuation.
(** [raise value] with a tuple raises no [SmiError] (Python 3: a
    [TypeError]). *)
Hypothesis Hraise_tuple : forall x, is_SmiError (raise_tuple x) = false.

Lemma cbFun_final rec round vb context w :
  final rec ->
  exists l,
    log (snd (_cbFun raise_tuple varBinds rec round vb context w)) = log w ++ l
    /\ ends_call (fst (_cbFun raise_tuple varBinds rec round vb context w)) l.
Proof.
  intros Hrec.
  destruct (cbFun_cases raise_tuple varBinds rec round vb context w)
    as [[e ->] | (idx & v & ->)].
  - exists []. cbn. rewrite app_nil_r. split; [reflexivity | ].
    now apply calm_ends.
  - destruct (count round _ <? length varBinds).
    + exists [Stored idx v]. cbn. split; [reflexivity | ]. now apply calm_ends.
    + destruct (Hrec (next_context context) (bump round (store idx v w)))
        as (l & Hl & Hp).
      exists (Stored idx v :: l). rewrite Hl. cbn. rewrite <- app_assoc.
      split; [reflexivity | ]. now apply (@ends_app _ [Stored idx v] l).
Qed.

Lemma dispatch_final rec round context state status rest :
  final rec ->
  forall idx w,
    count round w + length rest <= length varBinds ->
    exists l,
      log (snd (dispatch tree raise_tuple varBinds rec round context
                         state status idx rest w)) = log w ++ l
      /\ ends_call (fst (dispatch tree raise_tuple varBinds rec round context
                                  state status idx rest w)) l.
Proof.
  intros Hrec.
  induction rest as [|varBind rest IH]; intros idx w Hcount; cbn [dispatch].
  - exists []. cbn. rewrite app_nil_r. split; [reflexivity | ].
    now apply calm_ends.
  - set (a := method tree (calls w) state idx varBind status).
    set (w1 := note (Called round state idx varBind a) w).
    set (failed := fun e w' =>
           _cbFun raise_tuple varBinds rec round (Some (fst varBind, ExcInfo e))
                  (mkContext (ctx_state context) (Some STATUS_ERROR)
                             (ctx_varBinds context) (Some idx)) w').
    assert (Hfailed : forall e w' l',
              log w' = log w ++ l' -> calm l' ->
              exists l, log (snd (failed e w')) = log w ++ l
                        /\ ends_call (fst (failed e w')) l).
    { intros e w' l' Hl' Hq.
      destruct (@cbFun_final rec round (Some (fst varBind, ExcInfo e))
                  (mkContext (ctx_state context) (Some STATUS_ERROR)
                             (ctx_varBinds context) (Some idx)) w' Hrec)
        as (l2 & Hl2 & Hp2).
      exists (l' ++ l2). unfold failed. rewrite Hl2, Hl', <- app_assoc.
      split; [reflexivity | now apply ends_app]. }
    cbn [length] in Hcount.
    destruct a as [ | vb | e] eqn:Ea.
    + (* Defer *)
      destruct (IH (S idx) w1) as (l & Hl & Hp);
        [change (count round w1) with (count round w); lia | ].
      exists (Called round state idx varBind Defer :: l).
      rewrite Hl. cbn. rewrite <- app_assoc.
      split; [reflexivity | ].
      now apply (@ends_app _ [Called round state idx varBind Defer] l).
    + (* Reply *)
      destruct (cbFun_cases raise_tuple varBinds rec round (Some vb)
                  (mkContext (Some state) (Some status) true (Some idx)) w1)
        as [[e ->] | (i0 & v & ->)].
      * destruct (is_SmiError e) eqn:He.
        -- apply (Hfailed e w1 [Called round state idx varBind (Reply vb)]);
             reflexivity.
        -- exists [Called round state idx varBind (Reply vb)].
           split; [reflexivity | ]. now apply calm_ends.
      * set (w2 := bump round (store i0 v w1)).
        assert (Hw2 : count round w2 <= S (count round w)).
        { apply (count_bump round (store i0 v w1)). }
        assert (Hlog2 : log w2 = log w
                  ++ [Called round state idx varBind (Reply vb); Stored i0 v]).
        { cbn. now rewrite <- app_assoc. }
        destruct (count round w2 <? length varBinds) eqn:Hlt.
        -- apply Nat.ltb_lt in Hlt.
           destruct (IH (S idx) w2) as (l & Hl & Hp); [lia | ].
           exists ([Called round state idx varBind (Reply vb); Stored i0 v] ++ l).
           rewrite Hl, Hlog2, <- app_assoc.
           split; [reflexivity | ]. now apply ends_app.
        -- apply Nat.ltb_ge in Hlt.
           assert (Hrest : rest = [])
             by (destruct rest; [reflexivity | cbn [length] in *; lia]).
           subst rest.
           destruct (Hrec (next_context
                             (mkContext (Some state) (Some status) true (Some idx)))
                          w2) as (l3 & Hl3 & Hp3).
           destruct (rec _ w2) as [[ | e | ] w3]; cbn [fst snd] in Hl3, Hp3;
             cbn [fst snd dispatch].
           ++ exists ([Called round state idx varBind (Reply vb); Stored i0 v] ++ l3).
              rewrite Hl3, Hlog2, <- app_assoc.
              split; [reflexivity | ]. now apply ends_app.
           ++ destruct (is_SmiError e) eqn:He.
              ** apply (Hfailed e w3
                   ([Called round state idx varBind (Reply vb); Stored i0 v] ++ l3)).
                 { now rewrite Hl3, Hlog2, <- app_assoc. }
                 { apply calm_app; [reflexivity | ].
                   apply (@ends_calm (Raised e)); [ | assumption].
                   now intros e' [= <-]. }
              ** exists ([Called round state idx varBind (Reply vb); Stored i0 v] ++ l3).
                 cbn [fst snd]. rewrite Hl3, Hlog2, <- app_assoc.
                 split; [reflexivity | ]. now apply ends_app.
           ++ exists ([Called round state idx varBind (Reply vb); Stored i0 v] ++ l3).
              rewrite Hl3, Hlog2, <- app_assoc.
              split; [reflexivity | ]. now apply ends_app.
    + (* Raise *)
      destruct (fatal (Called round state idx varBind (Raise e))) eqn:Hfatal.
      * assert (Hlast : forall o,
                  (exists x, o = Raised x /\ is_SmiError x = false) ->
                  ends_call o [Called round state idx varBind (Raise e)]).
        { intros o Ho x [<- | []] _. split; [now exists [] | exact Ho]. }
        cbn [fatal] in Hfatal. apply andb_true_iff in Hfatal.
        destruct Hfatal as [Hexc Hp].
        destruct (placeholder e) eqn:Hpl; [discriminate | ].
        destruct (is_SmiError e) eqn:He.
        -- destruct (@RaiseFacts.cbFun_fatal raise_tuple varBinds rec round
                       (fst varBind) e
                       (mkContext (ctx_state context) (Some STATUS_ERROR)
                                  (ctx_varBinds context) (Some idx)) w1
                       Hraise_tuple Hexc Hpl)
             as (x & -> & Hx).
           exists [Called round state idx varBind (Raise e)].
           split; [reflexivity | ]. apply Hlast. cbn [fst]. eauto.
        -- exists [Called round state idx varBind (Raise e)].
           split; [reflexivity | ]. apply Hlast. cbn [fst]. eauto.
      * destruct (is_SmiError e) eqn:He.
        -- apply (Hfailed e w1 [Called round state idx varBind (Raise e)]);
             [reflexivity | ].
           unfold calm. cbn [forallb]. now rewrite Hfatal.
        -- exists [Called round state idx varBind (Raise e)].
           split; [reflexivity | ]. apply calm_ends.
           unfold calm. cbn [forallb]. now rewrite Hfatal.
Qed.

Lemma calm_tree (ops : list treeop) : calm (map Tree ops).
Proof. unfold calm. induction ops; simpl; auto. Qed.

Lemma body_final rec context w :
  final rec ->
  exists l,
    log (snd (flipFlopFsm_body tree mibBuilder raise_tuple fsmTable varBinds
                               cbFun rec context w)) = log w ++ l
    /\ ends_call (fst (flipFlopFsm_body tree mibBuilder raise_tuple fsmTable
                                        varBinds cbFun rec context w)) l.
Proof.
  intros Hrec. unfold flipFlopFsm_body.
  destruct cbFun as [cb | ].
  2:{ exists []. cbn. rewrite app_nil_r. split; [reflexivity | ].
      now apply calm_ends. }
  destruct (enter_log mibBuilder varBinds context (new_count w))
    as (ops & Hlog & Hcounts).
  destruct (enter mibBuilder varBinds context (new_count w))
    as [[[o w1] state] status]. cbn [fst snd] in Hlog, Hcounts.
  change (log (new_count w)) with (log w) in Hlog.
  assert (Hquiet : forall o', exists l,
             log w1 = log w ++ l /\ ends_call o' l).
  { intros o'. exists (map Tree ops). split; [assumption | ].
    apply calm_ends, calm_tree. }
  destruct o; [ | apply Hquiet | apply Hquiet].
  destruct (newState fsmTable state status) as [e | state']; [apply Hquiet | ].
  destruct (state_eqb state' STATE_STOP).
  { destruct cb as [ | does]; cbn [deliver]; [apply Hquiet | ].
    assert (Hd : forall o', exists l,
               log (note (Delivered (_varBinds w1)) w1) = log w ++ l
               /\ ends_call o' l).
    { intros o'. exists (map Tree ops ++ [Delivered (_varBinds w1)]).
      cbn [note log]. rewrite Hlog, <- app_assoc. split; [reflexivity | ].
      apply ends_app; [apply calm_tree | ]. now apply calm_ends. }
    destruct (does _ _); apply Hd. }
  assert (Hlift : forall x : outcome * world,
            (exists l, log (snd x) = log w1 ++ l /\ ends_call (fst x) l) ->
            exists l, log (snd x) = log w ++ l /\ ends_call (fst x) l).
  { intros x (l & Hl & Hp). exists (map Tree ops ++ l).
    rewrite Hl, Hlog, <- app_assoc. split; [reflexivity | ].
    apply ends_app; [apply calm_tree | assumption]. }
  destruct (truthy cb && _).
  { apply Hlift. now apply cbFun_final. }
  destruct (negb (has_method tree state')); [apply Hquiet | ].
  apply Hlift. apply dispatch_final; [assumption | ].
  unfold count. rewrite Hcounts. cbn. rewrite nth_middle. lia.
Qed.

Lemma flipFlopFsm_final (fuel : nat) :
  final (flipFlopFsm tree mibBuilder raise_tuple fsmTable varBinds cbFun fuel).
Proof.
  induction fuel as [|fuel IH]; intros context w; cbn [flipFlopFsm].
  - exists []. cbn. rewrite app_nil_r. split; [reflexivity | ].
    now apply calm_ends.
  - now apply body_final.
Qed.
End Fatal.

(** *** No delivery before the last event *)

Lemma mute_closing (l : list entry) :
  forallb (fun x => negb (is_delivery x)) l = true -> closing l.
Proof.
  rewrite forallb_forall. intros H x Hin Hx. apply H in Hin.
  rewrite Hx in Hin. discriminate.
Qed.

Lemma closing_app (l1 l2 : list entry) :
  forallb (fun x => negb (is_delivery x)) l1 = true ->
  closing l2 -> closing (l1 ++ l2).
Proof.
  rewrite forallb_forall. intros H1 H2 x Hin Hx.
  apply in_app_or in Hin. destruct Hin as [Hin | Hin].
  - apply H1 in Hin. rewrite Hx in Hin. discriminate.
  - destruct (H2 x Hin Hx) as (l0 & ->). exists (l1 ++ l0).
    now rewrite app_assoc.
Qed.

Lemma mute_tree (ops : list treeop) :
  forallb (fun x => negb (is_delivery x)) (map Tree ops) = true.
Proof. induction ops; simpl; auto. Qed.

Section Closing.
Variable tree : mibTree.
Variable mibBuilder : Indexer.mibBuilder.
Variable raise_tuple : exc -> exc.
Variable fsmTable : fsm.
Variable varBinds : list var_bind.
Variable cbFun : option continuation.
Variable mine : exc -> Prop.
Hypothesis Hmine : forall e, mine e -> is_SmiError e = false.

Lemma cbFun_closing rec round vb context w :
  concluding rec ->
  exists l,
    log (snd (_cbFun raise_tuple varBinds rec round vb context w)) = log w ++ l
    /\ closing l.
Proof.
  intros Hrec.
  destruct (cbFun_cases raise_tuple varBinds rec round vb context w)
    as [[e ->] | (idx & v & ->)].
  - exists []. cbn. rewrite app_nil_r. split; [reflexivity | ].
    now apply mute_closing.
  - destruct (count round _ <? length varBinds).
    + exists [Stored idx v]. cbn. split; [reflexivity | ]. now apply mute_closing.
    + destruct (Hrec (next_context context) (bump round (store idx v w)))
        as (l & Hl & Hp).
      exists (Stored idx v :: l). rewrite Hl. cbn. rewrite <- app_assoc.
      split; [reflexivity | ]. now apply (@closing_app [Stored idx v] l).
Qed.

Lemma dispatch_closing rec round context state status rest :
  sound mine rec -> concluding rec ->
  forall idx w,
    count round w + length rest <= length varBinds ->
    exists l,
      log (snd (dispatch tree raise_tuple varBinds rec round context
                         state status idx rest w)) = log w ++ l
      /\ closing l.
Proof.
  intros Hsound Hrec.
  induction rest as [|varBind rest IH]; intros idx w Hcount; cbn [dispatch].
  - exists []. cbn. rewrite app_nil_r. split; [reflexivity | ].
    now apply mute_closing.
  - set (a := method tree (calls w) state idx varBind status).
    set (w1 := note (Called round state idx varBind a) w).
    set (failed := fun e w' =>
           _cbFun raise_tuple varBinds rec round (Some (fst varBind, ExcInfo e))
                  (mkContext (ctx_state context) (Some STATUS_ERROR)
                             (ctx_varBinds context) (Some idx)) w').
    assert (Hfailed : forall e w' l',
              log w' = log w ++ l' ->
              forallb (fun x => negb (is_delivery x)) l' = true ->
              exists l, log (snd (failed e w')) = log w ++ l /\ closing l).
    { intros e w' l' Hl' Hq.
      destruct (@cbFun_closing rec round (Some (fst varBind, ExcInfo e))
                  (mkContext (ctx_state context) (Some STATUS_ERROR)
                             (ctx_varBinds context) (Some idx)) w' Hrec)
        as (l2 & Hl2 & Hp2).
      exists (l' ++ l2). unfold failed. rewrite Hl2, Hl', <- app_assoc.
      split; [reflexivity | now apply closing_app]. }
    cbn [length] in Hcount.
    destruct a as [ | vb | e] eqn:Ea.
    + (* Defer *)
      destruct (IH (S idx) w1) as (l & Hl & Hp);
        [change (count round w1) with (count round w); lia | ].
      exists (Called round state idx varBind Defer :: l).
      rewrite Hl. cbn. rewrite <- app_assoc.
      split; [reflexivity | ].
      now apply (@closing_app [Called round state idx varBind Defer] l).
    + (* Reply *)
      destruct (cbFun_cases raise_tuple varBinds rec round (Some vb)
                  (mkContext (Some state) (Some status) true (Some idx)) w1)
        as [[e ->] | (i0 & v & ->)].
      * destruct (is_SmiError e) eqn:He.
        -- apply (Hfailed e w1 [Called round state idx varBind (Reply vb)]);
             reflexivity.
        -- exists [Called round state idx varBind (Reply vb)].
           split; [reflexivity | ]. now apply mute_closing.
      * set (w2 := bump round (store i0 v w1)).
        assert (Hw2 : count round w2 <= S (count round w)).
        { apply (count_bump round (store i0 v w1)). }
        assert (Hlog2 : log w2 = log w
                  ++ [Called round state idx varBind (Reply vb); Stored i0 v]).
        { cbn. now rewrite <- app_assoc. }
        destruct (count round w2 <? length varBinds) eqn:Hlt.
        -- apply Nat.ltb_lt in Hlt.
           destruct (IH (S idx) w2) as (l & Hl & Hp); [lia | ].
           exists ([Called round state idx varBind (Reply vb); Stored i0 v] ++ l).
           rewrite Hl, Hlog2, <- app_assoc.
           split; [reflexivity | ]. now apply closing_app.
        -- apply Nat.ltb_ge in Hlt.
           assert (Hrest : rest = [])
             by (destruct rest; [reflexivity | cbn [length] in *; lia]).
           subst rest.
           destruct (Hrec (next_context
                             (mkContext (Some state) (Some status) true (Some idx)))
                          w2) as (l3 & Hl3 & Hp3).
           destruct (Hsound (next_context
                               (mkContext (Some state) (Some status) true (Some idx)))
                            w2) as (l4 & Hl4 & Hp4).
           assert (H34 : l4 = l3).
           { rewrite Hl3 in Hl4. now apply app_inv_head in Hl4. }
           subst l4.
           destruct (rec _ w2) as [[ | e | ] w3]; cbn [fst snd] in Hl3, Hp4;
             cbn [fst snd dispatch].
           ++ exists ([Called round state idx varBind (Reply vb); Stored i0 v] ++ l3).
              rewrite Hl3, Hlog2, <- app_assoc.
              split; [reflexivity | ]. now apply closing_app.
           ++ destruct (is_SmiError e) eqn:He.
              ** apply (Hfailed e w3
                   ([Called round state idx varBind (Reply vb); Stored i0 v] ++ l3)).
                 { now rewrite Hl3, Hlog2, <- app_assoc. }
                 { rewrite forallb_app. cbn [forallb is_delivery negb andb].
                   apply quiet_no_delivery.
                   now apply (@raised_quiet mine e l3 Hmine He). }
              ** exists ([Called round state idx varBind (Reply vb); Stored i0 v] ++ l3).
                 cbn [fst snd]. rewrite Hl3, Hlog2, <- app_assoc.
                 split; [reflexivity | ]. now apply closing_app.
           ++ exists ([Called round state idx varBind (Reply vb); Stored i0 v] ++ l3).
              rewrite Hl3, Hlog2, <- app_assoc.
              split; [reflexivity | ]. now apply closing_app.
    + (* Raise *)
      destruct (is_SmiError e) eqn:He.
      * apply (Hfailed e w1 [Called round state idx varBind (Raise e)]);
          reflexivity.
      * exists [Called round state idx varBind (Raise e)].
        split; [reflexivity | ]. now apply mute_closing.
Qed.

Lemma body_closing rec context w :
  (forall e, raised_by cbFun e -> mine e) ->
  sound mine rec -> concluding rec ->
  exists l,
    log (snd (flipFlopFsm_body tree mibBuilder raise_tuple fsmTable varBinds
                               cbFun rec context w)) = log w ++ l
    /\ closing l.
Proof.
  intros Hcb Hsound Hrec. unfold flipFlopFsm_body.
  destruct cbFun as [cb | ].
  2:{ exists []. cbn. rewrite app_nil_r. split; [reflexivity | ].
      now apply mute_closing. }
  destruct (enter_log mibBuilder varBinds context (new_count w))
    as (ops & Hlog & Hcounts).
  destruct (enter mibBuilder varBinds context (new_count w))
    as [[[o w1] state] status]. cbn [fst snd] in Hlog, Hcounts.
  change (log (new_count w)) with (log w) in Hlog.
  assert (Hquiet : exists l, log w1 = log w ++ l /\ closing l).
  { exists (map Tree ops). split; [assumption | ].
    apply mute_closing, mute_tree. }
  destruct o; [ | apply Hquiet | apply Hquiet].
  destruct (newState fsmTable state status) as [e | state']; [apply Hquiet | ].
  destruct (state_eqb state' STATE_STOP).
  { destruct cb as [ | does]; cbn [deliver]; [apply Hquiet | ].
    assert (Hd : exists l,
               log (note (Delivered (_varBinds w1)) w1) = log w ++ l
               /\ closing l).
    { exists (map Tree ops ++ [Delivered (_varBinds w1)]).
      cbn [note log]. rewrite Hlog, <- app_assoc. split; [reflexivity | ].
      apply closing_app; [apply mute_tree | ].
      intros x [<- | []] _. now exists []. }
    destruct (does _ _); apply Hd. }
  assert (Hlift : forall x : outcome * world,
            (exists l, log (snd x) = log w1 ++ l /\ closing l) ->
            exists l, log (snd x) = log w ++ l /\ closing l).
  { intros x (l & Hl & Hp). exists (map Tree ops ++ l).
    rewrite Hl, Hlog, <- app_assoc. split; [reflexivity | ].
    apply closing_app; [apply mute_tree | assumption]. }
  destruct (truthy cb && _).
  { apply Hlift. now apply cbFun_closing. }
  destruct (negb (has_method tree state')); [apply Hquiet | ].
  apply Hlift. apply dispatch_closing; [assumption | assumption | ].
  unfold count. rewrite Hcounts. cbn. rewrite nth_middle. lia.
Qed.

Lemma flipFlopFsm_closing (fuel : nat) :
  (forall e, raised_by cbFun e -> mine e) ->
  concluding (flipFlopFsm tree mibBuilder raise_tuple fsmTable varBinds cbFun fuel).
Proof.
  intros Hcb.
  induction fuel as [|fuel IH]; intros context w; cbn [flipFlopFsm].
  - exists []. cbn. rewrite app_nil_r. split; [reflexivity | ].
    now apply mute_closing.
  - apply body_closing; [exact Hcb | | exact IH].
    now apply flipFlopFsm_sound.
Qed.
End Closing.

(** X14.  An exception without a marker ends the call.  On an
    interpreter where [raise value] with a tuple raises no [SmiError]
    (Python 3), a phase method that raises an exception other than
    [NoSuchObjectError] and [EndOfMibViewError], be it an [SmiError]
    or not, ends the call of [readVars], [readNextVars] or [writeVars]
    on the spot: the call of the phase method is the last thing that
    happened, and the call raises an exception that is no [SmiError].
    This holds for [NoSuchInstanceError] as well, for which [_cbFun]
    raises an [AttributeError] (line 231).  When the continuation is
    one that raises no [SmiError], no batch was delivered. *)
Theorem exception_without_marker_ends_the_call
    tree bld raise_tuple (varBinds : list var_bind) (cbFun : option continuation)
    (fuel : nat) (w : world) (l : list entry)
    (round : nat) (state : fsm_state) (idx : nat) (varBind : var_bind) (e : exc) :
  (forall x, is_SmiError (raise_tuple x) = false) ->
  forall call,
    In call entry_points ->
    log (snd (call tree bld raise_tuple varBinds cbFun fuel w)) = log w ++ l ->
    In (Called round state idx varBind (Raise e)) l ->
    is_Exception e = true -> placeholder e = None ->
    (exists x, fst (call tree bld raise_tuple varBinds cbFun fuel w) = Raised x
               /\ is_SmiError x = false)
    /\ (exists l0, l = l0 ++ [Called round state idx varBind (Raise e)])
    /\ (discreet cbFun -> deliveries l = []).
Proof.
  intros Hpy3 call Hcall Hlog Hin Hexc Hp.
  assert (Htable : exists fsmTable,
            call tree bld raise_tuple varBinds cbFun fuel w
            = flipFlopFsm tree bld raise_tuple fsmTable varBinds cbFun fuel
                          no_context w).
  { destruct Hcall as [<- | [<- | [<- | []]]]; eexists; reflexivity. }
  destruct Htable as [fsmTable Htable]. rewrite Htable in *.
  destruct (@flipFlopFsm_final tree bld raise_tuple fsmTable varBinds cbFun Hpy3
              fuel no_context w) as (l' & Hl' & Hends).
  rewrite Hlog in Hl'. apply app_inv_head in Hl'. subst l'.
  destruct (Hends _ Hin) as (Hlast & x & Hx & Hsmi).
  { cbn. now rewrite Hexc, Hp. }
  split; [eauto | split; [exact Hlast | ]].
  intros Hdiscreet.
  destruct (@flipFlopFsm_closing tree bld raise_tuple fsmTable varBinds cbFun
              (raised_by cbFun) Hdiscreet fuel (fun y H => H) no_context w)
    as (l' & Hl' & Hclosing).
  rewrite Hlog in Hl'. apply app_inv_head in Hl'. subst l'.
  apply ContinuationFacts.no_delivery. apply forallb_forall. intros y Hy.
  destruct (is_delivery y) eqn:Hd; [ | reflexivity].
  destruct (Hclosing y Hy Hd) as (l1 & Hl1). destruct Hlast as (l0 & Hl0).
  rewrite Hl0 in Hl1. apply app_inj_tail in Hl1. destruct Hl1 as [_ <-].
  discriminate.
Qed.

End FatalFacts.

(* ------------------------------------------------------------------ *)
(** ** The dispatch engine: an error in the first round *)

Module FirstRoundFacts.
Import Indexer Engine RaiseFacts RoundFacts.

Section FirstRound.
Variable tree : mibTree.
Variable mibBuilder : Indexer.mibBuilder.
Variable raise_tuple : exc -> exc.
Variable fsmTable : fsm.
Variable varBinds : list var_bind.
Variable cbFun : option continuation.

(** The completion made on behalf of a phase method that raised, in a
    round whose context has no ['varBinds']. *)
Lemma cbFun_without_varBinds rec round vb context w :
  ctx_varBinds context = false ->
  _cbFun raise_tuple varBinds rec round vb context w
  = (Raised (KeyError "'varBinds'"), w).
Proof. intros H. unfold _cbFun. now rewrite H. Qed.

Lemma dispatch_without_varBinds rec round context state status rest :
  orderly rec -> ctx_varBinds context = false ->
  forall idx w,
    round < length (counts w) ->
    count round w + length rest <= length varBinds ->
    exists l,
      log (snd (dispatch tree raise_tuple varBinds rec round context
                         state status idx rest w)) = log w ++ l
      /\ forall s i vb e,
           In (Called round s i vb (Raise e)) l -> is_SmiError e = true ->
           s = state
           /\ fst (dispatch tree raise_tuple varBinds rec round context
                            state status idx rest w)
              = Raised (KeyError "'varBinds'")
           /\ (exists l0, l = l0 ++ [Called round s i vb (Raise e)])
           /\ deliveries l = [].
Proof.
  intros Hrec Hctx.
  induction rest as [|varBind rest IH]; intros idx w Hround Hcount;
    cbn [dispatch].
  - exists []. cbn. rewrite app_nil_r. split; [reflexivity | intros ? ? ? ? []].
  - set (a := method tree (calls w) state idx varBind status).
    set (w1 := note (Called round state idx varBind a) w).
    assert (Hfailed : forall e w',
              _cbFun raise_tuple varBinds rec round (Some (fst varBind, ExcInfo e))
                     (mkContext (ctx_state context) (Some STATUS_ERROR)
                                (ctx_varBinds context) (Some idx)) w'
              = (Raised (KeyError "'varBinds'"), w')).
    { intros e w'. now apply cbFun_without_varBinds. }
    (* a log in which no phase method of the round raised *)
    assert (Hnone : forall (o : outcome) (l : list entry),
              (forall s i vb e, ~ In (Called round s i vb (Raise e)) l) ->
              forall s i vb e,
                In (Called round s i vb (Raise e)) l -> is_SmiError e = true ->
                s = state /\ o = Raised (KeyError "'varBinds'")
                /\ (exists l0, l = l0 ++ [Called round s i vb (Raise e)])
                /\ deliveries l = []).
    { intros o l Hl s i vb e Hin. now apply Hl in Hin. }
    cbn [length] in Hcount.
    destruct a as [ | vb | e] eqn:Ea.
    + (* Defer *)
      destruct (IH (S idx) w1) as (l & Hl & Hp);
        [exact Hround | change (count round w1) with (count round w); lia | ].
      exists (Called round state idx varBind Defer :: l).
      rewrite Hl. cbn. rewrite <- app_assoc. split; [reflexivity | ].
      intros s i vb e [Hin | Hin] He; [discriminate | ].
      destruct (Hp s i vb e Hin He) as (Hs & Ho & (l0 & Hl0) & Hd).
      split; [exact Hs | split; [exact Ho | split; [ | exact Hd]]].
      exists (Called round state idx varBind Defer :: l0). now rewrite Hl0.
    + (* Reply *)
      destruct (cbFun_cases raise_tuple varBinds rec round (Some vb)
                  (mkContext (Some state) (Some status) true (Some idx)) w1)
        as [[e ->] | (i0 & v & ->)].
      * exists [Called round state idx varBind (Reply vb)].
        split; [destruct (is_SmiError e); [now rewrite Hfailed | reflexivity] | ].
        apply Hnone. intros s i vb' e' [Hin | []]. discriminate.
      * set (w2 := bump round (store i0 v w1)).
        assert (Hw2 : count round w2 <= S (count round w)).
        { apply (count_bump round (store i0 v w1)). }
        assert (Hlen2 : length (counts w2) = length (counts w)).
        { cbn. apply BatchFacts.set_nth_length. }
        assert (Hlog2 : log w2 = log w
                  ++ [Called round state idx varBind (Reply vb); Stored i0 v]).
        { cbn. now rewrite <- app_assoc. }
        destruct (count round w2 <? length varBinds) eqn:Hlt.
        -- apply Nat.ltb_lt in Hlt.
           destruct (IH (S idx) w2) as (l & Hl & Hp); [lia | lia | ].
           exists ([Called round state idx varBind (Reply vb); Stored i0 v] ++ l).
           rewrite Hl, Hlog2, <- app_assoc. split; [reflexivity | ].
           intros s i vb' e [Hin | [Hin | Hin]] He; try discriminate.
           destruct (Hp s i vb' e Hin He) as (Hs & Ho & (l0 & Hl0) & Hd).
           split; [exact Hs | split; [exact Ho | split; [ | exact Hd]]].
           exists (Called round state idx varBind (Reply vb) :: Stored i0 v :: l0).
           now rewrite Hl0.
        -- apply Nat.ltb_ge in Hlt.
           assert (Hrest : rest = [])
             by (destruct rest; [reflexivity | cbn [length] in *; lia]).
           subst rest.
           destruct (Hrec (next_context
                             (mkContext (Some state) (Some status) true (Some idx)))
                          w2) as (l3 & Hl3 & _ & Hrounds & _).
           assert (Hl3' : forall s i vb' e',
                     ~ In (Called round s i vb' (Raise e'))
                          ([Called round state idx varBind (Reply vb); Stored i0 v]
                             ++ l3)).
           { intros s i vb' e' [Hin | [Hin | Hin]]; try discriminate.
             apply Hrounds in Hin. lia. }
           exists ([Called round state idx varBind (Reply vb); Stored i0 v] ++ l3).
           destruct (rec _ w2) as [[ | e | ] w3]; cbn [fst snd] in Hl3;
             cbn [fst snd dispatch].
           ++ rewrite Hl3, Hlog2, <- app_assoc.
              split; [reflexivity | now apply Hnone].
           ++ split; [ | now apply Hnone].
              destruct (is_SmiError e); [rewrite Hfailed | ]; cbn [fst snd];
                now rewrite Hl3, Hlog2, <- app_assoc.
           ++ rewrite Hl3, Hlog2, <- app_assoc.
              split; [reflexivity | now apply Hnone].
    + (* Raise *)
      exists [Called round state idx varBind (Raise e)].
      destruct (is_SmiError e) eqn:He.
      * rewrite Hfailed. split; [reflexivity | ].
        intros s i vb e' [[= <- <- <- <-] | []] _.
        split; [reflexivity | split; [reflexivity | split; [now exists [] | ]]].
        reflexivity.
      * split; [reflexivity | ].
        intros s i vb e' [[= <- <- <- <-] | []] He'. congruence.
Qed.
End FirstRound.

(** X15.  An [SmiError] raised in the first round is not reported for
    its binding.  In the round that a call made by the application
    itself runs (the phase the table gives for START), the completion
    made on behalf of a phase method that raised an [SmiError] gets the
    context of the application, which has no ['varBinds']: whatever the
    error, marker or not, and whatever the continuation, the call ends
    with [KeyError] on that key right after the call of the phase
    method, and the continuation was not called. *)
Theorem first_round_error_is_a_KeyError
    tree bld raise_tuple (fsmTable : fsm) (varBinds : list var_bind)
    (cbFun : option continuation) (fuel : nat) (w : world) (l : list entry)
    (state : fsm_state) (idx : nat) (varBind : var_bind) (e : exc) :
  let r := flipFlopFsm tree bld raise_tuple fsmTable varBinds cbFun fuel
                       no_context w in
  log (snd r) = log w ++ l ->
  In (Called (length (counts w)) state idx varBind (Raise e)) l ->
  is_SmiError e = true ->
  newState fsmTable STATE_START STATUS_OK = inr state
  /\ fst r = Raised (KeyError "'varBinds'")
  /\ (exists l0,
         l = l0 ++ [Called (length (counts w)) state idx varBind (Raise e)])
  /\ deliveries l = [].
Proof.
  intros r Hlog Hin He.
  assert (Hmain : newState fsmTable STATE_START STATUS_OK = inr state
                  /\ fst r = Raised (KeyError "'varBinds'")
                  /\ (exists l0,
                         l = l0 ++ [Called (length (counts w)) state idx varBind
                                           (Raise e)])
                  /\ deliveries l = []).
  { subst r. destruct fuel as [|fuel]; cbn [flipFlopFsm] in *.
    { cbn in Hlog. rewrite <- (app_nil_r (log w)) in Hlog at 1.
      apply app_inv_head in Hlog. subst l. destruct Hin. }
    unfold flipFlopFsm_body in *.
    assert (Hno : forall ops (x : entry),
              (forall op, x <> Tree op) -> ~ In x (map Tree ops)).
    { intros ops x Hx Hi. apply in_map_iff in Hi. destruct Hi as (op & <- & _).
      now apply (Hx op). }
    assert (Htree : forall ops,
              ~ In (Called (length (counts w)) state idx varBind (Raise e))
                   (map Tree ops)).
    { intros ops. apply Hno. discriminate. }
    destruct cbFun as [cb | ].
    { unfold enter in *. cbn [no_context ctx_state] in *.
      destruct (indexMib bld (self (new_count w))) as [[o ops] ctl].
      set (w1 := mkWorld ctl varBinds (counts (new_count w))
                         (log (new_count w) ++ map Tree ops)) in *.
      assert (Hquiet : forall x : outcome * world,
                 log (snd x) = log w ++ map Tree ops ->
                 log (snd x) = log w ++ l -> False).
      { intros x Hx Hx'. rewrite Hx in Hx'. apply app_inv_head in Hx'.
        subst l. now apply Htree in Hin. }
      destruct o; [ | exfalso; exact (Hquiet (Raised e0, w1) eq_refl Hlog)
                    | exfalso; exact (Hquiet (OutOfFuel, w1) eq_refl Hlog)].
      destruct (newState fsmTable STATE_START STATUS_OK) as [x | state'];
        [exfalso; exact (Hquiet (Raised x, w1) eq_refl Hlog) | ].
      destruct (state_eqb state' STATE_STOP).
      { exfalso. destruct cb as [ | does]; cbn [deliver] in Hlog;
          [exact (Hquiet (Returned, w1) eq_refl Hlog) | ].
        assert (Hd : log (note (Delivered (_varBinds w1)) w1) = log w ++ l)
          by (destruct (does _ _); exact Hlog).
        cbn in Hd. rewrite <- app_assoc in Hd. apply app_inv_head in Hd.
        subst l. apply in_app_or in Hin.
        destruct Hin as [Hin | [Hin | []]]; [now apply Htree in Hin | discriminate]. }
      destruct (truthy cb && _).
      { rewrite cbFun_without_varBinds in Hlog by reflexivity.
        exfalso. exact (Hquiet (Returned, w1) eq_refl Hlog). }
      destruct (negb (has_method tree state'));
        [exfalso; exact (Hquiet (Returned, w1) eq_refl Hlog) | ].
      destruct (@dispatch_without_varBinds tree raise_tuple varBinds
                  (flipFlopFsm tree bld raise_tuple fsmTable varBinds (Some cb) fuel)
                  (length (counts w)) no_context state' STATUS_OK varBinds
                  (@flipFlopFsm_orderly tree bld raise_tuple fsmTable varBinds
                     (Some cb) fuel)
                  eq_refl 0 w1) as (l' & Hl' & Hp).
      { unfold w1. cbn. rewrite length_app. cbn. lia. }
      { unfold w1, count. cbn. rewrite nth_middle. lia. }
      rewrite Hl' in Hlog. unfold w1 in Hlog. cbn [log new_count] in Hlog.
      rewrite <- app_assoc in Hlog. apply app_inv_head in Hlog. subst l.
      apply in_app_or in Hin. destruct Hin as [Hin | Hin];
        [now apply Htree in Hin | ].
      destruct (Hp state idx varBind e Hin He) as (-> & Ho & (l0 & Hl0) & Hd).
      split; [reflexivity | split; [exact Ho | split]].
      - exists (map Tree ops ++ l0). now rewrite Hl0, app_assoc.
      - rewrite ContinuationFacts.deliveries_app, Hd, app_nil_r.
        clear. induction ops; simpl; auto. }
    cbn in Hlog. rewrite <- (app_nil_r (log w)) in Hlog at 1.
    apply app_inv_head in Hlog. subst l. destruct Hin. }
  exact Hmain.
Qed.

End FirstRoundFacts.

(* ------------------------------------------------------------------ *)
(** ** The properties on the sample collaborators *)

Module Witnesses.
Import Indexer Engine Samples.


(** A read of two bindings whose [readGet] answers with a captured
    [NoSuchObjectError]: the markers are delivered.  With a captured
    [NoSuchInstanceError], [_cbFun] raises. *)
Lemma captured_exception_becomes_placeholder_sample :
  (let r := readVars (get_reporting NoSuchObjectError) empty_builder py3_raise
                     [sysDescr; sysName] (Some returning) 3 start in
   fst r = Returned
   /\ phases (log (snd r))
      = [STATE_READ_TEST; STATE_READ_TEST; STATE_READ_GET; STATE_READ_GET]
   /\ deliveries (log (snd r))
      = [[(fst sysDescr, noSuchObject); (fst sysName, noSuchObject)]])
  /\ readVars (get_reporting NoSuchInstanceError) empty_builder py3_raise
              [sysDescr; sysName] (Some returning) 3 start
     = (Raised (AttributeError
                  "module 'pysnmp.proto.rfc1905' has no attribute 'noSuchOInstance'"),
        mkWorld (mkController 0 []) [(fst sysDescr, Data "value");
                                     (fst sysName, Data "value")] [2; 0]
                [ Called 0 STATE_READ_TEST 0 sysDescr
                         (Reply (fst sysDescr, Data "value"));
                  Stored 0 (fst sysDescr, Data "value");
                  Called 0 STATE_READ_TEST 1 sysName
                         (Reply (fst sysName, Data "value"));
                  Stored 1 (fst sysName, Data "value");
                  Called 1 STATE_READ_GET 0 sysDescr
                         (Reply (fst sysDescr, ExcInfo NoSuchInstanceError)) ]).
Proof.
  split; [ | reflexivity].
  apply (proj1 (proj2 (proj2
           (@PlaceholderFacts.captured_exception_becomes_placeholder
              (get_reporting NoSuchObjectError) empty_builder py3_raise fsmReadVar
              (fun _ _ => None) NoSuchObjectError)))
           noSuchObject [sysDescr; sysName]
           (fun state _ varBind =>
              match state with
              | STATE_READ_GET => (fst varBind, ExcInfo NoSuchObjectError)
              | _ => (fst varBind, Data "value")
              end)
           3 3 [STATE_READ_TEST; STATE_READ_GET] start [] (mkController 0 [])).
  - reflexivity.
  - intros n state idx varBind status. now destruct state.
  - intros state idx varBind. destruct state; eexists; reflexivity.
  - discriminate.
  - intros e (does & n & batch & [= <-] & H). discriminate.
  - reflexivity.
  - discriminate.
  - reflexivity.
  - intros s _. reflexivity.
  - reflexivity.
  - cbn. lia.
Defined.



(** The first indexing of the two modules, and the one after it. *)
Lemma index_by_build_version_sample :
  indexMib two_modules (mkController 1 []) = (Returned, [], mkController 1 [])
  /\ let rebuilt := mkController 1 (recorded two_modules (collect two_modules)) in
     exists o ops ctl,
       indexMib two_modules Indexer.init
       = (o, detach (collect two_modules) [] ++ ops, ctl)
       /\ ((no_orphans (collect two_modules) = true
            /\ o = Returned /\ ops = full_attach (collect two_modules)
            /\ ctl = rebuilt
            /\ indexMib two_modules rebuilt = (Returned, [], rebuilt))
           \/ (no_orphans (collect two_modules) = false
               /\ (exists e, o = Raised e /\ is_SmiError e = true)
               /\ ctl = Indexer.init)).
Proof.
  split.
  - apply (proj1 (IndexerFacts.index_by_build_version two_modules
                    (mkController 1 []))).
    reflexivity.
  - apply (proj2 (IndexerFacts.index_by_build_version two_modules Indexer.init)).
    simpl. lia.
Defined.

(** A [ValueError] raised by [readGet] for the first binding. *)
Lemma only_SmiError_is_caught_sample :
  (let context := mkContext (Some STATE_READ_TEST) (Some STATUS_OK) true None in
   let rec := fun (_ : ctx) (w : world) => (Returned, w) in
   dispatch get_crashing py3_raise [sysDescr; sysName] rec 1 context
            STATE_READ_GET STATUS_OK 0 [sysDescr; sysName] start
   = (Raised ValueError,
      note (Called 1 STATE_READ_GET 0 sysDescr (Raise ValueError)) start))
  /\ (let r := readVars get_crashing empty_builder py3_raise [sysDescr; sysName]
                        (Some returning) 5 start in
      fst r = Raised ValueError
      /\ (exists l0,
             log (snd r)
             = l0 ++ [Called 1 STATE_READ_GET 0 sysDescr (Raise ValueError)])
      /\ forallb (fun x => negb (is_delivery x)) (log (snd r)) = true).
Proof.
  split.
  - intros context rec.
    refine (proj1 (@RaiseFacts.only_SmiError_is_caught
                     get_crashing empty_builder py3_raise [sysDescr; sysName]
                     (Some returning))
                  rec 1 context STATE_READ_GET STATUS_OK 0 sysDescr [sysName]
                  start ValueError _).
    reflexivity.
  - intros r.
    destruct (proj2 (@RaiseFacts.only_SmiError_is_caught
                       get_crashing empty_builder py3_raise [sysDescr; sysName]
                       (Some returning))
                    readVars 5 start (log (snd r)) 1 STATE_READ_GET 0 sysDescr
                    ValueError) as (H1 & H2 & H3).
    + left. reflexivity.
    + reflexivity.
    + vm_compute. do 4 right. left. reflexivity.
    + reflexivity.
    + split; [exact H1 | split; [exact H2 | apply H3]].
      intros e (does & n & batch & Hcb & H). unfold returning in Hcb.
      injection Hcb as <-. discriminate.
Defined.



(** A read with more fuel than it needs. *)
Lemma reads_end_within_three_rounds_sample :
  readVars get_raising empty_builder py3_raise [sysDescr] (Some returning) 7 start
  = readVars get_raising empty_builder py3_raise [sysDescr] (Some returning) 3 start
  /\ fst (readVars get_raising empty_builder py3_raise [sysDescr] (Some returning) 3 start)
     <> OutOfFuel.
Proof.
  assert (H : 3 <= 7) by lia.
  destruct (proj1 (@FuelFacts.reads_end_within_three_rounds get_raising empty_builder
                     py3_raise [sysDescr] (Some returning) 7 H) start)
    as (H1 & H2 & _).
  split; assumption.
Defined.

(** A write whose [writeCommit] raises and whose [writeCleanup] keeps
    raising: the third call of [flipFlopFsm] enters the round of
    [writeCleanup], and that round is entered again and again. *)
Lemma raising_round_under_error_repeats_sample :
  let context := mkContext (Some STATE_WRITE_TEST) (Some STATUS_ERROR) true None in
  let w := snd (writeVars commit_and_cleanup_raising empty_builder py3_raise
                          [sysDescr] (Some returning) 2 start) in
  writeVars commit_and_cleanup_raising empty_builder py3_raise [sysDescr]
            (Some returning) 9 start
  = flipFlopFsm commit_and_cleanup_raising empty_builder py3_raise fsmWriteVar
                [sysDescr] (Some returning) 7 context w
  /\ (let r := flipFlopFsm commit_and_cleanup_raising empty_builder py3_raise
                           fsmWriteVar [sysDescr] (Some returning) 7 context w in
      fst r = OutOfFuel
      /\ phases (log (snd r)) = phases (log w) ++ repeat STATE_WRITE_CLEANUP 7
      /\ deliveries (log (snd r)) = deliveries (log w)).
Proof.
  intros context w. split; [vm_compute; reflexivity | ].
  apply (proj2 (@RecursionFacts.raising_round_under_error_repeats
                  commit_and_cleanup_raising empty_builder py3_raise fsmWriteVar
                  sysDescr returning STATE_WRITE_TEST STATE_WRITE_CLEANUP
                  NoSuchObjectError noSuchObject eq_refl eq_refl eq_refl
                  (fun _ => eq_refl) eq_refl eq_refl) 7 w).
  vm_compute. discriminate.
Defined.

(** The call of [readGet] for the second binding in the run with late
    completions. *)
Lemma phase_methods_get_input_bindings_sample :
  nth_error [sysDescr; sysName] 1 = Some sysName
  /\ has_method test_deferring STATE_READ_GET = true
  /\ STATE_READ_GET <> STATE_STOP
  /\ In STATE_READ_GET (map snd fsmReadVar).
Proof.
  apply (@ShapeFacts.phase_methods_get_input_bindings
           test_deferring empty_builder py3_raise fsmReadVar [sysDescr; sysName]
           returning 4 5 late_completions (mkWorld Indexer.init [] [] [])
           (log late_run) eq_refl
           ltac:(repeat constructor; discriminate) eq_refl
           1 STATE_READ_GET 1 sysName (Reply (fst sysName, Data "value"))).
  vm_compute. do 6 right. left. reflexivity.
Defined.

(** The run with late completions. *)
Lemma indexing_once_per_call_sample :
  self late_run = snd (indexMib empty_builder Indexer.init)
  /\ exists l,
       log late_run
       = [] ++ map Tree (snd (fst (indexMib empty_builder Indexer.init))) ++ l
       /\ forall op, ~ In (Tree op) l.
Proof.
  apply (proj2 (@ShapeFacts.indexing_once_per_call
           test_deferring empty_builder py3_raise fsmReadVar [sysDescr; sysName]
           returning 4 5 late_completions (mkWorld Indexer.init [] [] [])
           eq_refl
           ltac:(repeat constructor; discriminate))).
Defined.

(** A read with [cbFun=None]. *)
Lemma no_delivery_without_continuation_sample :
  deliveries (log (snd (readVars answering empty_builder py3_raise
                                 [sysDescr; sysName] (Some Falsy) 5 start)))
  = [].
Proof.
  apply (proj2 (@ShapeFacts.no_delivery_without_continuation
                  answering empty_builder py3_raise fsmReadVar
                  [sysDescr; sysName] 4 0 [] start)).
  - reflexivity.
  - constructor.
  - reflexivity.
Defined.


(** One of the two deferred completions of [readTest]. *)
Lemma barrier_counts_completions_sample :
  let evs := [Completion 0 1 (fst sysName, Data "tested")
                         STATE_READ_TEST STATUS_OK] in
  let w' := completions test_deferring empty_builder py3_raise fsmReadVar
                        [sysDescr; sysName] (Some returning) 5 evs deferred_call in
  log w' = log deferred_call ++ map (stored py3_raise) evs
  /\ count 0 w' = count 0 deferred_call + length evs
  /\ self w' = self deferred_call.
Proof.
  intros evs.
  apply (proj1 (@BarrierFacts.barrier_counts_completions
                  test_deferring empty_builder py3_raise fsmReadVar
                  [sysDescr; sysName] (Some returning) 5 0 evs deferred_call
                  ltac:(cbn; lia)
                  ltac:(repeat constructor; cbn; try lia; eexists; reflexivity))).
  cbn. lia.
Defined.

(** The two modules, indexed and indexed again. *)
Lemma rebuild_detaches_what_was_attached_sample :
  detach (collect two_modules) (recorded two_modules (collect two_modules))
  = map undo (full_attach (collect two_modules)).
Proof.
  apply (proj1 (proj2 (@DetachFacts.rebuild_detaches_what_was_attached two_modules
                         eq_refl eq_refl))).
Defined.

(** The instance of ZZZ is registered before the orphan of AAA stops
    the pass. *)
Lemma aborted_rebuild_leaves_partial_tree_sample :
  exists e done rest,
    indexMib half_orphaned Indexer.init
    = (Raised e,
       detach (collect half_orphaned) (lastBuildSyms Indexer.init) ++ done,
       Indexer.init)
    /\ is_SmiError e = true
    /\ full_attach (collect half_orphaned) = done ++ rest
    /\ rest <> [].
Proof.
  apply (@DetachFacts.aborted_rebuild_leaves_partial_tree half_orphaned Indexer.init).
  - cbn. lia.
  - reflexivity.
Defined.

(** A write of two bindings that every phase method answers. *)
Lemma answered_batch_runs_all_phases_sample :
  let r := flipFlopFsm answering empty_builder py3_raise fsmWriteVar
                       [sysDescr; sysName] (Some returning) 6 no_context start in
  fst r = Returned
  /\ self (snd r) = mkController 0 []
  /\ phases (log (snd r))
     = phases (log start)
       ++ flat_map (fun s => repeat s (length [sysDescr; sysName]))
                   [ STATE_WRITE_TEST; STATE_WRITE_COMMIT; STATE_WRITE_CLEANUP;
                     STATE_READ_TEST; STATE_READ_GET ]
  /\ deliveries (log (snd r))
     = deliveries (log start)
       ++ [fold_left (fun _ s => replies py3_raise (answered s) 0 [sysDescr; sysName])
                     [ STATE_WRITE_TEST; STATE_WRITE_COMMIT; STATE_WRITE_CLEANUP;
                       STATE_READ_TEST; STATE_READ_GET ]
                     [sysDescr; sysName]].
Proof.
  apply (@AnsweringFacts.answered_batch_runs_all_phases
           answering empty_builder py3_raise fsmWriteVar [sysDescr; sysName]
           answered (fun _ _ => None) 6 6
           [ STATE_WRITE_TEST; STATE_WRITE_COMMIT; STATE_WRITE_CLEANUP;
             STATE_READ_TEST; STATE_READ_GET ]
           start [] (mkController 0 [])).
  - reflexivity.
  - intros state idx varBind. exists (Data "value"). reflexivity.
  - discriminate.
  - intros e (does & n & batch & [= <-] & H). discriminate.
  - reflexivity.
  - reflexivity.
  - reflexivity.
  - cbn. lia.
Defined.

(** A write, then a read. *)
Lemma unchanged_modules_are_indexed_once_sample :
  let w1 := completions answering empty_builder py3_raise fsmWriteVar [sysDescr]
              (Some returning) 0 []
              (snd (flipFlopFsm answering empty_builder py3_raise fsmWriteVar
                                [sysDescr] (Some returning) 7 no_context start)) in
  let w2 := snd (flipFlopFsm answering empty_builder py3_raise fsmReadVar
                             [sysName] (Some returning) 4 no_context w1) in
  self w1 = mkController 0 [] /\ self w2 = mkController 0 []
  /\ exists l, log w2 = log w1 ++ l /\ forall op, ~ In (Tree op) l.
Proof.
  apply (@ShapeFacts.unchanged_modules_are_indexed_once
           answering empty_builder py3_raise fsmWriteVar fsmReadVar
           [sysDescr] [sysName] returning returning 6 0 3 [] start [] (mkController 0 [])).
  - reflexivity.
  - reflexivity.
  - constructor.
  - reflexivity.
Defined.

(** A read of one binding whose [readGet] raises
    [NoSuchObjectError]. *)
Lemma failed_read_of_one_binding_is_delivered_sample :
  let r := readVars get_raising empty_builder py3_raise [sysDescr]
                    (Some returning) 3 start in
  fst r = Returned
  /\ self (snd r) = mkController 0 []
  /\ phases (log (snd r)) = [STATE_READ_TEST; STATE_READ_GET]
  /\ deliveries (log (snd r)) = [[(fst sysDescr, noSuchObject)]].
Proof.
  apply (@OneBindingFacts.failed_read_of_one_binding_is_delivered
           get_raising empty_builder py3_raise fsmReadVar sysDescr
           (fst sysDescr, Data "value") (fun _ _ => None) 0 start []
           (mkController 0 [])
           STATE_READ_TEST STATE_READ_GET NoSuchObjectError noSuchObject).
  - reflexivity.
  - intros e (does & n & batch & [= <-] & H). discriminate.
  - reflexivity.
  - reflexivity.
  - reflexivity.
  - reflexivity.
  - eexists. reflexivity.
  - reflexivity.
  - reflexivity.
  - reflexivity.
  - reflexivity.
  - reflexivity.
  - reflexivity.
  - reflexivity.
Defined.

(** A write of one binding whose [writeCommit] raises
    [WrongValueError]: the call ends with the [TypeError] of
    [raise value]. *)
Lemma exception_without_marker_ends_the_call_sample :
  let r := writeVars commit_rejecting empty_builder py3_raise [sysDescr]
                     (Some returning) 6 start in
  (exists x, fst r = Raised x /\ is_SmiError x = false)
  /\ (exists l0,
         log (snd r)
         = l0 ++ [Called 1 STATE_WRITE_COMMIT 0 sysDescr (Raise WrongValueError)])
  /\ deliveries (log (snd r)) = [].
Proof.
  intros r.
  destruct (@FatalFacts.exception_without_marker_ends_the_call
              commit_rejecting empty_builder py3_raise [sysDescr] (Some returning) 6
              start (log (snd r)) 1 STATE_WRITE_COMMIT 0 sysDescr WrongValueError
              (fun _ => eq_refl) writeVars)
    as (H1 & H2 & H3).
  - right. right. left. reflexivity.
  - reflexivity.
  - vm_compute. tauto.
  - reflexivity.
  - reflexivity.
  - split; [exact H1 | split; [exact H2 | apply H3]].
    intros x (does & n & batch & Hcb & H). unfold returning in Hcb.
    injection Hcb as <-. discriminate.
Defined.

(** A read of two bindings whose [readTest] raises
    [NoSuchObjectError] for the first. *)
Lemma first_round_error_is_a_KeyError_sample :
  let r := readVars test_raising empty_builder py3_raise [sysDescr; sysName]
                    (Some returning) 5 start in
  newState fsmReadVar STATE_START STATUS_OK = inr STATE_READ_TEST
  /\ fst r = Raised (KeyError "'varBinds'")
  /\ (exists l0,
         log (snd r)
         = l0 ++ [Called 0 STATE_READ_TEST 0 sysDescr (Raise NoSuchObjectError)])
  /\ deliveries (log (snd r)) = [].
Proof.
  intros r.
  apply (@FirstRoundFacts.first_round_error_is_a_KeyError
           test_raising empty_builder py3_raise fsmReadVar [sysDescr; sysName]
           (Some returning) 5 start (log (snd r)) STATE_READ_TEST 0 sysDescr
           NoSuchObjectError).
  - reflexivity.
  - vm_compute. tauto.
  - reflexivity.
Defined.

End Witnesses.
